(** * Carrier integration service: a shallow embedding and its properties

    The development follows the TypeScript sources of the service:
    - [src/domain/errors.ts]        the closed error taxonomy ([CarrierError]);
    - [src/http/client.ts]          [HttpClient.translateError], [extractUpstreamErrors];
    - [src/carriers/ups/auth.ts]    the OAuth token manager ([UpsAuthenticator]);
    - [src/carriers/ups/mapper.ts]  [buildUpsRateRequest], [mapUpsRatedShipmentToQuote];
    - [src/carriers/ups/rating.ts]  [UpsRatingOperation.execute];
    - [src/validation/schemas.ts]   the zod schemas of a rate request;
    - [src/carriers/ups/client.ts]  [UpsCarrierClient.getRates];
    - [src/services/shipping-service.ts]  [ShippingService.shopRates].

    Conventions.  A JavaScript string is a Rocq [string]; one character stands
    for one code unit.  A JavaScript number is a [number]: NaN, the two
    infinities, or a finite value kept exactly as a rational (rounding to
    binary64 is not modelled; none of the code below depends on it: the
    comparisons and the sign of a difference of two finite doubles agree with
    those of their exact values).  An optional property ([x?: T], a value that
    may be [undefined]) is an [option]. *)

From Stdlib Require Import String Ascii List Bool Arith ZArith QArith Lia Lqa.
From Stdlib Require Import Permutation Sorted.
Import ListNotations.

Local Close Scope Q_scope.
Local Open Scope string_scope.
Local Open Scope list_scope.

(* ================================================================== *)
(** * JavaScript numbers and the two numeric parsers                    *)
(* ================================================================== *)

Module Js.

Inductive number : Type :=
| NaN
| NegInfinity
| Finite (q : Q)
| PosInfinity.

Definition of_Z (z : Z) : number := Finite (inject_Z z).

Definition isNaN (n : number) : bool :=
  match n with NaN => true | _ => false end.

Definition Qltb (a b : Q) : bool :=
  match Qcompare a b with Lt => true | _ => false end.

Definition Qeqb (a b : Q) : bool :=
  match Qcompare a b with Eq => true | _ => false end.

(** [a + b] *)
Definition add (a b : number) : number :=
  match a, b with
  | NaN, _ | _, NaN => NaN
  | PosInfinity, NegInfinity | NegInfinity, PosInfinity => NaN
  | PosInfinity, _ | _, PosInfinity => PosInfinity
  | NegInfinity, _ | _, NegInfinity => NegInfinity
  | Finite x, Finite y => Finite (x + y)%Q
  end.

(** [a - b] *)
Definition sub (a b : number) : number :=
  match a, b with
  | NaN, _ | _, NaN => NaN
  | PosInfinity, PosInfinity | NegInfinity, NegInfinity => NaN
  | PosInfinity, _ | _, NegInfinity => PosInfinity
  | NegInfinity, _ | _, PosInfinity => NegInfinity
  | Finite x, Finite y => Finite (x - y)%Q
  end.

Definition scale_inf (pos : bool) (x : Q) : number :=
  match Qcompare x 0%Q with
  | Eq => NaN
  | Gt => if pos then PosInfinity else NegInfinity
  | Lt => if pos then NegInfinity else PosInfinity
  end.

(** [a * b] *)
Definition mul (a b : number) : number :=
  match a, b with
  | NaN, _ | _, NaN => NaN
  | Finite x, Finite y => Finite (x * y)%Q
  | PosInfinity, Finite y => scale_inf true y
  | NegInfinity, Finite y => scale_inf false y
  | Finite x, PosInfinity => scale_inf true x
  | Finite x, NegInfinity => scale_inf false x
  | PosInfinity, PosInfinity | NegInfinity, NegInfinity => PosInfinity
  | PosInfinity, NegInfinity | NegInfinity, PosInfinity => NegInfinity
  end.

(** [a < b]; every comparison with NaN is false. *)
Definition lt (a b : number) : bool :=
  match a, b with
  | NaN, _ | _, NaN => false
  | _, NegInfinity => false
  | NegInfinity, _ => true
  | PosInfinity, _ => false
  | Finite _, PosInfinity => true
  | Finite x, Finite y => Qltb x y
  end.

(** [a > b] *)
Definition gt (a b : number) : bool := lt b a.

(** [a === b] on numbers. *)
Definition eqb (a b : number) : bool :=
  match a, b with
  | NegInfinity, NegInfinity | PosInfinity, PosInfinity => true
  | Finite x, Finite y => Qeqb x y
  | _, _ => false
  end.

(** [a <= b] *)
Definition le (a b : number) : bool := lt a b || eqb a b.

(** ToBoolean on a string: only the empty string is falsy. *)
Definition truthy_string (s : string) : bool :=
  match s with EmptyString => false | _ => true end.

(** ToBoolean on an optional string ([undefined] is falsy). *)
Definition truthy_ostring (s : option string) : bool :=
  match s with Some s => truthy_string s | None => false end.

(** ** Property lookup in an object literal

    [table[key]] on an object written as a literal finds the literal's own
    entries and, failing that, the members every object inherits from
    [Object.prototype]. *)
Inductive member (A : Type) : Type :=
| Value (a : A)            (* an entry of the literal *)
| Builtin (key : string).  (* an inherited member of [Object.prototype] *)
Arguments Value {A} a.
Arguments Builtin {A} key.

Definition object_prototype_keys : list string :=
  [ "constructor"; "__defineGetter__"; "__defineSetter__"; "hasOwnProperty";
    "__lookupGetter__"; "__lookupSetter__"; "isPrototypeOf";
    "propertyIsEnumerable"; "toString"; "valueOf"; "__proto__";
    "toLocaleString" ].

Fixpoint assoc {A} (own : list (string * A)) (key : string) : option A :=
  match own with
  | [] => None
  | (k, v) :: rest => if String.eqb k key then Some v else assoc rest key
  end.

(** [None] is [undefined]. *)
Definition lookup {A} (own : list (string * A)) (key : string) : option (member A) :=
  match assoc own key with
  | Some v => Some (Value v)
  | None =>
      if existsb (String.eqb key) object_prototype_keys
      then Some (Builtin key) else None
  end.

(** The decimal string [n.toString()], kept as the number it renders. *)
Inductive numeral : Type :=
| ToString (n : number).

(** ** Characters *)

Definition digit_of (c : ascii) : option Z :=
  let n := Z.of_nat (nat_of_ascii c) in
  if ((48 <=? n) && (n <=? 57))%Z then Some (n - 48)%Z else None.

(** StrWhiteSpaceChar, as far as it fits in one 8-bit code unit:
    TAB, LF, VT, FF, CR, SP and NBSP. *)
Definition is_space (c : ascii) : bool :=
  let n := nat_of_ascii c in
  ((9 <=? n) && (n <=? 13) || (n =? 32) || (n =? 160))%nat.

Fixpoint skip_space (s : string) : string :=
  match s with
  | String c r => if is_space c then skip_space r else s
  | EmptyString => s
  end.

(** The longest run of decimal digits at the head of [s], most significant
    first, and what follows it. *)
Fixpoint take_digits (s : string) : list Z * string :=
  match s with
  | String c r =>
      match digit_of c with
      | Some d => let '(ds, rest) := take_digits r in (d :: ds, rest)
      | None => ([], s)
      end
  | EmptyString => ([], s)
  end.

Definition digits_value (ds : list Z) : Z :=
  fold_left (fun acc d => (10 * acc + d)%Z) ds 0%Z.

(** An optional sign: [true] for a leading minus. *)
Definition take_sign (s : string) : bool * string :=
  match s with
  | String "-" r => (true, r)
  | String "+" r => (false, r)
  | _ => (false, s)
  end.

(** ** [parseInt(s, 10)]

    Leading white space, an optional sign, then the longest run of decimal
    digits; NaN when there is none.  [parseInt(undefined, 10)] converts
    [undefined] to the string "undefined" first, hence NaN. *)
Definition parseInt (s : string) : number :=
  let '(negative, s1) := take_sign (skip_space s) in
  match take_digits s1 with
  | ([], _) => NaN
  | (ds, _) => of_Z (if negative then - digits_value ds else digits_value ds)%Z
  end.

Definition parseInt_opt (s : option string) : number :=
  match s with Some s => parseInt s | None => NaN end.

(** ** [parseFloat(s)]

    Leading white space is skipped and the longest prefix that is a
    StrDecimalLiteral is converted; NaN when no prefix is one.  The value
    is the exact rational the literal denotes: the rounding to a binary64
    number, and with it overflow to an infinity and underflow to zero, is
    left out.  Whether the result is NaN does not depend on it. *)

(** An exponent part [e[+-]ddd], when complete. *)
Definition take_exponent (s : string) : option Z :=
  match s with
  | String c r =>
      if (Ascii.eqb c "e" || Ascii.eqb c "E")%bool then
        let '(negative, r1) := take_sign r in
        match take_digits r1 with
        | ([], _) => None
        | (ds, _) => Some (if negative then - digits_value ds else digits_value ds)%Z
        end
      else None
  | EmptyString => None
  end.

Definition decimal_value (negative : bool) (int_ds frac_ds : list Z) (e : Z) : Q :=
  let m := digits_value (int_ds ++ frac_ds) in
  let m := if negative then (- m)%Z else m in
  let e' := (e - Z.of_nat (length frac_ds))%Z in
  match e' with
  | Z0 => inject_Z m
  | Zpos p => inject_Z (m * Z.pow 10 (Zpos p))
  | Zneg p => Qmake m (Pos.pow 10 p)
  end.

Definition parseFloat (s : string) : number :=
  let '(negative, s1) := take_sign (skip_space s) in
  if String.prefix "Infinity" s1 then
    (if negative then NegInfinity else PosInfinity)
  else
    let '(int_ds, s2) := take_digits s1 in
    let '(frac_ds, s3) :=
      match s2 with
      | String "." r => take_digits r
      | _ => ([], s2)
      end in
    match int_ds, frac_ds with
    | [], [] => NaN
    | _, _ =>
        let e := match take_exponent s3 with Some e => e | None => 0%Z end in
        Finite (decimal_value negative int_ds frac_ds e)
    end.

(** Decimal rendering of a natural number, as [n.toString()] gives for an
    array length or an index. *)
Fixpoint nat_digits (fuel n : nat) (acc : string) : string :=
  match fuel with
  | O => acc
  | S fuel' =>
      let d := ascii_of_nat (48 + n mod 10) in
      let acc' := String d acc in
      match n / 10 with
      | O => acc'
      | m => nat_digits fuel' m acc'
      end
  end.

Definition nat_toString (n : nat) : string := nat_digits (S n) n "".

(** [n.toString()] for an integral number. *)
Definition Z_toString (z : Z) : string :=
  match z with
  | Zneg p => "-" ++ nat_toString (Pos.to_nat p)
  | _ => nat_toString (Z.to_nat z)
  end.

End Js.

(* ================================================================== *)
(** * src/domain/errors.ts                                              *)
(* ================================================================== *)

Inductive CarrierErrorCode : Type :=
| VALIDATION_ERROR
| AUTHENTICATION_ERROR
| AUTHORIZATION_ERROR
| RATE_LIMIT_ERROR
| CARRIER_API_ERROR
| NETWORK_ERROR
| TIMEOUT_ERROR
| PARSE_ERROR
| CONFIGURATION_ERROR
| UNKNOWN_ERROR.

Definition CarrierErrorCode_eqb (a b : CarrierErrorCode) : bool :=
  match a, b with
  | VALIDATION_ERROR, VALIDATION_ERROR
  | AUTHENTICATION_ERROR, AUTHENTICATION_ERROR
  | AUTHORIZATION_ERROR, AUTHORIZATION_ERROR
  | RATE_LIMIT_ERROR, RATE_LIMIT_ERROR
  | CARRIER_API_ERROR, CARRIER_API_ERROR
  | NETWORK_ERROR, NETWORK_ERROR
  | TIMEOUT_ERROR, TIMEOUT_ERROR
  | PARSE_ERROR, PARSE_ERROR
  | CONFIGURATION_ERROR, CONFIGURATION_ERROR
  | UNKNOWN_ERROR, UNKNOWN_ERROR => true
  | _, _ => false
  end.

Record CarrierErrorDetails : Type := mkDetails {
  carrier : option string;
  httpStatus : option Z;
  upstreamCode : option string;
  upstreamMessage : option string;
  retryable : bool
}.

(** [Partial<CarrierErrorDetails>]: what a caller hands to the constructor. *)
Record PartialDetails : Type := mkPartial {
  p_carrier : option string;
  p_httpStatus : option Z;
  p_upstreamCode : option string;
  p_upstreamMessage : option string;
  p_retryable : option bool
}.

Definition no_details : PartialDetails := mkPartial None None None None None.

Record CarrierError : Type := mkError {
  code : CarrierErrorCode;
  message : string;
  details : CarrierErrorDetails
}.

(** [new CarrierError(code, message, details)]:
    [this.details = { retryable: false, ...details }]. *)
Definition newCarrierError (c : CarrierErrorCode) (msg : string)
                           (d : PartialDetails) : CarrierError :=
  mkError c msg
    (mkDetails (p_carrier d) (p_httpStatus d) (p_upstreamCode d)
               (p_upstreamMessage d)
               (match p_retryable d with Some b => b | None => false end)).

(** [error.details.carrier = c] *)
Definition set_carrier (c : string) (e : CarrierError) : CarrierError :=
  mkError (code e) (message e)
    (mkDetails (Some c) (httpStatus (details e)) (upstreamCode (details e))
               (upstreamMessage (details e)) (retryable (details e))).

(* ================================================================== *)
(** * src/http/client.ts                                                *)
(* ================================================================== *)

Module Http.

(** The carrier's error body, at the types the code casts it to:
    [{ response: { errors: [{ code, message }] } }], every level optional. *)
Record UpstreamError : Type := mkUpstreamError {
  ue_code : option string;
  ue_message : option string
}.

Record ErrorEnvelope : Type := mkEnvelope {
  errors : option (list UpstreamError)
}.

Record ErrorBody : Type := mkBody {
  response : option ErrorEnvelope
}.

(** [error.response] of an [AxiosError]. *)
Record AxiosErrorResponse : Type := mkAxiosErrorResponse {
  status : Z;
  data : option ErrorBody
}.

Record AxiosError : Type := mkAxiosError {
  ax_code : option string;
  ax_message : string;
  ax_response : option AxiosErrorResponse
}.

(** A value caught by [catch (error)]. *)
Inductive Exn : Type :=
| ExnCarrierError (e : CarrierError)   (* error instanceof CarrierError *)
| ExnAxiosError (e : AxiosError)       (* error instanceof AxiosError *)
| ExnError (msg : string)              (* any other Error instance *)
| ExnOther.                            (* a thrown value that is no Error *)

(** [error instanceof Error ? error.message : fallback] *)
Definition error_message_or (fallback : string) (ex : Exn) : string :=
  match ex with
  | ExnCarrierError e => message e
  | ExnAxiosError e => ax_message e
  | ExnError m => m
  | ExnOther => fallback
  end.

(** [a || b] on strings. *)
Definition or_string (a : option string) (b : string) : string :=
  match a with
  | Some s => if Js.truthy_string s then s else b
  | None => b
  end.

Definition extractUpstreamErrors (body : option ErrorBody)
  : option (string * string) :=
  match body with
  | None => None
  | Some body =>
      match response body with
      | Some response =>
          match errors response with
          | Some (e0 :: _) =>
              Some (or_string (ue_code e0) "UNKNOWN",
                    or_string (ue_message e0) "Unknown carrier error")
          | _ => None
          end
      | None => None
      end
  end.

Definition is_timeout_code (c : option string) : bool :=
  match c with
  | Some c => String.eqb c "ECONNABORTED" || String.eqb c "ETIMEDOUT"
  | None => false
  end.

Definition translateError (error : Exn) : CarrierError :=
  match error with
  | ExnCarrierError e => e
  | ExnAxiosError error =>
      if is_timeout_code (ax_code error) then
        newCarrierError TIMEOUT_ERROR
          ("Request timed out: " ++ ax_message error)
          (mkPartial None None None None (Some true))
      else
        match ax_response error with
        | None =>
            newCarrierError NETWORK_ERROR
              ("Network error: " ++ ax_message error)
              (mkPartial None None None None (Some true))
        | Some resp =>
            let status := status resp in
            let body := data resp in
            if (status =? 401)%Z then
              newCarrierError AUTHENTICATION_ERROR "Authentication failed"
                (mkPartial None (Some status) None None (Some true))
            else if (status =? 403)%Z then
              newCarrierError AUTHORIZATION_ERROR "Authorization denied"
                (mkPartial None (Some status) None None (Some false))
            else if (status =? 429)%Z then
              newCarrierError RATE_LIMIT_ERROR "Rate limit exceeded"
                (mkPartial None (Some status) None None (Some true))
            else
              let upstreamErrors := extractUpstreamErrors body in
              newCarrierError CARRIER_API_ERROR
                (or_string (option_map snd upstreamErrors)
                   ("Carrier API returned HTTP " ++ Js.Z_toString status))
                (mkPartial None (Some status)
                   (option_map fst upstreamErrors)
                   (option_map snd upstreamErrors)
                   (Some (500 <=? status)%Z))
        end
  | ExnError m =>
      newCarrierError UNKNOWN_ERROR m (mkPartial None None None None (Some false))
  | ExnOther =>
      newCarrierError UNKNOWN_ERROR "An unknown error occurred"
        (mkPartial None None None None (Some false))
  end.


(** What [this.client.post] (axios) settles with. *)
Inductive AxiosResult (D : Type) : Type :=
| AxiosOk (status : Z) (data : D)
| AxiosFail (error : Exn).
Arguments AxiosOk {D} status data.
Arguments AxiosFail {D} error.

Record HttpResponse (D : Type) : Type := mkHttpResponse {
  r_status : Z;
  r_data : D
}.
Arguments mkHttpResponse {D} r_status r_data.
Arguments r_status {D} h.
Arguments r_data {D} h.

(** [HttpClient.post], as a function of what the axios call settles with:
    a failure is rethrown translated. *)
Definition post_result {D : Type} (o : AxiosResult D) : HttpResponse D + Exn :=
  match o with
  | AxiosOk st d => inl (mkHttpResponse st d)
  | AxiosFail error => inr (ExnCarrierError (translateError error))
  end.

End Http.

(* ================================================================== *)
(** * src/carriers/ups/auth.ts                                          *)
(* ================================================================== *)

Module Auth.
Import Http.

(** The fields of [OAuthTokenResponse] that [fetchToken] reads. *)
Record OAuthTokenResponse : Type := mkOAuth {
  access_token : option string;
  expires_in : option string
}.

(** [response.data] of the credential exchange: [None] is a [null] or
    [undefined] body, on which the destructuring throws a [TypeError]. *)
Definition TokenData : Type := option OAuthTokenResponse.

Record TokenCache : Type := mkCache {
  accessToken : string;
  expiresAt : Js.number
}.

Definition TOKEN_EXPIRY_BUFFER_MS : Js.number := Js.of_Z 60000.

(** What a promise of [fetchToken] settles with. *)
Definition Outcome : Type := (string + CarrierError)%type.

Inductive PromiseState : Type :=
| Pending
| Settled (o : Outcome).

(** The authenticator object.  [pendingRefresh] holds a handle into the
    promise store [promises]; [exchanges] counts the credential exchanges
    started so far (the calls of [this.httpClient.post] in [fetchToken]). *)
Record State : Type := mkState {
  cache : option TokenCache;
  pendingRefresh : option nat;
  promises : list PromiseState;
  exchanges : nat
}.

Definition initial : State := mkState None None [] 0.

(** [this.cache && Date.now() < this.cache.expiresAt] *)
Definition cache_valid (c : option TokenCache) (now : Js.number) : bool :=
  match c with
  | Some c => Js.lt now (expiresAt c)
  | None => false
  end.

(** What one call of [getAccessToken] does before it first suspends. *)
Inductive CallResult : Type :=
| FromCache (token : string)   (* line 38: the cached token, at once *)
| Joined (p : nat)             (* line 43: the promise already in flight *)
| Started (p : nat).           (* lines 46-48: a new [fetchToken()], awaited *)

(** Lines 41-51: no usable cached token. *)
Definition refresh (s : State) : CallResult * State :=
  match pendingRefresh s with
  | Some p => (Joined p, s)
  | None =>
      let p := length (promises s) in
      (Started p,
       mkState (cache s) (Some p) (promises s ++ [Pending]) (S (exchanges s)))
  end.

Definition getAccessToken (now : Js.number) (s : State) : CallResult * State :=
  match cache s with
  | Some c =>
      if Js.lt now (expiresAt c) then (FromCache (accessToken c), s)
      else refresh s
  | None => refresh s
  end.

Definition invalidateToken (s : State) : State :=
  mkState None (pendingRefresh s) (promises s) (exchanges s).

Definition wrap_auth_failure (cause : string) : CarrierError :=
  newCarrierError AUTHENTICATION_ERROR
    ("UPS authentication failed: " ++ cause)
    (mkPartial (Some "UPS") None None None (Some true)).

(** The [catch] block of [fetchToken]. *)
Definition fetchToken_catch (error : Exn) : CarrierError :=
  match error with
  | ExnCarrierError e =>
      if CarrierErrorCode_eqb (code e) AUTHENTICATION_ERROR then e
      else wrap_auth_failure (message e)
  | _ => wrap_auth_failure (error_message_or "unknown error" error)
  end.

(** The message of the [TypeError] that destructuring a nullish
    [response.data] throws, in the engine's wording for [undefined]; for
    [null] the engine ends it in "as it is null." instead. *)
Definition destructure_message : string :=
  "Cannot destructure property 'access_token' of 'response.data' as it is undefined.".

(** The body of [fetchToken] from the point where the exchange settles, at
    time [now]: the outcome of the promise and the cache it leaves. *)
Definition fetchToken (now : Js.number) (o : AxiosResult TokenData)
                      (old : option TokenCache)
  : Outcome * option TokenCache :=
  match post_result o with
  | inr error => (inr (fetchToken_catch error), old)
  | inl response =>
      match r_data response with
      | None => (inr (fetchToken_catch (ExnError destructure_message)), old)
      | Some d =>
          if negb (Js.truthy_ostring (access_token d)) then
            (inr (fetchToken_catch (ExnCarrierError
               (newCarrierError AUTHENTICATION_ERROR
                  "UPS OAuth response missing access_token"
                  (mkPartial (Some "UPS") None None None (Some true))))), old)
          else
            let token := match access_token d with Some t => t | None => "" end in
            let expiresInMs := Js.mul (Js.parseInt_opt (expires_in d)) (Js.of_Z 1000) in
            (inl token,
             Some (mkCache token
                     (Js.sub (Js.add now expiresInMs) TOKEN_EXPIRY_BUFFER_MS)))
      end
  end.

Fixpoint set_nth {A} (n : nat) (x : A) (l : list A) : list A :=
  match l, n with
  | [], _ => []
  | _ :: t, O => x :: t
  | h :: t, S n' => h :: set_nth n' x t
  end.

(** The exchange of the promise in flight settles at time [now] with [o]:
    [fetchToken] resumes, writes the cache on success and settles its
    promise.  Nothing happens when no exchange is outstanding. *)
Definition settle (now : Js.number) (o : AxiosResult TokenData) (s : State) : State :=
  match pendingRefresh s with
  | None => s
  | Some p =>
      match nth_error (promises s) p with
      | Some Pending =>
          let '(out, c) := fetchToken now o (cache s) in
          mkState c (pendingRefresh s) (set_nth p (Settled out) (promises s))
                  (exchanges s)
      | _ => s
      end
  end.

(** The [finally] block of the call that started the refresh.  That call
    awaits the promise from the moment it exists, so its continuation is the
    first to run once the promise settles: in the program [finally] follows
    [settle] with nothing in between.  The steps are kept apart all the
    same, and the properties below do not depend on their being adjacent
    where they do not say so. *)
Definition finally (s : State) : State :=
  mkState (cache s) None (promises s) (exchanges s).

(** What the caller that got [r] has received in state [s]: the token at
    once, or whatever its promise has settled with ([None] while pending). *)
Definition received (r : CallResult) (s : State) : option Outcome :=
  match r with
  | FromCache t => Some (inl t)
  | Joined p | Started p =>
      match nth_error (promises s) p with
      | Some (Settled o) => Some o
      | _ => None
      end
  end.

(** [N] calls one after the other with no suspended work resumed in
    between: the calls of [Promise.all([...])]. *)
Fixpoint calls (times : list Js.number) (s : State) : list CallResult * State :=
  match times with
  | [] => ([], s)
  | now :: rest =>
      let '(r, s1) := getAccessToken now s in
      let '(rs, s2) := calls rest s1 in
      (r :: rs, s2)
  end.

End Auth.

(* ================================================================== *)
(** * src/domain/models.ts                                              *)
(* ================================================================== *)

Module Domain.

Record Address : Type := mkAddress {
  name : option string;
  addressLines : list string;
  city : string;
  stateProvinceCode : option string;
  postalCode : string;
  countryCode : string;
  residential : option bool
}.

Inductive WeightUnit : Type := LB | KG | OZ.
Inductive DimensionUnit : Type := IN | CM.

Record Dimensions : Type := mkDimensions {
  length : Js.number;
  width : Js.number;
  height : Js.number;
  d_unit : DimensionUnit
}.

Record PackageWeight : Type := mkWeight {
  value : Js.number;
  unit : WeightUnit
}.

Record Package : Type := mkPackage {
  weight : PackageWeight;
  dimensions : option Dimensions
}.

Record RateRequest : Type := mkRateRequest {
  origin : Address;
  destination : Address;
  packages : list Package;
  serviceCode : option string;
  shipperAccountNumber : option string
}.

Record MonetaryAmount : Type := mkMoney {
  currency : string;
  amount : Js.number
}.

(** [billingWeight.unit] is declared a [WeightUnit]; at run time it holds
    whatever the unit table lookup produced. *)
Record BillingWeight : Type := mkBillingWeight {
  bw_value : Js.number;
  bw_unit : Js.member WeightUnit
}.

Record RateQuote : Type := mkQuote {
  carrier : string;
  q_serviceCode : string;
  serviceName : Js.member string;
  totalCharges : MonetaryAmount;
  transportationCharges : MonetaryAmount;
  serviceOptionsCharges : option MonetaryAmount;
  billingWeight : option BillingWeight;
  guaranteedDelivery : option bool;
  estimatedDeliveryDays : option Js.number;
  warnings : option (list string)
}.

Record RateResponse : Type := mkRateResponse {
  quotes : list RateQuote
}.

End Domain.

(* ================================================================== *)
(** * src/carriers/ups/types.ts and src/carriers/ups/mapper.ts          *)
(* ================================================================== *)

Module Ups.

(** ** Wire types of the request *)

Record UpsAddress : Type := mkUpsAddress {
  AddressLine : list string;
  City : option string;
  StateProvinceCode : option string;
  PostalCode : option string;
  CountryCode : string
}.

Record UpsShipToAddress : Type := mkUpsShipToAddress {
  st_base : UpsAddress;
  ResidentialAddressIndicator : option string
}.

Record UnitOfMeasurement : Type := mkUom {
  Code : string;
  Description : option string
}.

Record UpsDimensions : Type := mkUpsDimensions {
  dim_UnitOfMeasurement : UnitOfMeasurement;
  Length : Js.numeral;
  Width : Js.numeral;
  Height : Js.numeral
}.

Record UpsPackageWeight : Type := mkUpsPackageWeight {
  pw_UnitOfMeasurement : UnitOfMeasurement;
  pw_Weight : Js.numeral
}.

Record UpsPackage : Type := mkUpsPackage {
  PackagingType : UnitOfMeasurement;   (* { Code; Description? } *)
  Dimensions : option UpsDimensions;
  PackageWeight : UpsPackageWeight
}.

(** [Service: { Code, Description }] of the request; the description is
    the result of a table lookup. *)
Record UpsRequestService : Type := mkUpsRequestService {
  rs_Code : string;
  rs_Description : option (Js.member string)
}.

Record UpsShipper : Type := mkUpsShipper {
  sh_Name : option string;
  ShipperNumber : option string;
  sh_Address : UpsAddress
}.

Record UpsShipTo : Type := mkUpsShipTo {
  to_Name : option string;
  to_Address : UpsShipToAddress
}.

Record UpsShipFrom : Type := mkUpsShipFrom {
  from_Name : option string;
  from_Address : UpsAddress
}.

Record BillShipper : Type := mkBillShipper { AccountNumber : string }.

Record ShipmentCharge : Type := mkShipmentCharge {
  sc_Type : string;
  sc_BillShipper : option BillShipper
}.

Record PaymentDetailsT : Type := mkPaymentDetails {
  ShipmentChargeList : list ShipmentCharge
}.

(** [Package: UpsPackage | UpsPackage[]] *)
Inductive PackageField : Type :=
| OnePackage (p : UpsPackage)
| PackageArray (ps : list UpsPackage).

Record UpsShipment : Type := mkUpsShipment {
  Shipper : UpsShipper;
  ShipTo : UpsShipTo;
  ShipFrom : UpsShipFrom;
  Service : option UpsRequestService;
  Package : PackageField;
  PaymentDetails : option PaymentDetailsT;
  NumOfPieces : option string
}.

Record UpsRateRequest : Type := mkUpsRateRequest {
  CustomerContext : string;   (* Request.TransactionReference.CustomerContext *)
  Shipment : UpsShipment
}.

Record UpsRateRequestWrapper : Type := mkWrapper {
  RateRequest : UpsRateRequest
}.

(** ** Wire types of the response (the fields the mapper reads) *)

Record UpsCharge : Type := mkUpsCharge {
  CurrencyCode : string;
  MonetaryValue : string
}.

Record UpsAlert : Type := mkUpsAlert {
  al_Code : string;
  al_Description : string
}.

Record UpsBillingWeight : Type := mkUpsBillingWeight {
  bw_UnitOfMeasurement : UnitOfMeasurement;
  bw_Weight : string
}.

Record UpsGuaranteedDelivery : Type := mkUpsGuaranteed {
  gd_BusinessDaysInTransit : option string;
  DeliveryByTime : option string
}.

Record UpsEstimatedArrival : Type := mkUpsEstimatedArrival {
  ea_BusinessDaysInTransit : option string
}.

Record UpsServiceSummary : Type := mkUpsServiceSummary {
  EstimatedArrival : option UpsEstimatedArrival
}.

Record UpsTimeInTransit : Type := mkUpsTimeInTransit {
  ServiceSummary : option UpsServiceSummary
}.

Record UpsRatedShipment : Type := mkRated {
  r_Service : UnitOfMeasurement;   (* UpsService: { Code; Description? } *)
  RatedShipmentAlert : option (list UpsAlert);
  BillingWeight : UpsBillingWeight;
  TransportationCharges : UpsCharge;
  ServiceOptionsCharges : option UpsCharge;
  TotalCharges : UpsCharge;
  GuaranteedDelivery : option UpsGuaranteedDelivery;
  TimeInTransit : option UpsTimeInTransit
}.

Definition UPS_SERVICE_CODES : list (string * string) :=
  [ ("01", "UPS Next Day Air");
    ("02", "UPS 2nd Day Air");
    ("03", "UPS Ground");
    ("07", "UPS Worldwide Express");
    ("08", "UPS Worldwide Expedited");
    ("11", "UPS Standard");
    ("12", "UPS 3 Day Select");
    ("13", "UPS Next Day Air Saver");
    ("14", "UPS Next Day Air Early");
    ("54", "UPS Worldwide Express Plus");
    ("59", "UPS 2nd Day Air A.M.");
    ("65", "UPS Worldwide Saver");
    ("71", "UPS Worldwide Express Freight Midday");
    ("72", "UPS Worldwide Economy DDP");
    ("75", "UPS Heavy Goods");
    ("96", "UPS Worldwide Express Freight") ].

(** ** Domain to UPS *)

(** The key is a [WeightUnit], so the lookup is always an own entry. *)
Definition WEIGHT_UNIT_TO_UPS (u : Domain.WeightUnit) : string :=
  match u with
  | Domain.LB => "LBS"
  | Domain.KG => "KGS"
  | Domain.OZ => "OZS"
  end.

Definition DIMENSION_UNIT_TO_UPS (u : Domain.DimensionUnit) : string :=
  match u with
  | Domain.IN => "IN"
  | Domain.CM => "CM"
  end.

Definition mapAddressToUps (addr : Domain.Address) : UpsAddress :=
  mkUpsAddress (Domain.addressLines addr) (Some (Domain.city addr))
    (Domain.stateProvinceCode addr) (Some (Domain.postalCode addr))
    (Domain.countryCode addr).

Definition mapAddressToUpsShipTo (addr : Domain.Address) : UpsShipToAddress :=
  mkUpsShipToAddress (mapAddressToUps addr)
    (match Domain.residential addr with
     | Some true => Some "Y"
     | _ => None
     end).

Definition mapDimensionsToUps (dim : Domain.Dimensions) : UpsDimensions :=
  mkUpsDimensions
    (mkUom (DIMENSION_UNIT_TO_UPS (Domain.d_unit dim))
           (Some (match Domain.d_unit dim with
                  | Domain.IN => "Inches"
                  | _ => "Centimeters"
                  end)))
    (Js.ToString (Domain.length dim))
    (Js.ToString (Domain.width dim))
    (Js.ToString (Domain.height dim)).

Definition mapWeightToUps (weight : Domain.PackageWeight) : UpsPackageWeight :=
  mkUpsPackageWeight
    (mkUom (WEIGHT_UNIT_TO_UPS (Domain.unit weight))
           (Some (match Domain.unit weight with
                  | Domain.LB => "Pounds"
                  | Domain.KG => "Kilograms"
                  | Domain.OZ => "Ounces"
                  end)))
    (Js.ToString (Domain.value weight)).

Definition mapPackageToUps (pkg : Domain.Package) : UpsPackage :=
  mkUpsPackage
    (mkUom "02" (Some "Customer Supplied Package"))
    (option_map mapDimensionsToUps (Domain.dimensions pkg))
    (mapWeightToUps (Domain.weight pkg)).

(** [a ?? b] *)
Definition nullish_or (a : option string) (b : string) : string :=
  match a with Some s => s | None => b end.

Definition buildUpsRateRequest (request : Domain.RateRequest) : UpsRateRequestWrapper :=
  let packages := map mapPackageToUps (Domain.packages request) in
  mkWrapper (mkUpsRateRequest "carrier-integration-service"
    (mkUpsShipment
       (mkUpsShipper
          (Some (nullish_or (Domain.name (Domain.origin request)) "Shipper"))
          (Domain.shipperAccountNumber request)
          (mapAddressToUps (Domain.origin request)))
       (mkUpsShipTo
          (Some (nullish_or (Domain.name (Domain.destination request)) "Recipient"))
          (mapAddressToUpsShipTo (Domain.destination request)))
       (mkUpsShipFrom
          (Some (nullish_or (Domain.name (Domain.origin request)) "Shipper"))
          (mapAddressToUps (Domain.origin request)))
       (match Domain.serviceCode request with
        | Some sc =>
            if Js.truthy_string sc
            then Some (mkUpsRequestService sc (Js.lookup UPS_SERVICE_CODES sc))
            else None
        | None => None
        end)
       (match packages with
        | [p] => OnePackage p                 (* packages.length === 1 *)
        | _ => PackageArray packages
        end)
       (match Domain.shipperAccountNumber request with
        | Some acct =>
            if Js.truthy_string acct
            then Some (mkPaymentDetails
                         [mkShipmentCharge "01" (Some (mkBillShipper acct))])
            else None
        | None => None
        end)
       (if (1 <? List.length packages)%nat
        then Some (Js.nat_toString (List.length packages))
        else None))).

(** ** UPS to domain *)

Definition UPS_WEIGHT_UNIT_TO_DOMAIN : list (string * Domain.WeightUnit) :=
  [ ("LBS", Domain.LB); ("KGS", Domain.KG); ("OZS", Domain.OZ) ].

Definition parseCharge (charge : UpsCharge) : Domain.MonetaryAmount :=
  Domain.mkMoney (CurrencyCode charge) (Js.parseFloat (MonetaryValue charge)).

Definition unknown_unit_error (unit_code : string) : CarrierError :=
  newCarrierError PARSE_ERROR ("Unknown UPS weight unit: " ++ unit_code)
    (mkPartial (Some "UPS") None None None None).

Definition estimatedDeliveryDays_of (rated : UpsRatedShipment) : option Js.number :=
  let direct :=
    match GuaranteedDelivery rated with
    | Some gd => gd_BusinessDaysInTransit gd
    | None => None
    end in
  if Js.truthy_ostring direct then Some (Js.parseInt_opt direct)
  else
    let summary :=
      match TimeInTransit rated with
      | Some t =>
          match ServiceSummary t with
          | Some ss =>
              match EstimatedArrival ss with
              | Some ea => ea_BusinessDaysInTransit ea
              | None => None
              end
          | None => None
          end
      | None => None
      end in
    if Js.truthy_ostring summary then Some (Js.parseInt_opt summary) else None.

Definition serviceName_of (rated : UpsRatedShipment) : Js.member string :=
  let serviceCode := Code (r_Service rated) in
  if Js.truthy_ostring (Description (r_Service rated)) then
    Js.Value (match Description (r_Service rated) with Some d => d | None => "" end)
  else
    match Js.lookup UPS_SERVICE_CODES serviceCode with
    | Some (Js.Value n) =>
        if Js.truthy_string n then Js.Value n
        else Js.Value ("UPS Service " ++ serviceCode)%string
    | Some (Js.Builtin k) => Js.Builtin k
    | None => Js.Value ("UPS Service " ++ serviceCode)%string
    end.

(** A thrown [CarrierError] is the [inl] result. *)
Definition mapUpsRatedShipmentToQuote (rated : UpsRatedShipment)
  : CarrierError + Domain.RateQuote :=
  let serviceCode := Code (r_Service rated) in
  let serviceName := serviceName_of rated in
  match Js.lookup UPS_WEIGHT_UNIT_TO_DOMAIN
          (Code (bw_UnitOfMeasurement (BillingWeight rated))) with
  | None =>
      inl (unknown_unit_error (Code (bw_UnitOfMeasurement (BillingWeight rated))))
  | Some billingWeightUnit =>
      let warnings := option_map (map al_Description) (RatedShipmentAlert rated) in
      let estimatedDeliveryDays := estimatedDeliveryDays_of rated in
      inr (Domain.mkQuote
             "UPS"
             serviceCode
             serviceName
             (parseCharge (TotalCharges rated))
             (parseCharge (TransportationCharges rated))
             (option_map parseCharge (ServiceOptionsCharges rated))
             (Some (Domain.mkBillingWeight
                      (Js.parseFloat (bw_Weight (BillingWeight rated)))
                      billingWeightUnit))
             (Some (match GuaranteedDelivery rated with
                    | Some _ => true
                    | None => false
                    end))
             estimatedDeliveryDays
             warnings)
  end.

End Ups.

(* ================================================================== *)
(** * src/carriers/ups/rating.ts                                        *)
(* ================================================================== *)

Module Rating.
Import Http.

(** [response.data] of the rating call, at the shapes [parseResponse]
    tells apart: a missing [RateResponse] envelope ([data] itself may be
    nullish or no object at all), a [RatedShipment] that is missing or no
    array, or the list of rated shipments. *)
Record UpsRateResponse : Type := mkUpsRateResponse {
  RatedShipment : option (list Ups.UpsRatedShipment)
}.

Record UpsRateResponseWrapper : Type := mkResponseWrapper {
  RateResponse : option UpsRateResponse
}.

Definition RateData : Type := option UpsRateResponseWrapper.

Record PostRequest : Type := mkPost {
  url : string;
  body : Ups.UpsRateRequestWrapper;
  headers : list (string * string)
}.

(** An asynchronous computation of the rating operation: a tree of the
    interactions it has with its collaborators (the injected authenticator,
    the random source, axios), ending in a value or a thrown exception. *)
Inductive Prog (A : Type) : Type :=
| Ret (a : A)
| Throw (e : Exn)
| GetAccessToken (k : string + Exn -> Prog A)   (* await this.auth.getAccessToken() *)
| InvalidateToken (k : Prog A)                  (* this.auth.invalidateToken() *)
| RandomUUID (k : string -> Prog A)             (* crypto.randomUUID() *)
| AxiosPost (req : PostRequest) (k : AxiosResult RateData -> Prog A).
Arguments Ret {A} a.
Arguments Throw {A} e.
Arguments GetAccessToken {A} k.
Arguments InvalidateToken {A} k.
Arguments RandomUUID {A} k.
Arguments AxiosPost {A} req k.

Fixpoint bind {A B} (m : Prog A) (f : A -> Prog B) : Prog B :=
  match m with
  | Ret a => f a
  | Throw e => Throw e
  | GetAccessToken k => GetAccessToken (fun r => bind (k r) f)
  | InvalidateToken k => InvalidateToken (bind k f)
  | RandomUUID k => RandomUUID (fun u => bind (k u) f)
  | AxiosPost req k => AxiosPost req (fun r => bind (k r) f)
  end.

(** [try { m } catch (error) { h error }] *)
Fixpoint try_catch {A} (m : Prog A) (h : Exn -> Prog A) : Prog A :=
  match m with
  | Ret a => Ret a
  | Throw e => h e
  | GetAccessToken k => GetAccessToken (fun r => try_catch (k r) h)
  | InvalidateToken k => InvalidateToken (try_catch k h)
  | RandomUUID k => RandomUUID (fun u => try_catch (k u) h)
  | AxiosPost req k => AxiosPost req (fun r => try_catch (k r) h)
  end.

Definition of_result {A} (r : A + Exn) : Prog A :=
  match r with
  | inl a => Ret a
  | inr e => Throw e
  end.

(** [await this.auth.getAccessToken()] *)
Definition await_getAccessToken : Prog string :=
  GetAccessToken of_result.

(** [await this.httpClient.post(url, data, config)] *)
Definition httpClient_post (req : PostRequest) : Prog (HttpResponse RateData) :=
  AxiosPost req (fun o => of_result (post_result o)).

Definition API_VERSION : string := "v2409".

Definition parse_error (msg : string) : CarrierError :=
  newCarrierError PARSE_ERROR msg (mkPartial (Some "UPS") None None None None).

(** [ratedShipments.map(mapUpsRatedShipmentToQuote)]: the first record
    that throws ends the mapping. *)
Fixpoint map_quotes (l : list Ups.UpsRatedShipment)
  : CarrierError + list Domain.RateQuote :=
  match l with
  | [] => inr []
  | r :: rest =>
      match Ups.mapUpsRatedShipmentToQuote r with
      | inl e => inl e
      | inr q =>
          match map_quotes rest with
          | inl e => inl e
          | inr qs => inr (q :: qs)
          end
      end
  end.

Definition parseResponse (data : RateData) : CarrierError + Domain.RateResponse :=
  match data with
  | None => inl (parse_error "UPS response missing RateResponse envelope")
  | Some data =>
      match RateResponse data with
      | None => inl (parse_error "UPS response missing RateResponse envelope")
      | Some rateResponse =>
          match RatedShipment rateResponse with
          | None =>
              inl (parse_error "UPS response missing or invalid RatedShipment array")
          | Some ratedShipments =>
              match map_quotes ratedShipments with
              | inl e => inl e
              | inr quotes => inr (Domain.mkRateResponse quotes)
              end
          end
      end
  end.

Definition requestOption (request : Domain.RateRequest) : string :=
  if Js.truthy_ostring (Domain.serviceCode request) then "Rate" else "Shop".

(** The arguments of [this.httpClient.post(url, upsRequest, { headers })]. *)
Definition rating_call (request : Domain.RateRequest) (token uuid : string)
  : PostRequest :=
  let upsRequest := Ups.buildUpsRateRequest request in
  let url := ("/rating/" ++ API_VERSION ++ "/" ++ requestOption request)%string in
  mkPost url upsRequest
    [ ("Authorization", ("Bearer " ++ token)%string);
      ("Content-Type", "application/json");
      ("transId", uuid);
      ("transactionSrc", "carrier-integration-service") ].

(** The [catch] block around the token acquisition. *)
Definition on_token_failure {A} (error : Exn) : Prog A :=
  match error with
  | ExnCarrierError _ => Throw error
  | _ =>
      Throw (ExnCarrierError
        (newCarrierError AUTHENTICATION_ERROR
           "Failed to obtain UPS access token"
           (mkPartial (Some "UPS") None None None (Some true))))
  end.

(** The [catch] block around the rating call. *)
Definition on_send_failure {A} (error : Exn) : Prog A :=
  match error with
  | ExnCarrierError e =>
      (* On auth failure, invalidate token and re-throw *)
      let rethrow := Throw (ExnCarrierError (set_carrier "UPS" e)) in
      if CarrierErrorCode_eqb (code e) AUTHENTICATION_ERROR
      then InvalidateToken rethrow
      else rethrow
  | _ =>
      Throw (ExnCarrierError
        (newCarrierError UNKNOWN_ERROR
           ("UPS rating request failed: " ++ error_message_or "unknown" error)
           (mkPartial (Some "UPS") None None None (Some false))))
  end.

Definition execute (request : Domain.RateRequest) : Prog Domain.RateResponse :=
  bind (try_catch await_getAccessToken on_token_failure)
    (fun token =>
  bind (try_catch
          (RandomUUID (fun uuid =>
             httpClient_post (rating_call request token uuid)))
          on_send_failure)
    (fun response =>
       match parseResponse (r_data response) with
       | inl e => Throw (ExnCarrierError e)
       | inr r => Ret r
       end)).

(** The interactions of a computation, in order, when its collaborators
    answer as the oracles say. *)
Inductive Event : Type :=
| EvGetAccessToken
| EvInvalidateToken
| EvRandomUUID
| EvPost (req : PostRequest).

Fixpoint run {A} (token : string + Exn) (uuid : string)
             (net : PostRequest -> AxiosResult RateData) (m : Prog A)
  : list Event * (A + Exn) :=
  match m with
  | Ret a => ([], inl a)
  | Throw e => ([], inr e)
  | GetAccessToken k =>
      let '(t, r) := run token uuid net (k token) in (EvGetAccessToken :: t, r)
  | InvalidateToken k =>
      let '(t, r) := run token uuid net k in (EvInvalidateToken :: t, r)
  | RandomUUID k =>
      let '(t, r) := run token uuid net (k uuid) in (EvRandomUUID :: t, r)
  | AxiosPost req k =>
      let '(t, r) := run token uuid net (k (net req)) in (EvPost req :: t, r)
  end.

End Rating.

(* ================================================================== *)
(** * src/validation/schemas.ts                                         *)
(* ================================================================== *)

Module Validation.

Inductive PathSeg : Type :=
| Key (k : string)
| Idx (i : nat).

Record ZodIssue : Type := mkIssue {
  path : list PathSeg;
  issue_message : string   (* [issue.message] *)
}.

(** The checks of the schemas that carry no message of their own; zod
    words them itself. *)
Inductive ZodDefault : Type :=
| TooSmallString (minimum : nat)
| TooBigString (maximum : nat)
| TooBigArray (maximum : nat)
| InvalidNumber (received : Js.number).

Section Zod.

(** The library's wording of its default messages, and whether its
    number type admits the infinities (both depend on the zod release;
    NaN is refused by every release). *)
Variable zod_message : ZodDefault -> string.
Variable zod_allows_infinity : bool.

Definition number_type_ok (v : Js.number) : bool :=
  match v with
  | Js.NaN => false
  | Js.Finite _ => true
  | Js.NegInfinity | Js.PosInfinity => zod_allows_infinity
  end.

(** [z.string().min(lo).max(hi)] *)
Definition string_min_max (p : list PathSeg) (lo hi : nat) (s : string)
  : list ZodIssue :=
  (if (String.length s <? lo)%nat
   then [mkIssue p (zod_message (TooSmallString lo))] else [])
  ++
  (if (hi <? String.length s)%nat
   then [mkIssue p (zod_message (TooBigString hi))] else []).

(** [z.string().length(n, msg)] *)
Definition string_length (p : list PathSeg) (n : nat) (msg : string) (s : string)
  : list ZodIssue :=
  if (String.length s =? n)%nat then [] else [mkIssue p msg].

(** [z.number().positive(msg)] *)
Definition number_positive (p : list PathSeg) (msg : string) (v : Js.number)
  : list ZodIssue :=
  if negb (number_type_ok v) then [mkIssue p (zod_message (InvalidNumber v))]
  else if Js.gt v (Js.of_Z 0) then [] else [mkIssue p msg].

(** [schema.optional()] *)
Definition optional {A} (check : A -> list ZodIssue) (v : option A) : list ZodIssue :=
  match v with
  | Some a => check a
  | None => []
  end.

(** The elements of an array, each under its index. *)
Fixpoint elements {A} (check : nat -> A -> list ZodIssue) (i : nat) (l : list A)
  : list ZodIssue :=
  match l with
  | [] => []
  | a :: rest => check i a ++ elements check (S i) rest
  end.

Definition AddressSchema (p : list PathSeg) (a : Domain.Address) : list ZodIssue :=
  optional (string_min_max (p ++ [Key "name"]) 1 35) (Domain.name a)
  ++ ((if (List.length (Domain.addressLines a) <? 1)%nat
       then [mkIssue (p ++ [Key "addressLines"])
                     "At least one address line is required"] else [])
      ++ (if (3 <? List.length (Domain.addressLines a))%nat
          then [mkIssue (p ++ [Key "addressLines"]) (zod_message (TooBigArray 3))]
          else [])
      ++ elements (fun i => string_min_max (p ++ [Key "addressLines"; Idx i]) 1 35)
           0 (Domain.addressLines a))
  ++ string_min_max (p ++ [Key "city"]) 1 30 (Domain.city a)
  ++ optional (string_length (p ++ [Key "stateProvinceCode"]) 2
                 "State/province code must be exactly 2 characters")
       (Domain.stateProvinceCode a)
  ++ string_min_max (p ++ [Key "postalCode"]) 1 9 (Domain.postalCode a)
  ++ string_length (p ++ [Key "countryCode"]) 2
       "Country code must be exactly 2 characters" (Domain.countryCode a).

Definition DimensionsSchema (p : list PathSeg) (d : Domain.Dimensions) : list ZodIssue :=
  number_positive (p ++ [Key "length"]) "Length must be positive" (Domain.length d)
  ++ number_positive (p ++ [Key "width"]) "Width must be positive" (Domain.width d)
  ++ number_positive (p ++ [Key "height"]) "Height must be positive" (Domain.height d).

Definition PackageWeightSchema (p : list PathSeg) (w : Domain.PackageWeight)
  : list ZodIssue :=
  number_positive (p ++ [Key "value"]) "Weight must be positive" (Domain.value w).

Definition PackageSchema (p : list PathSeg) (pkg : Domain.Package) : list ZodIssue :=
  PackageWeightSchema (p ++ [Key "weight"]) (Domain.weight pkg)
  ++ optional (DimensionsSchema (p ++ [Key "dimensions"])) (Domain.dimensions pkg).

(** The issues [RateRequestSchema.safeParse(request)] reports;
    [success] is their absence. *)
Definition RateRequestSchema (r : Domain.RateRequest) : list ZodIssue :=
  AddressSchema [Key "origin"] (Domain.origin r)
  ++ AddressSchema [Key "destination"] (Domain.destination r)
  ++ ((if (List.length (Domain.packages r) <? 1)%nat
       then [mkIssue [Key "packages"] "At least one package is required"] else [])
      ++ (if (200 <? List.length (Domain.packages r))%nat
          then [mkIssue [Key "packages"] (zod_message (TooBigArray 200))] else [])
      ++ elements (fun i => PackageSchema [Key "packages"; Idx i])
           0 (Domain.packages r))
  ++ optional (string_min_max [Key "shipperAccountNumber"] 6 6)
       (Domain.shipperAccountNumber r).

End Zod.

End Validation.

(* ================================================================== *)
(** * src/carriers/ups/client.ts                                        *)
(* ================================================================== *)

Module Client.
Import Validation.

(** [array.join(sep)] on strings *)
Fixpoint join (sep : string) (l : list string) : string :=
  match l with
  | [] => ""
  | [x] => x
  | x :: rest => (x ++ sep ++ join sep rest)%string
  end.

Definition seg_toString (s : PathSeg) : string :=
  match s with
  | Key k => k
  | Idx i => Js.nat_toString i
  end.

Definition format_issue (issue : ZodIssue) : string :=
  (join "." (map seg_toString (path issue)) ++ ": " ++ issue_message issue)%string.

Definition formatZodError (issues : list ZodIssue) : string :=
  join "; " (map format_issue issues).

(** [hay.includes(needle)] *)
Definition contains (needle hay : string) : Prop :=
  exists pre post, hay = (pre ++ needle ++ post)%string.

Definition validation_error (issues : list ZodIssue) : CarrierError :=
  newCarrierError VALIDATION_ERROR
    ("Invalid rate request: " ++ formatZodError issues)
    (mkPartial (Some "UPS") None None None (Some false)).

(** The constructor of [UpsCarrierClient] hands a [UpsAuthenticator] to the
    rating operation.  A computation of the operation then runs on that
    authenticator: [getAccessToken] is the token manager's (when it has to
    wait for a credential exchange, the exchange settles with [oauth] and the
    call that started it runs its [finally] block), [invalidateToken] clears
    its cache.  The clock reads [now] throughout; [None] is a wait that
    never ends. *)
Fixpoint run_on_authenticator {A} (now : Js.number)
    (oauth : Http.AxiosResult Auth.TokenData) (uuid : string)
    (net : Rating.PostRequest -> Http.AxiosResult Rating.RateData)
    (m : Rating.Prog A) (s : Auth.State) : option ((A + Http.Exn) * Auth.State) :=
  match m with
  | Rating.Ret a => Some (inl a, s)
  | Rating.Throw e => Some (inr e, s)
  | Rating.GetAccessToken k =>
      let '(r, s1) := Auth.getAccessToken now s in
      let s2 := match r with
                | Auth.FromCache _ => s1
                | _ => Auth.finally (Auth.settle now oauth s1)
                end in
      match Auth.received r s2 with
      | Some (inl token) => run_on_authenticator now oauth uuid net (k (inl token)) s2
      | Some (inr e) =>
          run_on_authenticator now oauth uuid net (k (inr (Http.ExnCarrierError e))) s2
      | None => None
      end
  | Rating.InvalidateToken k =>
      run_on_authenticator now oauth uuid net k (Auth.invalidateToken s)
  | Rating.RandomUUID k => run_on_authenticator now oauth uuid net (k uuid) s
  | Rating.AxiosPost req k => run_on_authenticator now oauth uuid net (k (net req)) s
  end.

Section Zod.
Variable zod_message : ZodDefault -> string.
Variable zod_allows_infinity : bool.

Definition getRates (request : Domain.RateRequest)
  : Rating.Prog Domain.RateResponse :=
  match RateRequestSchema zod_message zod_allows_infinity request with
  | [] => Rating.execute request
  | issues => Rating.Throw (Http.ExnCarrierError (validation_error issues))
  end.

(** [getRates] refuses the request at once, without any interaction (the
    authenticator is left as it was), with a validation error that is not
    retryable and whose message has [fragment] in it. *)
Definition rejects (request : Domain.RateRequest) (fragment : string) : Prop :=
  exists issues,
    getRates request = Rating.Throw (Http.ExnCarrierError (validation_error issues))
    /\ (forall token uuid net,
          Rating.run token uuid net (getRates request)
          = ([], inr (Http.ExnCarrierError (validation_error issues))))
    /\ (forall now oauth uuid net s,
          run_on_authenticator now oauth uuid net (getRates request) s
          = Some (inr (Http.ExnCarrierError (validation_error issues)), s))
    /\ code (validation_error issues) = VALIDATION_ERROR
    /\ retryable (details (validation_error issues)) = false
    /\ contains fragment (message (validation_error issues)).

End Zod.

End Client.

(* ================================================================== *)
(** * src/services/shipping-service.ts                                  *)
(* ================================================================== *)

Module Service.
Import Http.

Record ErrorEntry : Type := mkEntry {
  e_carrier : string;
  e_error : CarrierError
}.

Record ShippingRateResult : Type := mkResult {
  quotes : list Domain.RateQuote;
  errors : list ErrorEntry
}.

(** A registered client, as [shopRates] sees it: its name and what its
    [getRates(request)] settles with. *)
Record Carrier : Type := mkCarrier {
  c_name : string;
  c_getRates : Domain.RateResponse + Exn
}.

(** [(a, b) => a.totalCharges.amount - b.totalCharges.amount] *)
Definition compareFn (a b : Domain.RateQuote) : Js.number :=
  Js.sub (Domain.amount (Domain.totalCharges a))
         (Domain.amount (Domain.totalCharges b)).

(** ** [Array.prototype.sort(comparefn)]

    ECMAScript asks for a stable sort and fixes the result whenever the
    comparator is consistent; the stable insertion sort is that result.
    (For a comparator that is not consistent, as with a NaN amount among
    three or more quotes, the order is left to the engine and may differ
    from the one computed here; only the elements are then the same.)  A
    comparator result of NaN counts as [+0]. *)
Section Sort.
Context {A : Type}.
Variable comparefn : A -> A -> Js.number.

Definition sortCompare (x y : A) : Js.number :=
  let v := comparefn x y in
  if Js.isNaN v then Js.of_Z 0 else v.

Fixpoint insert (x : A) (l : list A) : list A :=
  match l with
  | [] => [x]
  | y :: rest =>
      if Js.gt (sortCompare x y) (Js.of_Z 0) then y :: insert x rest
      else x :: l
  end.

Fixpoint sort (l : list A) : list A :=
  match l with
  | [] => []
  | x :: rest => insert x (sort rest)
  end.
End Sort.

(** The loop over the settled results: [quotes.push(...)] and
    [errors.push(...)].  A rejection that is no [Error] is taken to have no
    [message] property, so that [reason?.message ?? "Unknown error"] is the
    fallback for it. *)
Fixpoint collect (results : list Carrier)
  : list Domain.RateQuote * list ErrorEntry :=
  match results with
  | [] => ([], [])
  | c :: rest =>
      let '(qs, es) := collect rest in
      match c_getRates c with
      | inl response => (Domain.quotes response ++ qs, es)
      | inr reason =>
          let error :=
            match reason with
            | ExnCarrierError e => e
            | _ => newCarrierError UNKNOWN_ERROR
                     (error_message_or "Unknown error" reason) no_details
            end in
          (qs, mkEntry (Ups.nullish_or (carrier (details error)) "UNKNOWN") error
               :: es)
      end
  end.

(** *** What the properties of [shopRates] are stated with *)

Definition amount_of (q : Domain.RateQuote) : Js.number :=
  Domain.amount (Domain.totalCharges q).

(** Every adjacent pair of quotes is in order:
    [quotes[i].totalCharges.amount <= quotes[i+1].totalCharges.amount]. *)
Definition ascending (l : list Domain.RateQuote) : Prop :=
  forall i a b,
    nth_error l i = Some a -> nth_error l (S i) = Some b ->
    Js.le (amount_of a) (amount_of b) = true.

(** The total of the quote is a number (not NaN). *)
Definition finite_amount (q : Domain.RateQuote) : Prop :=
  Js.isNaN (amount_of q) = false.

Definition le_amount (a b : Domain.RateQuote) : Prop :=
  Js.le (amount_of a) (amount_of b) = true.

(** The quotes of the carriers that succeeded, in fan-out order. *)
Definition fanout_quotes (carriers : list Carrier) : list Domain.RateQuote :=
  flat_map (fun c => match c_getRates c with
                     | inl response => Domain.quotes response
                     | inr _ => []
                     end) carriers.

(** What the carriers that failed were rejected with, in fan-out order. *)
Definition failures (carriers : list Carrier) : list Exn :=
  flat_map (fun c => match c_getRates c with
                     | inl _ => []
                     | inr reason => [reason]
                     end) carriers.

(** [entry] is the error entry of a carrier rejected with [reason]. *)
Definition entry_for (reason : Exn) (entry : ErrorEntry) : Prop :=
  (forall e, reason = ExnCarrierError e -> e_error entry = e)
  /\ ((forall e, reason <> ExnCarrierError e) ->
      code (e_error entry) = UNKNOWN_ERROR)
  /\ e_carrier entry = match carrier (details (e_error entry)) with
                       | Some c => c
                       | None => "UNKNOWN"
                       end.

Definition shopRates (carriers : list Carrier) : CarrierError + ShippingRateResult :=
  match carriers with
  | [] =>
      inl (newCarrierError CONFIGURATION_ERROR "No carriers registered"
             (mkPartial None None None None (Some false)))
  | _ =>
      let '(quotes, errors) := collect carriers in
      inr (mkResult (sort compareFn quotes) errors)
  end.

End Service.

(* ================================================================== *)
(** * Sample inputs (after tests/fixtures)                              *)
(* ================================================================== *)

Module Fixtures.
Import Http Auth.

(** Three calls issued together, as by [Promise.all]. *)
Definition burst_times : list Js.number := [Js.of_Z 0; Js.of_Z 0; Js.of_Z 1].

(** VALID_OAUTH_TOKEN_RESPONSE *)
Definition valid_token_answer : AxiosResult TokenData :=
  AxiosOk 200 (Some (mkOAuth (Some "eyJhbGciOiJSUzM4NCIsInR5cCI6IkpXVCJ9.test-token")
                             (Some "14399"))).

(** EXPIRED_OAUTH_TOKEN_RESPONSE: a token that lives one second. *)
Definition short_lived_token_answer : AxiosResult TokenData :=
  AxiosOk 200 (Some (mkOAuth (Some "expired-token") (Some "1"))).

(** [replyWithError("Connection refused")]: axios fails without a response. *)
Definition connection_refused : AxiosResult TokenData :=
  AxiosFail (ExnAxiosError (mkAxiosError None "Connection refused" None)).


(** The [baseRequest] of tests/integration/mapper.test.ts. *)
Definition sender : Domain.Address :=
  Domain.mkAddress (Some "Sender Co.") ["100 Main St"; "Suite 200"] "Baltimore"
    (Some "MD") "21201" "US" None.

Definition receiver : Domain.Address :=
  Domain.mkAddress (Some "Receiver Inc.") ["500 Oak Ave"] "Atlanta"
    (Some "GA") "30301" "US" (Some true).

Definition baseRequest : Domain.RateRequest :=
  Domain.mkRateRequest sender receiver
    [ Domain.mkPackage (Domain.mkWeight (Js.of_Z 10) Domain.LB)
        (Some (Domain.mkDimensions (Js.of_Z 12) (Js.of_Z 10) (Js.of_Z 8) Domain.IN)) ]
    None None.

(** [{ ...baseRequest, serviceCode: "" }] *)
Definition request_with_empty_service_code : Domain.RateRequest :=
  Domain.mkRateRequest sender receiver (Domain.packages baseRequest) (Some "") None.

(** [multiPkg] of the same test. *)
Definition multi_package_request : Domain.RateRequest :=
  Domain.mkRateRequest sender receiver
    [ Domain.mkPackage (Domain.mkWeight (Js.of_Z 1) Domain.LB) None;
      Domain.mkPackage (Domain.mkWeight (Js.of_Z 2) Domain.LB) None ]
    None None.

(** The [baseRatedShipment] of tests/integration/mapper.test.ts. *)
Definition baseRatedShipment : Ups.UpsRatedShipment :=
  Ups.mkRated
    (Ups.mkUom "03" (Some "UPS Ground"))
    None
    (Ups.mkUpsBillingWeight (Ups.mkUom "LBS" (Some "Pounds")) "5.0")
    (Ups.mkUpsCharge "USD" "11.30")
    (Some (Ups.mkUpsCharge "USD" "2.50"))
    (Ups.mkUpsCharge "USD" "13.80")
    None None.

(** The same record with a unit code that names an inherited member. *)
Definition rated_with_inherited_unit : Ups.UpsRatedShipment :=
  Ups.mkRated
    (Ups.mkUom "03" (Some "UPS Ground"))
    None
    (Ups.mkUpsBillingWeight (Ups.mkUom "constructor" None) "5.0")
    (Ups.mkUpsCharge "USD" "11.30")
    (Some (Ups.mkUpsCharge "USD" "2.50"))
    (Ups.mkUpsCharge "USD" "13.80")
    None None.

(** The same record with a total that is no number. *)
Definition rated_with_malformed_total : Ups.UpsRatedShipment :=
  Ups.mkRated
    (Ups.mkUom "03" (Some "UPS Ground"))
    None
    (Ups.mkUpsBillingWeight (Ups.mkUom "LBS" (Some "Pounds")) "5.0")
    (Ups.mkUpsCharge "USD" "11.30")
    (Some (Ups.mkUpsCharge "USD" "2.50"))
    (Ups.mkUpsCharge "USD" "N/A")
    None None.

(** [reply(401, ...)] from the rating endpoint. *)
Definition unauthorized_401 : AxiosError :=
  mkAxiosError (Some "ERR_BAD_REQUEST") "Request failed with status code 401"
    (Some (mkAxiosErrorResponse 401
       (Some (mkBody (Some (mkEnvelope (Some
          [ mkUpstreamError (Some "250003") (Some "Invalid Access License") ]))))))).

(** An authenticator that holds a token good for four hours. *)
Definition cached_state : State :=
  finally (settle (Js.of_Z 0) valid_token_answer
             (snd (getAccessToken (Js.of_Z 0) initial))).

(** INVALID_REQUEST_BAD_COUNTRY: the origin has a 3-character country code. *)
Definition request_with_bad_country : Domain.RateRequest :=
  Domain.mkRateRequest
    (Domain.mkAddress None ["100 Main Street"] "Timonium" (Some "MD") "21093"
       "USA" None)
    (Domain.mkAddress None ["200 Elm Street"] "Alpharetta" (Some "GA") "30005"
       "US" None)
    [ Domain.mkPackage (Domain.mkWeight (Js.of_Z 5) Domain.LB) None ]
    None None.

(** INVALID_REQUEST_NEGATIVE_WEIGHT *)
Definition request_with_negative_weight : Domain.RateRequest :=
  Domain.mkRateRequest
    (Domain.mkAddress None ["100 Main Street"] "Timonium" (Some "MD") "21093"
       "US" None)
    (Domain.mkAddress None ["200 Elm Street"] "Alpharetta" (Some "GA") "30005"
       "US" None)
    [ Domain.mkPackage (Domain.mkWeight (Js.of_Z (-1)) Domain.LB) None ]
    None None.

Definition quote_of (rated : Ups.UpsRatedShipment) : list Domain.RateQuote :=
  match Ups.mapUpsRatedShipmentToQuote rated with
  | inr q => [q]
  | inl _ => []
  end.

Definition rated_with_total (total : string) : Ups.UpsRatedShipment :=
  Ups.mkRated
    (Ups.mkUom "03" (Some "UPS Ground"))
    None
    (Ups.mkUpsBillingWeight (Ups.mkUom "LBS" (Some "Pounds")) "5.0")
    (Ups.mkUpsCharge "USD" total)
    None
    (Ups.mkUpsCharge "USD" total)
    None None.

(** One carrier, whose answer has a quote with a total that is no number. *)
Definition registry_with_nan_quote : list Service.Carrier :=
  [ Service.mkCarrier "UPS"
      (inl (Domain.mkRateResponse
              (quote_of baseRatedShipment ++ quote_of rated_with_malformed_total))) ].

(** A healthy carrier and one that always fails. *)
Definition registry_with_failing_carrier : list Service.Carrier :=
  [ Service.mkCarrier "UPS"
      (inl (Domain.mkRateResponse
              (quote_of (rated_with_total "24.50") ++ quote_of baseRatedShipment
               ++ quote_of (rated_with_total "11.30"))));
    Service.mkCarrier "FEDEX"
      (inr (ExnCarrierError
              (newCarrierError NETWORK_ERROR "Network error: Connection refused"
                 (mkPartial (Some "FEDEX") None None None (Some true))))) ].

End Fixtures.

(* ================================================================== *)
(** * src/carriers/types.ts: the carrier registry                       *)
(* ================================================================== *)

Module Registry.

Section Clients.
(** A carrier client and its [name]. *)
Variable Client : Type.
Variable name : Client -> string.

(** [Map<CarrierName, CarrierClient>]: the entries in insertion order. *)
Definition t : Type := list (string * Client).

(** [new Map()] *)
Definition empty : t := [].

(** [map.set(k, v)]: an existing key keeps its place and takes the new
    value, a new key goes to the end. *)
Fixpoint map_set (k : string) (v : Client) (m : t) : t :=
  match m with
  | [] => [(k, v)]
  | (k', v') :: rest =>
      if String.eqb k' k then (k, v) :: rest else (k', v') :: map_set k v rest
  end.

Definition register (carrier : Client) (m : t) : t :=
  map_set (name carrier) carrier m.

Definition get (n : string) (m : t) : option Client := Js.assoc m n.

(** [Array.from(this.carriers.values())] *)
Definition getAll (m : t) : list Client := map snd m.

Definition has (n : string) (m : t) : bool :=
  match Js.assoc m n with
  | Some _ => true
  | None => false
  end.

(** A registry filled by registering the clients one after the other. *)
Definition registerAll (carriers : list Client) : t :=
  fold_left (fun m c => register c m) carriers empty.

(** Every key is the name of its client, and no key occurs twice. *)
Definition well_formed (m : t) : Prop :=
  NoDup (map fst m) /\ Forall (fun kv => fst kv = name (snd kv)) m.

End Clients.

Arguments empty {Client}.
Arguments map_set {Client} k v m.
Arguments register {Client} name carrier m.
Arguments get {Client} n m.
Arguments getAll {Client} m.
Arguments has {Client} n m.
Arguments registerAll {Client} name carriers.
Arguments well_formed {Client} name m.

End Registry.

(* ================================================================== *)
(** * src/services/shipping-service.ts on a registry                    *)
(* ================================================================== *)

Module ShippingService.
Import Http.

Definition registry : Type := Registry.t Service.Carrier.

Definition dquote : string := String (ascii_of_nat 34) EmptyString.

Definition not_registered (carrier : string) : CarrierError :=
  newCarrierError CONFIGURATION_ERROR
    ("Carrier " ++ dquote ++ carrier ++ dquote ++ " is not registered")
    (mkPartial (Some carrier) None None None (Some false)).

(** [getRates(carrier, request)]: the quotes, or what was thrown. *)
Definition getRates (reg : registry) (carrier : string)
  : list Domain.RateQuote + Exn :=
  match Registry.get carrier reg with
  | None => inr (ExnCarrierError (not_registered carrier))
  | Some client =>
      match Service.c_getRates client with
      | inl response => inl (Domain.quotes response)
      | inr reason => inr reason
      end
  end.

(** [shopRates(request)] with [carriers = this.registry.getAll()]. *)
Definition shopRates (reg : registry)
  : CarrierError + Service.ShippingRateResult :=
  Service.shopRates (Registry.getAll reg).

End ShippingService.

(* ================================================================== *)
(** * src/config/index.ts                                               *)
(* ================================================================== *)

Module Config.

Record UpsConfig : Type := mkUpsConfig {
  clientId : string;
  clientSecret : string;
  accountNumber : option string;
  baseUrl : string;
  oauthUrl : string
}.

Record AppConfig : Type := mkAppConfig {
  ups : UpsConfig;
  requestTimeoutMs : Js.number;
  logLevel : string
}.

(** [process.env]: a variable is a string or is not set. *)
Definition Env : Type := string -> option string.

Definition missing_variable (key : string) : CarrierError :=
  newCarrierError CONFIGURATION_ERROR
    ("Missing required environment variable: " ++ key) no_details.

Definition requireEnv (env : Env) (key : string) : CarrierError + string :=
  if Js.truthy_ostring (env key)
  then inr (match env key with Some v => v | None => "" end)
  else inl (missing_variable key).

(** The properties of the object literal are evaluated in the order they
    are written: the first [requireEnv] that throws ends the load. *)
Definition loadConfig (env : Env) : CarrierError + AppConfig :=
  match requireEnv env "UPS_CLIENT_ID" with
  | inl e => inl e
  | inr clientId =>
      match requireEnv env "UPS_CLIENT_SECRET" with
      | inl e => inl e
      | inr clientSecret =>
          inr (mkAppConfig
                 (mkUpsConfig clientId clientSecret
                    (env "UPS_ACCOUNT_NUMBER")
                    (Http.or_string (env "UPS_BASE_URL")
                       "https://onlinetools.ups.com/api")
                    (Http.or_string (env "UPS_OAUTH_URL")
                       "https://onlinetools.ups.com/security/v1/oauth/token"))
                 (Js.parseInt (Http.or_string (env "REQUEST_TIMEOUT_MS") "10000"))
                 (Http.or_string (env "LOG_LEVEL") "info"))
      end
  end.

(** [Partial<AppConfig>] *)
Record Overrides : Type := mkOverrides {
  o_ups : option UpsConfig;
  o_requestTimeoutMs : option Js.number;
  o_logLevel : option string
}.

Definition createConfig (overrides : Overrides) : AppConfig :=
  mkAppConfig
    (match o_ups overrides with
     | Some u => u
     | None =>
         mkUpsConfig "test-client-id" "test-client-secret" None
           "https://onlinetools.ups.com/api"
           "https://onlinetools.ups.com/security/v1/oauth/token"
     end)
    (match o_requestTimeoutMs overrides with
     | Some n => n
     | None => Js.of_Z 10000
     end)
    (match o_logLevel overrides with
     | Some l => l
     | None => "info"
     end).

End Config.

(* ================================================================== *)
(** * The token manager as a machine                                    *)
(* ================================================================== *)

Module AuthMachine.
Import Http Auth.

(** What can happen to an authenticator: a call of [getAccessToken], the
    credential exchange in flight settling, the [finally] block of the call
    that started it, a call of [invalidateToken]. *)
Inductive Event : Type :=
| Call (now : Js.number)
| Settle (now : Js.number) (o : AxiosResult TokenData)
| Finally
| Invalidate.

(** The [finally] block runs once the awaited promise has settled. *)
Definition finally_when_settled (s : State) : State :=
  match pendingRefresh s with
  | Some p =>
      match nth_error (promises s) p with
      | Some (Settled _) => finally s
      | _ => s
      end
  | None => s
  end.

Definition step (e : Event) (s : State) : State :=
  match e with
  | Call now => snd (getAccessToken now s)
  | Settle now o => settle now o s
  | Finally => finally_when_settled s
  | Invalidate => invalidateToken s
  end.

Fixpoint steps (es : list Event) (s : State) : State :=
  match es with
  | [] => s
  | e :: rest => steps rest (step e s)
  end.

(** The exchanges that have been started and have not settled. *)
Definition outstanding (s : State) : nat :=
  length (filter (fun p => match p with Pending => true | Settled _ => false end)
                 (promises s)).

(** What every state of the machine satisfies: each exchange started has
    its promise, and only the newest promise, the one [pendingRefresh]
    holds, can be unsettled. *)
Definition invariant (s : State) : Prop :=
  exchanges s = length (promises s)
  /\ match pendingRefresh s with
     | None => Forall (fun p => p <> Pending) (promises s)
     | Some p =>
         exists l x, promises s = l ++ [x] /\ p = length l
                     /\ Forall (fun p => p <> Pending) l
     end.

End AuthMachine.

(* ================================================================== *)
(** * Reading the wire request and the schema                           *)
(* ================================================================== *)

Module Wire.

(** The packages a [Package] field holds, whichever of its two shapes it
    has. *)
Definition packages_of (f : Ups.PackageField) : list Ups.UpsPackage :=
  match f with
  | Ups.OnePackage p => [p]
  | Ups.PackageArray ps => ps
  end.

(** [rated.GuaranteedDelivery?.BusinessDaysInTransit] *)
Definition guaranteed_days (rated : Ups.UpsRatedShipment) : option string :=
  match Ups.GuaranteedDelivery rated with
  | Some gd => Ups.gd_BusinessDaysInTransit gd
  | None => None
  end.

(** [rated.TimeInTransit?.ServiceSummary?.EstimatedArrival?.BusinessDaysInTransit] *)
Definition transit_days (rated : Ups.UpsRatedShipment) : option string :=
  match Ups.TimeInTransit rated with
  | Some t =>
      match Ups.ServiceSummary t with
      | Some ss =>
          match Ups.EstimatedArrival ss with
          | Some ea => Ups.ea_BusinessDaysInTransit ea
          | None => None
          end
      | None => None
      end
  | None => None
  end.

End Wire.

Module Constraints.
Import Validation.

(** The constraints of src/validation/schemas.ts, read as predicates. *)

Definition between (lo hi n : nat) : Prop := lo <= n /\ n <= hi.

Definition opt {A} (P : A -> Prop) (v : option A) : Prop :=
  match v with
  | Some a => P a
  | None => True
  end.

Definition valid_address (a : Domain.Address) : Prop :=
  opt (fun s => between 1 35 (String.length s)) (Domain.name a)
  /\ between 1 3 (List.length (Domain.addressLines a))
  /\ Forall (fun s => between 1 35 (String.length s)) (Domain.addressLines a)
  /\ between 1 30 (String.length (Domain.city a))
  /\ opt (fun s => String.length s = 2) (Domain.stateProvinceCode a)
  /\ between 1 9 (String.length (Domain.postalCode a))
  /\ String.length (Domain.countryCode a) = 2.

Section Zod.
Variable zod_allows_infinity : bool.

Definition positive_number (v : Js.number) : Prop :=
  number_type_ok zod_allows_infinity v = true /\ Js.gt v (Js.of_Z 0) = true.

Definition valid_dimensions (d : Domain.Dimensions) : Prop :=
  positive_number (Domain.length d)
  /\ positive_number (Domain.width d)
  /\ positive_number (Domain.height d).

Definition valid_package (p : Domain.Package) : Prop :=
  positive_number (Domain.value (Domain.weight p))
  /\ opt valid_dimensions (Domain.dimensions p).

Definition valid_request (r : Domain.RateRequest) : Prop :=
  valid_address (Domain.origin r)
  /\ valid_address (Domain.destination r)
  /\ between 1 200 (List.length (Domain.packages r))
  /\ Forall valid_package (Domain.packages r)
  /\ opt (fun s => String.length s = 6) (Domain.shipperAccountNumber r).

End Zod.

End Constraints.


(* ================================================================== *)
(** * More sample inputs                                                *)
(* ================================================================== *)

Module Fixtures2.
Import Http Auth.

Definition env_of (vars : list (string * string)) : Config.Env :=
  fun key => Js.assoc vars key.

Definition env_minimal : Config.Env :=
  env_of [("UPS_CLIENT_ID", "id-123"); ("UPS_CLIENT_SECRET", "s3cret")].

Definition env_without_secret : Config.Env :=
  env_of [("UPS_CLIENT_ID", "id-123"); ("UPS_CLIENT_SECRET", "")].

(** The credentials [createConfig] uses, and an empty LOG_LEVEL. *)
Definition env_of_tests : Config.Env :=
  env_of [("UPS_CLIENT_ID", "test-client-id");
          ("UPS_CLIENT_SECRET", "test-client-secret"); ("LOG_LEVEL", "")].

Definition env_with_bad_timeout : Config.Env :=
  env_of [("UPS_CLIENT_ID", "id-123"); ("UPS_CLIENT_SECRET", "s3cret");
          ("UPS_BASE_URL", ""); ("REQUEST_TIMEOUT_MS", "ten seconds")].

(** A rated shipment with a service code the table does not have, and no
    description. *)
Definition rated_with_unlisted_service : Ups.UpsRatedShipment :=
  Ups.mkRated
    (Ups.mkUom "99" None)
    None
    (Ups.mkUpsBillingWeight (Ups.mkUom "KGS" None) "2")
    (Ups.mkUpsCharge "EUR" "20.00")
    None
    (Ups.mkUpsCharge "EUR" "20.00")
    None None.

(** A guaranteed delivery whose number of days is no number, with a
    time-in-transit summary beside it. *)
Definition rated_guaranteed_without_number : Ups.UpsRatedShipment :=
  Ups.mkRated
    (Ups.mkUom "01" (Some "UPS Next Day Air"))
    None
    (Ups.mkUpsBillingWeight (Ups.mkUom "LBS" (Some "Pounds")) "5.0")
    (Ups.mkUpsCharge "USD" "45.00")
    None
    (Ups.mkUpsCharge "USD" "45.00")
    (Some (Ups.mkUpsGuaranteed (Some "soon") (Some "10:30 A.M.")))
    (Some (Ups.mkUpsTimeInTransit (Some (Ups.mkUpsServiceSummary
       (Some (Ups.mkUpsEstimatedArrival (Some "1"))))))).

(** A rated shipment whose billing weight is in stones. *)
Definition rated_with_unknown_unit : Ups.UpsRatedShipment :=
  Ups.mkRated
    (Ups.mkUom "03" (Some "UPS Ground"))
    None
    (Ups.mkUpsBillingWeight (Ups.mkUom "STN" None) "1")
    (Ups.mkUpsCharge "USD" "11.30")
    None
    (Ups.mkUpsCharge "USD" "11.30")
    None None.

End Fixtures2.

(* ================================================================== *)
(** * Properties                                                        *)
(* ================================================================== *)

Example parseFloat_11_30 : Js.parseFloat "11.30" = Js.Finite (1130 # 100).
Proof. reflexivity. Qed.
Example parseFloat_abc : Js.parseFloat "abc" = Js.NaN.
Proof. reflexivity. Qed.
Example parseFloat_12abc : Js.parseFloat "12abc" = Js.Finite (12 # 1).
Proof. reflexivity. Qed.
Example parseFloat_exp : Js.parseFloat " -1.5e2x" = Js.Finite (inject_Z (-150)).
Proof. reflexivity. Qed.
Example parseFloat_dot : Js.parseFloat "." = Js.NaN.
Proof. reflexivity. Qed.
Example parseInt_14399 : Js.parseInt "14399" = Js.of_Z 14399.
Proof. reflexivity. Qed.
Example nat_toString_200 : Js.nat_toString 200 = "200".
Proof. reflexivity. Qed.

(** The expectations of the repository's tests, replayed on the model. *)

Example test_map_charges_as_numbers :
  option_map (fun q => (Domain.totalCharges q, Domain.billingWeight q))
    (match Ups.mapUpsRatedShipmentToQuote Fixtures.baseRatedShipment with
     | inr q => Some q | inl _ => None end)
  = Some (Domain.mkMoney "USD" (Js.Finite (1380 # 100)),
          Some (Domain.mkBillingWeight (Js.Finite (50 # 10)) (Js.Value Domain.LB))).
Proof. reflexivity. Qed.

Example test_unknown_weight_unit_throws :
  option_map code
    (match Ups.mapUpsRatedShipmentToQuote
             (Ups.mkRated (Ups.mkUom "03" None) None
                (Ups.mkUpsBillingWeight (Ups.mkUom "XXX" (Some "Unknown")) "5.0")
                (Ups.mkUpsCharge "USD" "11.30") None
                (Ups.mkUpsCharge "USD" "13.80") None None) with
     | inl e => Some e | inr _ => None end)
  = Some PARSE_ERROR.
Proof. reflexivity. Qed.

Example test_429_is_retryable_rate_limit :
  let e := Http.translateError
             (Http.ExnAxiosError
                (Http.mkAxiosError (Some "ERR_BAD_REQUEST") "Request failed"
                   (Some (Http.mkAxiosErrorResponse 429 None)))) in
  (code e, retryable (details e)) = (RATE_LIMIT_ERROR, true).
Proof. reflexivity. Qed.

Example test_cache_and_reuse :
  fst (Auth.getAccessToken (Js.of_Z 1000) Fixtures.cached_state)
  = Auth.FromCache "eyJhbGciOiJSUzM4NCIsInR5cCI6IkpXVCJ9.test-token".
Proof. reflexivity. Qed.

Example test_shop_endpoint_without_service_code :
  Rating.url (Rating.rating_call Fixtures.baseRequest "mock-access-token" "id")
  = "/rating/v2409/Shop".
Proof. reflexivity. Qed.

(** ** Numbers *)

Module JsFacts.
Import Js.

Lemma Qltb_lt (a b : Q) : Qltb a b = true <-> (a < b)%Q.
Proof.
  unfold Qltb. rewrite Qlt_alt.
  destruct (a ?= b)%Q; split; congruence.
Qed.

Lemma Qeqb_eq (a b : Q) : Qeqb a b = true <-> (a == b)%Q.
Proof.
  unfold Qeqb. rewrite Qeq_alt.
  destruct (a ?= b)%Q; split; congruence.
Qed.

Lemma Qltb_ge (a b : Q) : Qltb a b = false <-> (b <= a)%Q.
Proof.
  split; intro H.
  - apply Qnot_lt_le. intro L. apply Qltb_lt in L. congruence.
  - destruct (Qltb a b) eqn:E; [|reflexivity].
    apply Qltb_lt in E. exfalso. apply (Qlt_not_le _ _ E H).
Qed.

Lemma lt_finite_of_Z (q : Q) (a b : Z) :
  (q == inject_Z b)%Q -> lt (of_Z a) (Finite q) = (a <? b)%Z.
Proof.
  intro H. unfold lt, of_Z. destruct (a <? b)%Z eqn:E.
  - apply Qltb_lt. rewrite H, <- Zlt_Qlt. now apply Z.ltb_lt.
  - apply Qltb_ge. rewrite H, <- Zle_Qle. now apply Z.ltb_ge.
Qed.

(** [now + e * 1000 - 60000] on integral numbers is the integer one
    expects. *)
Lemma expiry_arith (t e : Z) :
  exists q, sub (add (of_Z t) (mul (of_Z e) (of_Z 1000))) (of_Z 60000) = Finite q
            /\ (q == inject_Z (t + e * 1000 - 60000))%Q.
Proof.
  eexists. split; [reflexivity|].
  unfold Z.sub. rewrite !inject_Z_plus, inject_Z_mult, inject_Z_opp.
  unfold Qminus. reflexivity.
Qed.

End JsFacts.

(** ** The HTTP failure translator *)

Module HttpFacts.
Import Http Fixtures.





End HttpFacts.

(** ** The format mapper and the rating operation *)

Module UpsFacts.
Import Http Ups Rating Fixtures.

Lemma truthy_string_iff (s : string) : Js.truthy_string s = true <-> s <> "".
Proof. destruct s; simpl; split; congruence. Qed.

Lemma truthy_ostring_iff (o : option string) :
  Js.truthy_ostring o = true <-> exists s, o = Some s /\ s <> "".
Proof.
  destruct o as [s|]; simpl.
  - rewrite truthy_string_iff. split.
    + intro H. now exists s.
    + now intros (s' & [= <-] & H).
  - split; [discriminate | now intros (s & H & _)].
Qed.

(** What [execute] does up to and including the rating call, when the
    authenticator hands out [token]. *)
Lemma execute_reaches_send request token uuid net :
  exists rest result,
    run (inl token) uuid net (execute request)
    = (EvGetAccessToken :: EvRandomUUID
         :: EvPost (rating_call request token uuid) :: rest, result).
Proof.
  unfold execute, await_getAccessToken, httpClient_post.
  cbn [try_catch bind run of_result].
  destruct (run (inl token) uuid net _) as [rest result] eqn:E.
  eauto.
Qed.

Lemma built_NumOfPieces request :
  NumOfPieces (Shipment (RateRequest (buildUpsRateRequest request)))
  = if (1 <? length (Domain.packages request))%nat
    then Some (Js.nat_toString (length (Domain.packages request)))
    else None.
Proof.
  unfold buildUpsRateRequest. cbn [RateRequest Shipment NumOfPieces].
  now rewrite length_map.
Qed.

Lemma built_Package request :
  Package (Shipment (RateRequest (buildUpsRateRequest request)))
  = match map mapPackageToUps (Domain.packages request) with
    | [p] => OnePackage p
    | ps => PackageArray ps
    end.
Proof.
  unfold buildUpsRateRequest. cbn [RateRequest Shipment Package].
  now destruct (map mapPackageToUps (Domain.packages request)) as [|p [|q r]].
Qed.

(** C7, the claim as stated, fails: a request may specify the empty string
    as its service code (the schema admits it); the wire request then has no
    [Service] field and the call goes to the Shop endpoint. *)
Lemma empty_service_code_is_dropped :
  Domain.serviceCode request_with_empty_service_code = Some ""
  /\ Validation.RateRequestSchema (fun _ => "") true request_with_empty_service_code = []
  /\ Service (Shipment (RateRequest
       (buildUpsRateRequest request_with_empty_service_code))) = None
  /\ url (rating_call request_with_empty_service_code "t" "u") = "/rating/v2409/Shop".
Proof. repeat split; reflexivity. Qed.

(** C7, amended.  The wire request has a [Service] field exactly when the
    service code of the request is a non-empty string, and exactly then
    [execute] posts to the Rate endpoint, else to the Shop endpoint; one
    package is sent as a single object, two or more as an array;
    [NumOfPieces] is set exactly when there are two or more packages (to
    their number); [PaymentDetails] is present exactly when the shipper
    account number is a non-empty string. *)
Theorem wire_request_shape :
  forall (request : Domain.RateRequest),
    let shipment := Shipment (RateRequest (buildUpsRateRequest request)) in
    let packages := map mapPackageToUps (Domain.packages request) in
    (Service shipment <> None <->
       exists sc, Domain.serviceCode request = Some sc /\ sc <> "")
    /\
    (forall token uuid net,
        exists rest result,
          run (inl token) uuid net (execute request)
          = (EvGetAccessToken :: EvRandomUUID
               :: EvPost (rating_call request token uuid) :: rest, result)
          /\ body (rating_call request token uuid) = buildUpsRateRequest request
          /\ ((exists sc, Domain.serviceCode request = Some sc /\ sc <> "") ->
              url (rating_call request token uuid) = "/rating/v2409/Rate")
          /\ (~ (exists sc, Domain.serviceCode request = Some sc /\ sc <> "") ->
              url (rating_call request token uuid) = "/rating/v2409/Shop"))
    /\
    (forall p, Domain.packages request = [p] ->
               Package shipment = OnePackage (mapPackageToUps p))
    /\
    (2 <= length (Domain.packages request) ->
       Package shipment = PackageArray packages
       /\ NumOfPieces shipment
          = Some (Js.nat_toString (length (Domain.packages request))))
    /\
    (NumOfPieces shipment <> None <-> 2 <= length (Domain.packages request))
    /\
    (PaymentDetails shipment <> None <->
       exists a, Domain.shipperAccountNumber request = Some a /\ a <> "").
Proof.
  intros request shipment packages.
  split.
  { unfold shipment. cbn. rewrite <- truthy_ostring_iff.
    destruct (Domain.serviceCode request) as [sc|]; cbn.
    - destruct (Js.truthy_string sc); split; congruence.
    - split; congruence. }
  split.
  { intros token uuid net.
    destruct (execute_reaches_send request token uuid net) as (rest & result & E).
    exists rest, result. split; [exact E|]. split; [reflexivity|].
    unfold rating_call, requestOption; cbn [url].
    rewrite <- truthy_ostring_iff.
    destruct (Js.truthy_ostring (Domain.serviceCode request));
      split; intro H; try reflexivity; congruence. }
  split.
  { intros p Hp. unfold shipment. rewrite built_Package, Hp. reflexivity. }
  split.
  { intro Hlen. unfold shipment, packages.
    rewrite built_Package, built_NumOfPieces.
    destruct (Domain.packages request) as [|p1 [|p2 rest]]; cbn in Hlen; try lia.
    split; [reflexivity|].
    replace (1 <? length (p1 :: p2 :: rest))%nat with true; [reflexivity|].
    symmetry. apply Nat.ltb_lt. simpl. lia. }
  split.
  { unfold shipment. rewrite built_NumOfPieces.
    destruct (1 <? length (Domain.packages request))%nat eqn:E.
    - apply Nat.ltb_lt in E. split; [intros _; lia | congruence].
    - apply Nat.ltb_ge in E. split; [congruence | lia]. }
  { unfold shipment. cbn. rewrite <- truthy_ostring_iff.
    destruct (Domain.shipperAccountNumber request) as [a|]; cbn.
    - destruct (Js.truthy_string a); split; congruence.
    - split; congruence. }
Qed.

Lemma wire_request_shape_witness :
  Package (Shipment (RateRequest (buildUpsRateRequest multi_package_request)))
  = PackageArray (map mapPackageToUps (Domain.packages multi_package_request))
  /\ NumOfPieces (Shipment (RateRequest (buildUpsRateRequest multi_package_request)))
     = Some "2".
Proof.
  destruct (wire_request_shape multi_package_request) as (_ & _ & _ & H & _).
  exact (H (le_n 2)).
Defined.

(** ** Billing weight *)

(** The inbound unit table is the inverse of the outbound one. *)
Lemma unit_tables_inverse (u : Domain.WeightUnit) :
  Js.lookup UPS_WEIGHT_UNIT_TO_DOMAIN (WEIGHT_UNIT_TO_UPS u) = Some (Js.Value u).
Proof. now destruct u. Qed.

Lemma own_unit_codes (c : string) (u : Domain.WeightUnit) :
  Js.assoc UPS_WEIGHT_UNIT_TO_DOMAIN c = Some u <-> c = WEIGHT_UNIT_TO_UPS u.
Proof.
  unfold UPS_WEIGHT_UNIT_TO_DOMAIN. cbn [Js.assoc].
  destruct (String.eqb_spec "LBS" c) as [<-|H1].
  { destruct u; split; intro H; try discriminate; reflexivity. }
  destruct (String.eqb_spec "KGS" c) as [<-|H2].
  { destruct u; split; intro H; try discriminate; reflexivity. }
  destruct (String.eqb_spec "OZS" c) as [<-|H3].
  { destruct u; split; intro H; try discriminate; reflexivity. }
  split; [discriminate|]. destruct u; cbn; congruence.
Qed.

(** What the mapper does with the billing weight: one of the three unit
    codes is translated back and the weight is the parsed string; a code
    that is neither one of the three nor the name of an inherited member is
    refused with a PARSE_ERROR. *)
Lemma billing_weight_translated rated u :
  Code (bw_UnitOfMeasurement (BillingWeight rated)) = WEIGHT_UNIT_TO_UPS u ->
  exists q, mapUpsRatedShipmentToQuote rated = inr q
            /\ Domain.billingWeight q
               = Some (Domain.mkBillingWeight
                         (Js.parseFloat (bw_Weight (BillingWeight rated)))
                         (Js.Value u)).
Proof.
  intro H. unfold mapUpsRatedShipmentToQuote.
  rewrite H, unit_tables_inverse. eexists; split; reflexivity.
Qed.

Lemma unknown_unit_refused rated :
  (forall u, Code (bw_UnitOfMeasurement (BillingWeight rated)) <> WEIGHT_UNIT_TO_UPS u) ->
  ~ In (Code (bw_UnitOfMeasurement (BillingWeight rated))) Js.object_prototype_keys ->
  exists e, mapUpsRatedShipmentToQuote rated = inl e /\ code e = PARSE_ERROR.
Proof.
  intros Hown Hproto. unfold mapUpsRatedShipmentToQuote, Js.lookup.
  destruct (Js.assoc UPS_WEIGHT_UNIT_TO_DOMAIN _) as [u|] eqn:E.
  - apply own_unit_codes in E. now elim (Hown u).
  - destruct (existsb _ Js.object_prototype_keys) eqn:X.
    + apply existsb_exists in X as (k & Hin & Hk).
      apply String.eqb_eq in Hk. subst k. now elim Hproto.
    + eexists; split; reflexivity.
Qed.

(** C8, the failing input.  "constructor" is none of the three unit codes,
    yet the record is not refused: the table lookup finds the member every
    object inherits, which is truthy, and the quote carries it as its unit. *)
Theorem inherited_unit_code_is_accepted :
  Code (bw_UnitOfMeasurement (BillingWeight rated_with_inherited_unit)) = "constructor"
  /\ exists q,
       mapUpsRatedShipmentToQuote rated_with_inherited_unit = inr q
       /\ Domain.billingWeight q
          = Some (Domain.mkBillingWeight (Js.Finite (50 # 10))
                                         (Js.Builtin "constructor")).
Proof.
  split; [reflexivity|]. eexists; split; reflexivity.
Qed.

(** ** Monetary values *)

Lemma mapper_fails_only_on_unit rated e :
  mapUpsRatedShipmentToQuote rated = inl e ->
  e = unknown_unit_error (Code (bw_UnitOfMeasurement (BillingWeight rated)))
  /\ Js.lookup UPS_WEIGHT_UNIT_TO_DOMAIN
       (Code (bw_UnitOfMeasurement (BillingWeight rated))) = None.
Proof.
  unfold mapUpsRatedShipmentToQuote.
  destruct (Js.lookup _ _); [discriminate|].
  intros [= <-]. split; reflexivity.
Qed.

(** C10.  A monetary string that [parseFloat] cannot read does not make
    the mapper fail and does not become zero: for every record that passes
    the unit check (the mapper's only failure exit) a quote is
    returned, each amount is [parseFloat] of its string, and so it is NaN
    whenever the string does not parse, for the total, the transportation
    and (when present) the service-options charges alike. *)
Theorem malformed_money_propagates_as_NaN :
  forall (rated : UpsRatedShipment) (u : Js.member Domain.WeightUnit),
    Js.lookup UPS_WEIGHT_UNIT_TO_DOMAIN
      (Code (bw_UnitOfMeasurement (BillingWeight rated))) = Some u ->
    exists q,
      mapUpsRatedShipmentToQuote rated = inr q
      /\ (Js.parseFloat (MonetaryValue (TotalCharges rated)) = Js.NaN ->
          Domain.amount (Domain.totalCharges q) = Js.NaN)
      /\ (Js.parseFloat (MonetaryValue (TransportationCharges rated)) = Js.NaN ->
          Domain.amount (Domain.transportationCharges q) = Js.NaN)
      /\ (forall c, ServiceOptionsCharges rated = Some c ->
                    Js.parseFloat (MonetaryValue c) = Js.NaN ->
                    exists m, Domain.serviceOptionsCharges q = Some m
                              /\ Domain.amount m = Js.NaN)
      /\ Domain.amount (Domain.totalCharges q)
         = Js.parseFloat (MonetaryValue (TotalCharges rated))
      /\ Domain.amount (Domain.transportationCharges q)
         = Js.parseFloat (MonetaryValue (TransportationCharges rated)).
Proof.
  intros rated u Hu. unfold mapUpsRatedShipmentToQuote. rewrite Hu.
  eexists. split; [reflexivity|].
  cbn [Domain.totalCharges Domain.transportationCharges
       Domain.serviceOptionsCharges Domain.amount parseCharge].
  repeat split; auto.
  intros c -> Hc. cbn [option_map parseCharge]. eexists; split; [reflexivity|].
  exact Hc.
Qed.

Lemma malformed_money_propagates_as_NaN_witness :
  Js.parseFloat (MonetaryValue (TotalCharges rated_with_malformed_total)) = Js.NaN
  /\ exists q, mapUpsRatedShipmentToQuote rated_with_malformed_total = inr q
               /\ Domain.amount (Domain.totalCharges q) = Js.NaN.
Proof.
  split; [reflexivity|].
  destruct (malformed_money_propagates_as_NaN rated_with_malformed_total
              (Js.Value Domain.LB) eq_refl) as (q & Hq & Ht & _).
  exists q. split; [exact Hq | exact (Ht eq_refl)].
Defined.

End UpsFacts.

(** ** Validation in the carrier client *)

Module ClientFacts.
Import Http Validation Client Fixtures.

Lemma append_assoc (a b c : string) : ((a ++ b) ++ c = a ++ (b ++ c))%string.
Proof. induction a as [|x a IH]; simpl; [reflexivity | now rewrite IH]. Qed.

Lemma append_empty_r (a : string) : (a ++ "" = a)%string.
Proof. induction a as [|x a IH]; simpl; [reflexivity | now rewrite IH]. Qed.

Lemma contains_refl (s : string) : contains s s.
Proof. exists "", "". simpl. now rewrite append_empty_r. Qed.

Lemma contains_prepend (x pre s : string) :
  contains x s -> contains x (pre ++ s)%string.
Proof.
  intros (a & b & ->). exists (pre ++ a)%string, b. now rewrite append_assoc.
Qed.

Lemma contains_append (x s post : string) :
  contains x s -> contains x (s ++ post)%string.
Proof.
  intros (a & b & ->). exists a, (b ++ post)%string.
  now rewrite !append_assoc.
Qed.

(** Every element of a joined list is a piece of the result. *)
Lemma join_contains (sep x : string) (l : list string) :
  In x l -> contains x (join sep l).
Proof.
  induction l as [|y l IH]; intros Hin; [contradiction|].
  destruct l as [|z l].
  - destruct Hin as [<- | []]. apply contains_refl.
  - change (join sep (y :: z :: l)) with (y ++ sep ++ join sep (z :: l))%string.
    destruct Hin as [<- | Hin].
    + apply contains_append. apply contains_refl.
    + apply contains_prepend, contains_prepend. now apply IH.
Qed.

(** An issue the schema reports makes [getRates] throw a validation error
    that words it, without any interaction. *)
Lemma rejects_of_issue zmsg zinf request issue :
  In issue (RateRequestSchema zmsg zinf request) ->
  rejects zmsg zinf request (format_issue issue).
Proof.
  intro Hin. unfold rejects, getRates.
  destruct (RateRequestSchema zmsg zinf request) as [|i0 rest] eqn:E;
    [contradiction|].
  exists (i0 :: rest). repeat split.
  unfold validation_error, newCarrierError. cbn [message].
  apply contains_prepend. unfold formatZodError.
  apply join_contains. now apply in_map.
Qed.

Lemma elements_In {A} (check : nat -> A -> list ZodIssue) (l : list A) :
  forall k i a issue,
    nth_error l i = Some a -> In issue (check (k + i) a) ->
    In issue (elements check k l).
Proof.
  induction l as [|x l IH]; intros k [|i] a issue Hn Hin; simpl in *;
    try discriminate.
  - injection Hn as ->. rewrite Nat.add_0_r in Hin.
    apply in_or_app. now left.
  - apply in_or_app. right. apply (IH (S k) i a); [exact Hn|].
    now rewrite Nat.add_succ_comm.
Qed.

Lemma country_issue zmsg p a :
  String.length (Domain.countryCode a) <> 2 ->
  In (mkIssue (p ++ [Key "countryCode"]) "Country code must be exactly 2 characters")
     (AddressSchema zmsg p a).
Proof.
  intro H. unfold AddressSchema. rewrite !in_app_iff.
  do 5 right. unfold string_length.
  apply Nat.eqb_neq in H. rewrite H. now left.
Qed.

Lemma weight_issue zmsg zinf p pkg q :
  Domain.value (Domain.weight pkg) = Js.Finite q -> (q <= 0)%Q ->
  In (mkIssue (p ++ [Key "weight"; Key "value"]) "Weight must be positive")
     (PackageSchema zmsg zinf p pkg).
Proof.
  intros Hv Hq. unfold PackageSchema, PackageWeightSchema.
  apply in_or_app. left. unfold number_positive. rewrite Hv.
  cbn [number_type_ok negb]. unfold Js.gt, Js.lt, Js.of_Z.
  replace (Js.Qltb (inject_Z 0) q) with false
    by (symmetry; now apply JsFacts.Qltb_ge).
  rewrite <- app_assoc. now left.
Qed.

(** C9.  [getRates] validates first.  A request without packages, with an
    origin or destination country code that is not 2 characters long, or
    with a package whose weight is zero or negative makes it throw, before
    any interaction with the authenticator or the network, a
    VALIDATION_ERROR that is not retryable and whose message names the field
    and the constraint.  A request on which the schema reports nothing is
    handed to the rating operation, whose first step is the token
    acquisition. *)
Theorem invalid_request_rejected_before_any_call :
  forall (zmsg : ZodDefault -> string) (zinf : bool) (request : Domain.RateRequest),
    (Domain.packages request = [] ->
       rejects zmsg zinf request "packages: At least one package is required")
    /\
    (String.length (Domain.countryCode (Domain.origin request)) <> 2 ->
       rejects zmsg zinf request
         "origin.countryCode: Country code must be exactly 2 characters")
    /\
    (String.length (Domain.countryCode (Domain.destination request)) <> 2 ->
       rejects zmsg zinf request
         "destination.countryCode: Country code must be exactly 2 characters")
    /\
    (forall i pkg q,
        nth_error (Domain.packages request) i = Some pkg ->
        Domain.value (Domain.weight pkg) = Js.Finite q -> (q <= 0)%Q ->
        rejects zmsg zinf request
          ("packages." ++ Js.nat_toString i ++ ".weight.value: Weight must be positive"))
    /\
    (RateRequestSchema zmsg zinf request = [] ->
       getRates zmsg zinf request = Rating.execute request
       /\ forall token uuid net,
            exists rest result,
              Rating.run token uuid net (getRates zmsg zinf request)
              = (Rating.EvGetAccessToken :: rest, result)).
Proof.
  intros zmsg zinf request. split; [|split; [|split; [|split]]].
  - intro Hp.
    apply (rejects_of_issue zmsg zinf request
             (mkIssue [Key "packages"] "At least one package is required")).
    unfold RateRequestSchema. rewrite Hp, !in_app_iff.
    right. right. left. left. now left.
  - intro Hc.
    apply (rejects_of_issue zmsg zinf request
             (mkIssue [Key "origin"; Key "countryCode"]
                      "Country code must be exactly 2 characters")).
    unfold RateRequestSchema. apply in_or_app. left.
    exact (country_issue zmsg [Key "origin"] _ Hc).
  - intro Hc.
    apply (rejects_of_issue zmsg zinf request
             (mkIssue [Key "destination"; Key "countryCode"]
                      "Country code must be exactly 2 characters")).
    unfold RateRequestSchema. apply in_or_app. right. apply in_or_app. left.
    exact (country_issue zmsg [Key "destination"] _ Hc).
  - intros i pkg q Hn Hv Hq.
    replace ("packages." ++ Js.nat_toString i
               ++ ".weight.value: Weight must be positive")%string
      with (format_issue
              (mkIssue [Key "packages"; Idx i; Key "weight"; Key "value"]
                       "Weight must be positive")).
    + apply rejects_of_issue.
      unfold RateRequestSchema. rewrite !in_app_iff.
      right. right. left. right. right.
      apply (elements_In _ _ 0 i pkg); [exact Hn|].
      exact (weight_issue zmsg zinf [Key "packages"; Idx (0 + i)] pkg q Hv Hq).
    + unfold format_issue. cbn [path issue_message map seg_toString join].
      cbn [String.append]. rewrite !append_assoc. reflexivity.
  - intro Hok. unfold getRates. rewrite Hok. split; [reflexivity|].
    intros token uuid net.
    unfold Rating.execute, Rating.await_getAccessToken.
    cbn [Rating.try_catch Rating.bind Rating.run].
    destruct (Rating.run token uuid net _) as [rest result]. eauto.
Qed.

Lemma invalid_request_rejected_before_any_call_witness :
  rejects (fun _ => "") true request_with_bad_country
    "origin.countryCode: Country code must be exactly 2 characters"
  /\ rejects (fun _ => "") true request_with_negative_weight
       "packages.0.weight.value: Weight must be positive"
  /\ getRates (fun _ => "") true baseRequest = Rating.execute baseRequest.
Proof.
  split; [|split].
  - apply (proj1 (proj2
             (invalid_request_rejected_before_any_call
                (fun _ => "") true request_with_bad_country))).
    cbn. discriminate.
  - apply (proj1 (proj2 (proj2 (proj2
             (invalid_request_rejected_before_any_call
                (fun _ => "") true request_with_negative_weight))))
             0 _ (inject_Z (-1)) eq_refl eq_refl).
    discriminate.
  - apply (proj2 (proj2 (proj2 (proj2
             (invalid_request_rejected_before_any_call
                (fun _ => "") true baseRequest))))).
    reflexivity.
Defined.

End ClientFacts.

(** ** The orchestrator *)

Module ServiceFacts.
Import Http Service Fixtures.

(** *** The comparator on amounts that are numbers *)

Lemma gt_sortCompare a b :
  finite_amount a -> finite_amount b ->
  Js.gt (sortCompare compareFn a b) (Js.of_Z 0) = Js.lt (amount_of b) (amount_of a).
Proof.
  unfold finite_amount, sortCompare, compareFn, amount_of.
  destruct (Domain.amount (Domain.totalCharges a)) as [| |x|],
           (Domain.amount (Domain.totalCharges b)) as [| |y|];
    intros Ha Hb; try discriminate; try reflexivity.
  cbn [Js.sub Js.isNaN Js.gt Js.lt Js.of_Z].
  apply Bool.eq_iff_eq_true. rewrite !JsFacts.Qltb_lt.
  change (inject_Z 0) with 0%Q. split; intro H; lra.
Qed.

Lemma not_lt_le a b :
  Js.isNaN a = false -> Js.isNaN b = false ->
  Js.lt b a = false -> Js.le a b = true.
Proof.
  unfold Js.le.
  destruct a as [| |x|], b as [| |y|]; intros Ha Hb H;
    try discriminate; try reflexivity.
  cbn [Js.lt Js.eqb] in *. apply JsFacts.Qltb_ge in H.
  apply Bool.orb_true_iff.
  destruct (Qle_lt_or_eq _ _ H) as [L | E].
  - left. now apply JsFacts.Qltb_lt.
  - right. now apply JsFacts.Qeqb_eq.
Qed.

Lemma lt_le a b : Js.lt a b = true -> Js.le a b = true.
Proof. unfold Js.le. now intros ->. Qed.

Lemma tie_not_lt a b v :
  Js.eqb a v = true -> Js.eqb b v = true -> Js.lt b a = false.
Proof.
  destruct a as [| |x|], b as [| |y|], v as [| |z|]; intros Ha Hb;
    try discriminate; try reflexivity.
  cbn [Js.eqb Js.lt] in *.
  apply JsFacts.Qeqb_eq in Ha, Hb. apply JsFacts.Qltb_ge.
  rewrite Ha, Hb. apply Qle_refl.
Qed.

(** *** Insertion *)

Lemma insert_perm (x : Domain.RateQuote) l :
  Permutation (insert compareFn x l) (x :: l).
Proof.
  induction l as [|y l IH]; cbn [insert]; [reflexivity|].
  destruct (Js.gt _ _); [|reflexivity].
  rewrite IH. apply perm_swap.
Qed.

Lemma sort_perm (l : list Domain.RateQuote) : Permutation (sort compareFn l) l.
Proof.
  induction l as [|x l IH]; cbn [sort]; [reflexivity|].
  rewrite insert_perm. now constructor.
Qed.

Lemma insert_sorted x l :
  finite_amount x -> Forall finite_amount l ->
  Sorted le_amount l -> Sorted le_amount (insert compareFn x l).
Proof.
  intros Hx Hl Hs. induction l as [|y l IH]; cbn [insert].
  - repeat constructor.
  - inversion Hl as [|? ? Hy Hl']; subst.
    inversion Hs as [|? ? Hs' Hhd]; subst.
    rewrite (gt_sortCompare x y Hx Hy).
    destruct (Js.lt (amount_of y) (amount_of x)) eqn:E.
    + constructor; [now apply IH|].
      destruct l as [|z l]; cbn [insert].
      * constructor. now apply lt_le.
      * destruct (Js.gt _ _); constructor.
        -- now inversion Hhd.
        -- now apply lt_le.
    + constructor; [exact Hs|]. constructor.
      apply not_lt_le; assumption.
Qed.

Lemma sort_sorted l :
  Forall finite_amount l -> Sorted le_amount (sort compareFn l).
Proof.
  induction l as [|x l IH]; intro H; cbn [sort]; [constructor|].
  inversion H as [|? ? Hx Hl]; subst.
  apply insert_sorted; [exact Hx | | now apply IH].
  apply Forall_forall. intros q Hq.
  rewrite Forall_forall in Hl. apply Hl.
  exact (Permutation_in _ (sort_perm l) Hq).
Qed.

Lemma sorted_ascending l : Sorted le_amount l -> ascending l.
Proof.
  induction 1 as [|a l Hs IH Hhd]; intros i x y Hx Hy.
  - now destruct i.
  - destruct i as [|i].
    + cbn in Hx, Hy. injection Hx as <-.
      destruct l as [|b l]; [discriminate|].
      cbn in Hy. injection Hy as <-. now inversion Hhd.
    + exact (IH i x y Hx Hy).
Qed.

(** *** Stability: quotes of equal amount keep their order *)

Lemma filter_insert v x l :
  finite_amount x -> Forall finite_amount l ->
  filter (fun q => Js.eqb (amount_of q) v) (insert compareFn x l)
  = filter (fun q => Js.eqb (amount_of q) v) (x :: l).
Proof.
  intros Hx Hl. induction l as [|y l IH]; cbn [insert]; [reflexivity|].
  inversion Hl as [|? ? Hy Hl']; subst.
  rewrite (gt_sortCompare x y Hx Hy).
  destruct (Js.lt (amount_of y) (amount_of x)) eqn:E; [|reflexivity].
  cbn [filter] in *. rewrite (IH Hl').
  destruct (Js.eqb (amount_of x) v) eqn:Ex; [|reflexivity].
  destruct (Js.eqb (amount_of y) v) eqn:Ey; [|reflexivity].
  rewrite (tie_not_lt _ _ _ Ex Ey) in E. discriminate.
Qed.

Lemma filter_sort v l :
  Forall finite_amount l ->
  filter (fun q => Js.eqb (amount_of q) v) (sort compareFn l)
  = filter (fun q => Js.eqb (amount_of q) v) l.
Proof.
  induction l as [|x l IH]; intro H; cbn [sort]; [reflexivity|].
  inversion H as [|? ? Hx Hl]; subst.
  rewrite filter_insert; [cbn [filter]; now rewrite (IH Hl) | exact Hx |].
  apply Forall_forall. intros q Hq.
  rewrite Forall_forall in Hl. apply Hl.
  exact (Permutation_in _ (sort_perm l) Hq).
Qed.

(** *** The loop over the settled results *)

Lemma collect_quotes carriers : fst (collect carriers) = fanout_quotes carriers.
Proof.
  induction carriers as [|c rest IH]; [reflexivity|].
  cbn [collect fanout_quotes flat_map].
  destruct (collect rest) as [qs es]. cbn [fst] in IH. subst qs.
  now destruct (c_getRates c).
Qed.

Lemma collect_errors carriers :
  Forall2 entry_for (failures carriers) (snd (collect carriers)).
Proof.
  induction carriers as [|c rest IH]; [constructor|].
  cbn [collect failures flat_map].
  destruct (collect rest) as [qs es]. cbn [snd] in IH.
  destruct (c_getRates c) as [r|reason]; cbn [snd app]; [exact IH|].
  constructor; [|exact IH].
  unfold entry_for. cbn [e_error e_carrier].
  destruct reason as [e|ax|m|]; repeat split;
    try (intros e' [= <-]; reflexivity);
    try discriminate;
    try (intros H; now elim (H e)).
Qed.

Lemma shopRates_result c rest :
  shopRates (c :: rest)
  = inr (mkResult (sort compareFn (fanout_quotes (c :: rest)))
                  (snd (collect (c :: rest)))).
Proof.
  unfold shopRates. rewrite <- collect_quotes.
  now destruct (collect (c :: rest)).
Qed.

(** C3, the claim as stated, fails: a quote whose total is NaN (the
    mapper produces one from a total that is no number) cannot be
    ordered.  With it the result is not ascending, and no other order of the
    same quotes would be. *)
Lemma nan_total_breaks_ordering :
  registry_with_nan_quote <> []
  /\ exists res,
       shopRates registry_with_nan_quote = inr res
       /\ ~ ascending (quotes res)
       /\ forall l, Permutation (quotes res) l -> ~ ascending l.
Proof.
  split; [discriminate|].
  eexists. split; [reflexivity|].
  cbn [quotes].
  assert (forall l,
            Permutation (sort compareFn (fanout_quotes registry_with_nan_quote)) l ->
            ~ ascending l) as Hall.
  { intros l Hp.
    apply Permutation_length_2_inv in Hp.
    destruct Hp as [-> | ->]; intro H;
      specialize (H 0 _ _ eq_refl eq_refl); discriminate. }
  split; [apply Hall; reflexivity | exact Hall].
Qed.

(** C3, amended.  On a non-empty registry [shopRates] returns (it takes
    what every carrier's [getRates] settled with) a result whose quotes are
    those of all carriers that succeeded, none lost and none added, and
    whose errors are one entry per failed carrier, in registry order: the
    carrier's own [CarrierError], or an UNKNOWN_ERROR for any other failure,
    labelled with the error's [details.carrier], or "UNKNOWN" when there is
    none.  Provided no quote has a NaN total, the quotes are in ascending
    order of [totalCharges.amount], every adjacent pair being in order, and
    quotes of equal amount keep the order of the fan-out. *)
Theorem shopRates_merges_and_sorts :
  forall (carriers : list Carrier),
    carriers <> [] ->
    exists res,
      shopRates carriers = inr res
      /\ Permutation (quotes res) (fanout_quotes carriers)
      /\ (forall c response q,
             In c carriers -> c_getRates c = inl response ->
             In q (Domain.quotes response) -> In q (quotes res))
      /\ Forall2 entry_for (failures carriers) (errors res)
      /\ (Forall finite_amount (fanout_quotes carriers) ->
          ascending (quotes res)
          /\ forall v,
               filter (fun q => Js.eqb (amount_of q) v) (quotes res)
               = filter (fun q => Js.eqb (amount_of q) v) (fanout_quotes carriers)).
Proof.
  intros [|c rest] Hne; [congruence|].
  rewrite shopRates_result. eexists. split; [reflexivity|].
  cbn [quotes errors].
  split; [apply sort_perm|].
  split.
  { intros c' response q Hc Hr Hq.
    apply (Permutation_in _ (Permutation_sym (sort_perm _))).
    unfold fanout_quotes. apply in_flat_map. exists c'.
    split; [exact Hc|]. now rewrite Hr. }
  split; [apply collect_errors|].
  intro Hfin. split.
  - apply sorted_ascending, sort_sorted, Hfin.
  - intro v. apply filter_sort, Hfin.
Qed.

Lemma shopRates_merges_and_sorts_witness :
  exists res,
    shopRates registry_with_failing_carrier = inr res
    /\ map amount_of (quotes res)
       = [Js.Finite (1130 # 100); Js.Finite (1380 # 100); Js.Finite (2450 # 100)]
    /\ map e_carrier (errors res) = ["FEDEX"]
    /\ ascending (quotes res).
Proof.
  destruct (shopRates_merges_and_sorts registry_with_failing_carrier)
    as (res & Hres & _ & _ & _ & Hsorted); [discriminate|].
  exists res. split; [exact Hres|].
  injection Hres as <-.
  split; [reflexivity|]. split; [reflexivity|].
  apply Hsorted. repeat constructor.
Defined.

End ServiceFacts.

(** ** The token manager *)

Module AuthFacts.
Import Http Auth Fixtures.

Lemma nth_error_set_nth {A} (n : nat) (x : A) (l : list A) :
  n < length l -> nth_error (set_nth n x l) n = Some x.
Proof.
  revert n; induction l as [|h t IH]; intros [|n] H; simpl in *; try lia; auto.
  apply IH; lia.
Qed.

Lemma nth_error_fresh {A} (l : list A) (x : A) :
  nth_error (l ++ [x]) (length l) = Some x.
Proof.
  rewrite nth_error_app2 by lia. now rewrite Nat.sub_diag.
Qed.

Lemma getAccessToken_invalid now s :
  cache_valid (cache s) now = false -> getAccessToken now s = refresh s.
Proof.
  unfold getAccessToken, cache_valid.
  destruct (cache s) as [c|]; [|reflexivity].
  now intros ->.
Qed.

Lemma getAccessToken_valid now s c :
  cache s = Some c -> Js.lt now (expiresAt c) = true ->
  getAccessToken now s = (FromCache (accessToken c), s).
Proof.
  unfold getAccessToken. now intros -> ->.
Qed.

Lemma refresh_idle s :
  pendingRefresh s = None ->
  refresh s =
    (Started (length (promises s)),
     mkState (cache s) (Some (length (promises s)))
             (promises s ++ [Pending]) (S (exchanges s))).
Proof. unfold refresh. now intros ->. Qed.

Lemma refresh_in_flight s p :
  pendingRefresh s = Some p -> refresh s = (Joined p, s).
Proof. unfold refresh. now intros ->. Qed.

(** While a refresh is in flight, calls that find no usable token all
    take its promise and leave the authenticator as it is. *)
Lemma calls_in_flight times : forall s p,
  pendingRefresh s = Some p ->
  Forall (fun t => cache_valid (cache s) t = false) times ->
  calls times s = (map (fun _ => Joined p) times, s).
Proof.
  induction times as [|t ts IH]; intros s p Hp Hall; simpl; [reflexivity|].
  inversion Hall as [|? ? Ht Hts]; subst.
  rewrite (getAccessToken_invalid _ _ Ht), (refresh_in_flight _ _ Hp).
  now rewrite (IH s p Hp Hts).
Qed.

(** The first of a burst of calls starts the refresh, the others join. *)
Lemma calls_idle t ts s :
  pendingRefresh s = None ->
  Forall (fun t => cache_valid (cache s) t = false) (t :: ts) ->
  calls (t :: ts) s =
    (Started (length (promises s)) :: map (fun _ => Joined (length (promises s))) ts,
     mkState (cache s) (Some (length (promises s)))
             (promises s ++ [Pending]) (S (exchanges s))).
Proof.
  intros Hp Hall. inversion Hall as [|? ? Ht Hts]; subst.
  cbn [calls].
  rewrite (getAccessToken_invalid _ _ Ht), (refresh_idle _ Hp).
  now rewrite (calls_in_flight ts
                 (mkState (cache s) (Some (length (promises s)))
                          (promises s ++ [Pending]) (S (exchanges s)))
                 (length (promises s)) eq_refl Hts).
Qed.

(** Settling the refresh that a burst of calls started. *)
Lemma settle_started now o s :
  let s1 := mkState (cache s) (Some (length (promises s)))
                    (promises s ++ [Pending]) (S (exchanges s)) in
  settle now o s1 =
    mkState (snd (fetchToken now o (cache s)))
            (Some (length (promises s)))
            (set_nth (length (promises s))
                     (Settled (fst (fetchToken now o (cache s))))
                     (promises s ++ [Pending]))
            (S (exchanges s)).
Proof.
  unfold settle; cbn [pendingRefresh promises cache exchanges].
  rewrite nth_error_fresh.
  now destruct (fetchToken now o (cache s)).
Qed.

Lemma received_started now o s r :
  r = Started (length (promises s)) \/ r = Joined (length (promises s)) ->
  received r (settle now o
                (mkState (cache s) (Some (length (promises s)))
                         (promises s ++ [Pending]) (S (exchanges s))))
  = Some (fst (fetchToken now o (cache s))).
Proof.
  intros Hr. rewrite settle_started.
  assert (nth_error
            (set_nth (length (promises s))
               (Settled (fst (fetchToken now o (cache s))))
               (promises s ++ [Pending])) (length (promises s))
          = Some (Settled (fst (fetchToken now o (cache s))))) as E.
  { apply nth_error_set_nth. rewrite length_app. simpl. lia. }
  destruct Hr as [-> | ->]; cbn [received promises]; now rewrite E.
Qed.

Lemma received_before_settle s r :
  r = Started (length (promises s)) \/ r = Joined (length (promises s)) ->
  received r (mkState (cache s) (Some (length (promises s)))
                      (promises s ++ [Pending]) (S (exchanges s))) = None.
Proof.
  intros [-> | ->]; cbn [received promises]; now rewrite nth_error_fresh.
Qed.

(** A call that finds no usable token after the refresh has settled but
    before the [finally] block has run takes the settled promise: no second
    exchange, and the same outcome. *)
Lemma late_call_shares_outcome now o s t :
  pendingRefresh s = None ->
  let s1 := snd (getAccessToken now s) in
  let s2 := settle now o s1 in
  cache_valid (cache s) now = false ->
  cache_valid (cache s2) t = false ->
  exchanges (snd (getAccessToken t s2)) = S (exchanges s)
  /\ received (fst (getAccessToken t s2)) s2 = Some (fst (fetchToken now o (cache s))).
Proof.
  intros Hidle s1 s2 Hinv Hlate.
  unfold s2, s1 in *. rewrite (getAccessToken_invalid _ _ Hinv) in *.
  rewrite (refresh_idle _ Hidle) in *. cbn [snd] in *.
  rewrite (getAccessToken_invalid _ _ Hlate).
  rewrite settle_started in *.
  rewrite (refresh_in_flight _ (length (promises s))) by reflexivity.
  cbn [fst snd exchanges]. split; [reflexivity|].
  rewrite <- settle_started. apply received_started. now right.
Qed.

Lemma burst_results (ts : list Js.number) s r :
  In r (Started (length (promises s))
          :: map (fun _ => Joined (length (promises s))) ts) ->
  r = Started (length (promises s)) \/ r = Joined (length (promises s)).
Proof.
  intros [<- | H]; [now left|].
  apply in_map_iff in H as (x & <- & _). now right.
Qed.

(** C1.  Any number N >= 1 of calls of [getAccessToken] that find no
    usable cached token while no refresh has settled perform exactly one
    credential exchange between them: the first starts it, every call is
    suspended on its promise, and once the exchange settles (at any time,
    with any answer) every one of the N calls has received the same
    outcome, the token or the failure of that single [fetchToken]. *)
Theorem concurrent_calls_share_one_exchange :
  forall (s : State) (times : list Js.number)
         (now : Js.number) (o : AxiosResult TokenData),
    times <> [] ->
    pendingRefresh s = None ->
    Forall (fun t => cache_valid (cache s) t = false) times ->
    let rs := fst (calls times s) in
    let s1 := snd (calls times s) in
    let s2 := settle now o s1 in
    length rs = length times /\
    exchanges s1 = S (exchanges s) /\
    exchanges (finally s2) = S (exchanges s) /\
    Forall (fun r => received r s1 = None) rs /\
    Forall (fun r => received r s2 = Some (fst (fetchToken now o (cache s)))) rs /\
    Forall (fun r => received r (finally s2)
                     = Some (fst (fetchToken now o (cache s)))) rs.
Proof.
  intros s [|t ts] now o Hne Hidle Hall; [congruence|].
  rewrite (calls_idle t ts s Hidle Hall). cbn [fst snd].
  repeat split.
  - simpl. now rewrite length_map.
  - rewrite settle_started. reflexivity.
  - apply Forall_forall. intros r Hr.
    apply received_before_settle. exact (burst_results ts s r Hr).
  - apply Forall_forall. intros r Hr.
    apply received_started. exact (burst_results ts s r Hr).
  - apply Forall_forall. intros r Hr.
    pose proof (received_started now o s r (burst_results ts s r Hr)) as E.
    destruct r; exact E.
Qed.

Lemma concurrent_calls_share_one_exchange_witness :
  fst (calls burst_times initial) = [Started 0; Joined 0; Joined 0]
  /\ exchanges (snd (calls burst_times initial)) = 1
  /\ Forall (fun r =>
               received r (settle (Js.of_Z 5) valid_token_answer
                             (snd (calls burst_times initial)))
               = Some (inl "eyJhbGciOiJSUzM4NCIsInR5cCI6IkpXVCJ9.test-token"))
            (fst (calls burst_times initial)).
Proof.
  pose proof (concurrent_calls_share_one_exchange initial burst_times
                (Js.of_Z 5) valid_token_answer) as H.
  assert (burst_times <> []) as H1 by discriminate.
  assert (pendingRefresh initial = None) as H2 by reflexivity.
  assert (Forall (fun t => cache_valid (cache initial) t = false) burst_times) as H3
    by (repeat constructor).
  destruct (H H1 H2 H3) as (_ & He & _ & _ & Hr & _).
  split; [reflexivity|]. split; [exact He|]. exact Hr.
Defined.

(** A successful exchange caches the token with
    [expiresAt = now + parseInt(expires_in) * 1000 - 60000]. *)
Lemma fetchToken_success now status tok es old :
  Js.truthy_string tok = true ->
  fetchToken now (AxiosOk status (Some (mkOAuth (Some tok) (Some es)))) old
  = (inl tok,
     Some (mkCache tok
             (Js.sub (Js.add now (Js.mul (Js.parseInt es) (Js.of_Z 1000)))
                     TOKEN_EXPIRY_BUFFER_MS))).
Proof.
  intro Ht. unfold fetchToken. cbn. now rewrite Ht.
Qed.

Lemma settle_in_flight now o s p :
  pendingRefresh s = Some p -> nth_error (promises s) p = Some Pending ->
  settle now o s =
    mkState (snd (fetchToken now o (cache s))) (Some p)
            (set_nth p (Settled (fst (fetchToken now o (cache s)))) (promises s))
            (exchanges s).
Proof.
  intros Hp Hn. unfold settle. rewrite Hp, Hn.
  now destruct (fetchToken now o (cache s)).
Qed.

(** C2.  [getAccessToken] answers from the cache, leaving the authenticator
    untouched (no exchange started), exactly when a token is cached and the
    current time is strictly before its [expiresAt].  A successful exchange
    settling at time [t] with [expires_in = e] caches
    [expiresAt = t + e * 1000 - 60000].  Hence, when [e <= 60], the token is
    expired from the moment it is cached: at every time [t' >= t] the cache
    is not valid, and the next call starts a new exchange. *)
Theorem cached_token_served_iff_unexpired :
  (forall now s,
      (exists tok, fst (getAccessToken now s) = FromCache tok) <->
      (exists c, cache s = Some c /\ Js.lt now (expiresAt c) = true))
  /\
  (forall now s c,
      cache s = Some c -> Js.lt now (expiresAt c) = true ->
      getAccessToken now s = (FromCache (accessToken c), s))
  /\
  (forall s p t status tok es e,
      pendingRefresh s = Some p -> nth_error (promises s) p = Some Pending ->
      Js.truthy_string tok = true -> Js.parseInt es = Js.of_Z e ->
      let s' := finally (settle (Js.of_Z t)
                           (AxiosOk status (Some (mkOAuth (Some tok) (Some es)))) s) in
      (exists q, cache s' = Some (mkCache tok (Js.Finite q))
                 /\ (q == inject_Z (t + e * 1000 - 60000))%Q)
      /\
      ((e <= 60)%Z ->
       forall t', (t <= t')%Z ->
         cache_valid (cache s') (Js.of_Z t') = false /\
         exists s'', getAccessToken (Js.of_Z t') s' = (Started (length (promises s')), s'')
                     /\ exchanges s'' = S (exchanges s'))).
Proof.
  split; [|split].
  - intros now s. unfold getAccessToken, refresh. split.
    + intros [tok H]. destruct (cache s) as [c|].
      * destruct (Js.lt now (expiresAt c)) eqn:E; [eauto|].
        destruct (pendingRefresh s); discriminate.
      * destruct (pendingRefresh s); discriminate.
    + intros (c & -> & ->). cbn. eauto.
  - intros now s c. apply getAccessToken_valid.
  - intros s p t status tok es e Hp Hn Ht He s'.
    assert (cache s' = Some (mkCache tok
              (Js.sub (Js.add (Js.of_Z t) (Js.mul (Js.of_Z e) (Js.of_Z 1000)))
                      TOKEN_EXPIRY_BUFFER_MS))) as Hc.
    { unfold s'. rewrite (settle_in_flight _ _ _ _ Hp Hn).
      rewrite (fetchToken_success _ _ _ _ _ Ht), He. reflexivity. }
    destruct (JsFacts.expiry_arith t e) as (q & Hq & Hv).
    unfold TOKEN_EXPIRY_BUFFER_MS in Hc. rewrite Hq in Hc.
    split; [exists q; split; [exact Hc | exact Hv]|].
    intros Hle t' Ht'.
    assert (cache_valid (cache s') (Js.of_Z t') = false) as Hinv.
    { rewrite Hc. cbn [cache_valid expiresAt].
      rewrite (JsFacts.lt_finite_of_Z q t' _ Hv). apply Z.ltb_ge. lia. }
    split; [exact Hinv|].
    rewrite (getAccessToken_invalid _ _ Hinv).
    rewrite refresh_idle by reflexivity.
    eexists; split; reflexivity.
Qed.

Lemma cached_token_served_iff_unexpired_witness :
  let s := snd (calls burst_times initial) in
  let s' := finally (settle (Js.of_Z 1000) short_lived_token_answer s) in
  (exists q, cache s' = Some (mkCache "expired-token" (Js.Finite q))
             /\ (q == inject_Z (1000 + 1 * 1000 - 60000))%Q)
  /\ cache_valid (cache s') (Js.of_Z 1000) = false
  /\ exists s'', getAccessToken (Js.of_Z 1000) s' = (Started 1, s'')
                 /\ exchanges s'' = 2.
Proof.
  intros s s'.
  destruct (proj2 (proj2 cached_token_served_iff_unexpired)
              s 0 1000%Z 200%Z "expired-token" "1" 1%Z
              eq_refl eq_refl eq_refl eq_refl) as (Hq & Hexp).
  split; [exact Hq|].
  exact (Hexp ltac:(lia) 1000%Z ltac:(lia)).
Defined.

(** ** Failures of the token manager *)

Lemma CarrierErrorCode_eqb_eq a b : CarrierErrorCode_eqb a b = true <-> a = b.
Proof. destruct a, b; simpl; split; congruence. Qed.

(** Apart from an error that is a [CarrierError] already, everything axios
    can fail with is translated to a retryable authentication error or to an
    error of another kind. *)
Lemma translateError_auth_retryable error :
  (forall e, error <> ExnCarrierError e) ->
  code (translateError error) = AUTHENTICATION_ERROR ->
  retryable (details (translateError error)) = true.
Proof.
  intros Hne. destruct error as [e|ax|m|]; cbn [translateError].
  - now elim (Hne e).
  - destruct (is_timeout_code (ax_code ax)); [discriminate|].
    destruct (ax_response ax) as [r|]; [|discriminate].
    destruct (status r =? 401)%Z; [reflexivity|].
    destruct (status r =? 403)%Z; [discriminate|].
    destruct (status r =? 429)%Z; discriminate.
  - discriminate.
  - discriminate.
Qed.

(** C6.  Every failure of [fetchToken] (the failure every caller of
    [getAccessToken] waiting on it receives) is a [CarrierError] of kind
    AUTHENTICATION_ERROR, and the exchange fails in these cases and no
    other.  A response without a body fails, with a retryable error of
    carrier UPS.  A response whose [access_token] is missing or empty fails,
    with the retryable error "UPS OAuth response missing access_token".  A
    failed request whose translation is an AUTHENTICATION_ERROR already
    fails with that very error, not re-wrapped; any other failed request
    (network, timeout, another status) fails with a new retryable error of
    carrier UPS whose message is "UPS authentication failed: " and the
    message of the cause.  A response with a non-empty [access_token]
    succeeds with it.  So a failure is retryable, the one exception being an
    error that axios threw as a [CarrierError] of that kind already; it
    leaves the cache as it was; and it is what every caller of a burst
    receives. *)
Theorem token_failures_are_authentication_errors :
  forall (now : Js.number) (o : AxiosResult TokenData)
         (old : option TokenCache),
    (forall status, o = AxiosOk status None ->
        exists e, fst (fetchToken now o old) = inr e
                  /\ code e = AUTHENTICATION_ERROR
                  /\ retryable (details e) = true
                  /\ carrier (details e) = Some "UPS")
    /\
    (forall status d,
        o = AxiosOk status (Some d) ->
        Js.truthy_ostring (access_token d) = false ->
        fst (fetchToken now o old)
        = inr (newCarrierError AUTHENTICATION_ERROR
                 "UPS OAuth response missing access_token"
                 (mkPartial (Some "UPS") None None None (Some true))))
    /\
    (forall status d tok,
        o = AxiosOk status (Some d) ->
        access_token d = Some tok -> tok <> "" ->
        fst (fetchToken now o old) = inl tok)
    /\
    (forall error,
        o = AxiosFail error ->
        (code (translateError error) = AUTHENTICATION_ERROR ->
           fst (fetchToken now o old) = inr (translateError error))
        /\
        (code (translateError error) <> AUTHENTICATION_ERROR ->
           fst (fetchToken now o old)
           = inr (newCarrierError AUTHENTICATION_ERROR
                    ("UPS authentication failed: "
                       ++ message (translateError error))
                    (mkPartial (Some "UPS") None None None (Some true)))))
    /\
    (forall e,
        fst (fetchToken now o old) = inr e ->
        code e = AUTHENTICATION_ERROR
        /\ (retryable (details e) = true
            \/ o = AxiosFail (ExnCarrierError e))
        /\ snd (fetchToken now o old) = old
        /\ forall (s : State) (times : list Js.number),
             times <> [] -> pendingRefresh s = None -> cache s = old ->
             Forall (fun t => cache_valid (cache s) t = false) times ->
             Forall (fun r => received r (settle now o (snd (calls times s)))
                              = Some (inr e))
                    (fst (calls times s))).
Proof.
  intros now o old.
  split.
  { intros status ->. eexists. split; [reflexivity|]. repeat split. }
  split.
  { intros status d -> Hf. unfold fetchToken. cbn [post_result r_data].
    rewrite Hf. reflexivity. }
  split.
  { intros status d tok -> Htok Hne. unfold fetchToken. cbn [post_result r_data].
    rewrite Htok. cbn [Js.truthy_ostring].
    destruct tok; [congruence | reflexivity]. }
  split.
  { intros error ->. unfold fetchToken. cbn [post_result fst fetchToken_catch].
    split; intro Hc.
    - apply CarrierErrorCode_eqb_eq in Hc. now rewrite Hc.
    - destruct (CarrierErrorCode_eqb (code (translateError error))
                                     AUTHENTICATION_ERROR) eqn:E; [|reflexivity].
      apply CarrierErrorCode_eqb_eq in E. contradiction. }
  intros e H.
  assert (code e = AUTHENTICATION_ERROR
          /\ (retryable (details e) = true \/ o = AxiosFail (ExnCarrierError e))
          /\ snd (fetchToken now o old) = old) as (Hc & Hr & Hs).
  { unfold fetchToken in *.
    destruct o as [st d | error]; cbn [post_result r_data] in *.
    - destruct d as [d|]; cbn [fst snd] in *.
      + destruct (negb (Js.truthy_ostring (access_token d))); cbn [fst snd] in *.
        * inversion H; subst. repeat split; auto.
        * discriminate.
      + inversion H; subst. repeat split; auto.
    - cbn [fst snd fetchToken_catch] in *.
      destruct (CarrierErrorCode_eqb (code (translateError error))
                                     AUTHENTICATION_ERROR) eqn:E;
        inversion H; subst; clear H.
      + apply CarrierErrorCode_eqb_eq in E.
        split; [exact E|]. split; [|reflexivity].
        destruct error as [e0|ax|m|];
          try (left; apply translateError_auth_retryable;
               [discriminate | exact E]).
        right. reflexivity.
      + split; [reflexivity|]. split; [left|]; reflexivity. }
  repeat split; auto.
  intros s [|t ts] Hne Hidle Hold Hall; [congruence|].
  rewrite (calls_idle t ts s Hidle Hall). cbn [fst snd].
  apply Forall_forall. intros r Hin.
  rewrite (received_started now o s r (burst_results ts s r Hin)).
  now rewrite Hold, H.
Qed.

Lemma token_failures_are_authentication_errors_witness :
  fst (fetchToken (Js.of_Z 0) connection_refused None)
  = inr (wrap_auth_failure "Network error: Connection refused")
  /\ fst (fetchToken (Js.of_Z 0) (AxiosFail (ExnAxiosError unauthorized_401)) None)
     = inr (translateError (ExnAxiosError unauthorized_401))
  /\ fst (fetchToken (Js.of_Z 0)
            (AxiosOk 200 (Some (mkOAuth None (Some "14399")))) None)
     = inr (newCarrierError AUTHENTICATION_ERROR
              "UPS OAuth response missing access_token"
              (mkPartial (Some "UPS") None None None (Some true)))
  /\ code (wrap_auth_failure "Network error: Connection refused")
     = AUTHENTICATION_ERROR.
Proof.
  split.
  { refine (proj2 (proj1 (proj2 (proj2 (proj2
              (token_failures_are_authentication_errors
                 (Js.of_Z 0) connection_refused None))))
              _ eq_refl) _).
    discriminate. }
  split.
  { exact (proj1 (proj1 (proj2 (proj2 (proj2
             (token_failures_are_authentication_errors
                (Js.of_Z 0) (AxiosFail (ExnAxiosError unauthorized_401)) None))))
             _ eq_refl) eq_refl). }
  split.
  { exact (proj1 (proj2 (token_failures_are_authentication_errors
             (Js.of_Z 0) (AxiosOk 200 (Some (mkOAuth None (Some "14399")))) None))
             200%Z _ eq_refl eq_refl). }
  exact (proj1 (proj2 (proj2 (proj2 (proj2
           (token_failures_are_authentication_errors
              (Js.of_Z 0) connection_refused None))))
           _ eq_refl)).
Defined.

(** After [invalidateToken] no token is cached, whatever was cached and
    however long it had to live: the next call goes to the credential
    endpoint, starting a new exchange, unless one is in flight already, in
    which case it waits for that one. *)
Lemma invalidateToken_then_getAccessToken (s : State) (now : Js.number) :
  cache (invalidateToken s) = None
  /\ (pendingRefresh s = None ->
      exists s', getAccessToken now (invalidateToken s)
                 = (Started (length (promises s)), s')
                 /\ exchanges s' = S (exchanges s))
  /\ (forall p, pendingRefresh s = Some p ->
                getAccessToken now (invalidateToken s) = (Joined p, invalidateToken s)).
Proof.
  split; [reflexivity|]. split.
  - intro Hp. unfold getAccessToken. cbn [cache invalidateToken].
    rewrite refresh_idle by exact Hp. eexists; split; reflexivity.
  - intros p Hp. unfold getAccessToken. cbn [cache invalidateToken].
    now rewrite (refresh_in_flight _ p) by exact Hp.
Qed.

End AuthFacts.

(** ** Authentication failures of the rating call *)

Module RatingFacts.
Import Http Auth Rating Fixtures.

(** When the rating call fails with a kind other than AUTHENTICATION_ERROR
    the token is left alone. *)
Lemma other_send_failures_keep_token request token uuid net error :
  net (rating_call request token uuid) = AxiosFail error ->
  code (translateError error) <> AUTHENTICATION_ERROR ->
  run (inl token) uuid net (execute request)
  = ([EvGetAccessToken; EvRandomUUID; EvPost (rating_call request token uuid)],
     inr (ExnCarrierError (set_carrier "UPS" (translateError error)))).
Proof.
  intros Hnet Hcode. unfold execute, await_getAccessToken, httpClient_post.
  cbn [try_catch bind run of_result]. rewrite Hnet.
  cbn [post_result of_result try_catch bind on_send_failure].
  destruct (CarrierErrorCode_eqb (code (translateError error)) AUTHENTICATION_ERROR)
    eqn:E; [|reflexivity].
  apply AuthFacts.CarrierErrorCode_eqb_eq in E. contradiction.
Qed.

(** C5.  When the rating call fails and the failure is (translated to) an
    AUTHENTICATION_ERROR, [execute] calls [invalidateToken()] after the
    call and before it rethrows the error (with the carrier set to UPS),
    and does nothing else.  [invalidateToken] is total and leaves no cached
    token, whatever was cached; so the next [getAccessToken], at any time,
    is not served from the cache: it starts a new credential exchange (when
    one is in flight already, it waits for that one).  Put together on the
    client's own authenticator: a rating call made with a cached, unexpired
    token that fails this way leaves the authenticator without a token, and
    the next [getAccessToken] starts a new exchange. *)
Theorem auth_failure_invalidates_token :
  (forall request token uuid net error,
      net (rating_call request token uuid) = AxiosFail error ->
      code (translateError error) = AUTHENTICATION_ERROR ->
      run (inl token) uuid net (execute request)
      = ([EvGetAccessToken; EvRandomUUID;
          EvPost (rating_call request token uuid); EvInvalidateToken],
         inr (ExnCarrierError (set_carrier "UPS" (translateError error)))))
  /\
  (forall (s : State) (now : Js.number),
      cache (invalidateToken s) = None
      /\ (pendingRefresh s = None ->
          exists s', getAccessToken now (invalidateToken s)
                     = (Started (length (promises s)), s')
                     /\ exchanges s' = S (exchanges s))
      /\ (forall p, pendingRefresh s = Some p ->
                    getAccessToken now (invalidateToken s)
                    = (Joined p, invalidateToken s)))
  /\
  (forall request now oauth uuid net error (s : State) (c : TokenCache),
      cache s = Some c -> Js.lt now (expiresAt c) = true ->
      pendingRefresh s = None ->
      net (rating_call request (accessToken c) uuid) = AxiosFail error ->
      code (translateError error) = AUTHENTICATION_ERROR ->
      Client.run_on_authenticator now oauth uuid net (execute request) s
      = Some (inr (ExnCarrierError (set_carrier "UPS" (translateError error))),
              invalidateToken s)
      /\ forall later,
           exists s', getAccessToken later (invalidateToken s)
                      = (Started (length (promises s)), s')
                      /\ exchanges s' = S (exchanges s)).
Proof.
  split; [|split].
  - intros request token uuid net error Hnet Hcode.
    unfold execute, await_getAccessToken, httpClient_post.
    cbn [try_catch bind run of_result]. rewrite Hnet.
    cbn [post_result of_result try_catch bind on_send_failure].
    rewrite Hcode. reflexivity.
  - intros s now. apply AuthFacts.invalidateToken_then_getAccessToken.
  - intros request now oauth uuid net error s c Hc Hlt Hidle Hnet Hcode.
    split.
    + unfold execute, await_getAccessToken, httpClient_post.
      cbn [try_catch bind Client.run_on_authenticator of_result].
      rewrite (AuthFacts.getAccessToken_valid now s c Hc Hlt).
      cbn [received of_result try_catch bind Client.run_on_authenticator].
      rewrite Hnet.
      cbn [post_result of_result try_catch bind on_send_failure
           Client.run_on_authenticator].
      rewrite Hcode. reflexivity.
    + intro later.
      destruct (AuthFacts.invalidateToken_then_getAccessToken s later)
        as (_ & H & _).
      exact (H Hidle).
Qed.

Lemma auth_failure_invalidates_token_witness :
  Client.run_on_authenticator (Js.of_Z 1000) valid_token_answer "uuid"
    (fun _ => AxiosFail (ExnAxiosError unauthorized_401))
    (execute baseRequest) cached_state
  = Some (inr (ExnCarrierError
                 (set_carrier "UPS" (translateError (ExnAxiosError unauthorized_401)))),
          invalidateToken cached_state)
  /\ exists s', getAccessToken (Js.of_Z 1001) (invalidateToken cached_state)
                = (Started 1, s') /\ exchanges s' = 2.
Proof.
  destruct (proj2 (proj2 auth_failure_invalidates_token)
              baseRequest (Js.of_Z 1000) valid_token_answer "uuid"
              (fun _ => AxiosFail (ExnAxiosError unauthorized_401))
              (ExnAxiosError unauthorized_401) cached_state
              (mkCache "eyJhbGciOiJSUzM4NCIsInR5cCI6IkpXVCJ9.test-token"
                       (Js.sub (Js.add (Js.of_Z 0)
                                  (Js.mul (Js.of_Z 14399) (Js.of_Z 1000)))
                               TOKEN_EXPIRY_BUFFER_MS))
              eq_refl eq_refl eq_refl eq_refl eq_refl) as (Hrun & Hnext).
  split; [exact Hrun | exact (Hnext (Js.of_Z 1001))].
Defined.

End RatingFacts.

(* ================================================================== *)
(** * Further properties of the code                                    *)
(* ================================================================== *)

(** ** The carrier registry *)

Module RegistryFacts.
Import Registry.

Section Clients.
Context {Client : Type}.
Variable name : Client -> string.

Lemma assoc_map_set_same (k : string) (v : Client) (m : t Client) :
  Js.assoc (map_set k v m) k = Some v.
Proof.
  induction m as [|[k' v'] m IH]; cbn [map_set Js.assoc].
  - now rewrite String.eqb_refl.
  - destruct (String.eqb k' k) eqn:E; cbn [Js.assoc].
    + now rewrite String.eqb_refl.
    + now rewrite E.
Qed.

Lemma assoc_map_set_other (k n : string) (v : Client) (m : t Client) :
  n <> k -> Js.assoc (map_set k v m) n = Js.assoc m n.
Proof.
  intro Hne. induction m as [|[k' v'] m IH]; cbn [map_set Js.assoc].
  - destruct (String.eqb_spec k n); [congruence | reflexivity].
  - destruct (String.eqb_spec k' k) as [->|Hk]; cbn [Js.assoc].
    + destruct (String.eqb_spec k n); [congruence | reflexivity].
    + now rewrite IH.
Qed.

(** X1.  After [register(c)] the registry answers [get(c.name)] with [c]
    and [has(c.name)] with true, and answers for every other name as it
    did before. *)
Theorem register_then_get :
  forall (c : Client) (m : t Client) (n : string),
    get (name c) (register name c m) = Some c
    /\ has (name c) (register name c m) = true
    /\ (n <> name c ->
        get n (register name c m) = get n m
        /\ has n (register name c m) = has n m).
Proof.
  intros c m n. unfold get, has, register.
  rewrite assoc_map_set_same. split; [reflexivity|]. split; [reflexivity|].
  intro Hne. now rewrite (assoc_map_set_other _ _ _ _ Hne).
Qed.

Lemma find_app {A} (f : A -> bool) (l1 l2 : list A) :
  find f (l1 ++ l2) = match find f l1 with
                      | Some x => Some x
                      | None => find f l2
                      end.
Proof.
  induction l1 as [|x l1 IH]; cbn [app find]; [reflexivity|].
  now destruct (f x).
Qed.

Lemma get_fold_register (cs : list Client) : forall (m : t Client) (n : string),
  get n (fold_left (fun m c => register name c m) cs m)
  = match find (fun c => String.eqb (name c) n) (rev cs) with
    | Some c => Some c
    | None => get n m
    end.
Proof.
  induction cs as [|c cs IH]; intros m n; cbn [fold_left rev find]; [reflexivity|].
  rewrite IH, find_app. cbn [find].
  destruct (find _ (rev cs)); [reflexivity|].
  unfold get, register.
  destruct (String.eqb_spec (name c) n) as [<-|Hne].
  - apply assoc_map_set_same.
  - apply assoc_map_set_other. congruence.
Qed.

(** X2.  Last write wins: in a registry filled by registering the clients
    of a list in order, [get(n)] is the last client of the list whose name
    is [n], and nothing when the list has none. *)
Theorem last_registration_wins :
  forall (cs : list Client) (n : string),
    get n (registerAll name cs)
    = find (fun c => String.eqb (name c) n) (rev cs).
Proof.
  intros cs n. unfold registerAll. rewrite get_fold_register.
  now destruct (find _ (rev cs)).
Qed.

Lemma map_set_keys (k : string) (v : Client) (m : t Client) :
  forall x, In x (map fst (map_set k v m)) <-> x = k \/ In x (map fst m).
Proof.
  induction m as [|[k' v'] m IH]; intro x; cbn [map_set map fst In].
  - intuition.
  - destruct (String.eqb_spec k' k) as [->|Hk]; cbn [map fst In].
    + intuition.
    + rewrite IH. intuition.
Qed.

Lemma register_well_formed (c : Client) (m : t Client) :
  well_formed name m -> well_formed name (register name c m).
Proof.
  unfold well_formed, register. intros [Hnd Hk].
  induction m as [|[k' v'] m IH]; cbn [map_set].
  - split; repeat constructor. intros [].
  - inversion Hnd as [|? ? Hni Hnd']; subst.
    inversion Hk as [|? ? Hk1 Hk']; subst.
    destruct (String.eqb_spec k' (name c)) as [->|Hne].
    + split; [exact Hnd | constructor; [reflexivity | exact Hk']].
    + destruct (IH Hnd' Hk') as [IH1 IH2].
      split; [|constructor; assumption].
      cbn [map fst]. constructor; [|exact IH1].
      rewrite map_set_keys. intros [E | Hin]; [congruence | contradiction].
Qed.

Lemma registerAll_well_formed (cs : list Client) :
  well_formed name (registerAll name cs).
Proof.
  unfold registerAll.
  assert (forall m, well_formed name m ->
            well_formed name (fold_left (fun m c => register name c m) cs m)) as H.
  { induction cs as [|c cs IH]; intros m Hm; cbn [fold_left]; [exact Hm|].
    apply IH. now apply register_well_formed. }
  apply H. split; constructor.
Qed.

Lemma assoc_In (m : t Client) (k : string) (v : Client) :
  Js.assoc m k = Some v -> In (k, v) m.
Proof.
  induction m as [|[k' v'] m IH]; cbn [Js.assoc]; [discriminate|].
  destruct (String.eqb_spec k' k) as [->|Hne].
  - intros [= ->]. now left.
  - intro H. right. now apply IH.
Qed.

Lemma In_assoc (m : t Client) (k : string) (v : Client) :
  NoDup (map fst m) -> In (k, v) m -> Js.assoc m k = Some v.
Proof.
  induction m as [|[k' v'] m IH]; intros Hnd Hin; [contradiction|].
  inversion Hnd as [|? ? Hni Hnd']; subst. cbn [Js.assoc].
  destruct Hin as [[= -> ->] | Hin].
  - now rewrite String.eqb_refl.
  - destruct (String.eqb_spec k' k) as [->|Hne]; [|now apply IH].
    exfalso. apply Hni. apply in_map_iff. now exists (k, v).
Qed.

(** X3.  [getAll()] of a registry filled by registrations never lists two
    clients of the same name, lists at most as many clients as were
    registered, and lists a client exactly when it is what [get] answers
    for its name. *)
Theorem getAll_has_one_client_per_name :
  forall (cs : list Client),
    NoDup (map name (getAll (registerAll name cs)))
    /\ length (getAll (registerAll name cs)) <= length cs
    /\ forall c, In c (getAll (registerAll name cs))
                 <-> get (name c) (registerAll name cs) = Some c.
Proof.
  intro cs. destruct (registerAll_well_formed cs) as [Hnd Hk].
  assert (map name (getAll (registerAll name cs))
          = map fst (registerAll name cs)) as Hnames.
  { unfold getAll. rewrite map_map. apply map_ext_in.
    intros kv Hin. rewrite Forall_forall in Hk. symmetry. now apply Hk. }
  split; [now rewrite Hnames|]. split.
  - unfold getAll. rewrite length_map.
    assert (incl (map fst (registerAll name cs)) (map name cs)) as Hincl.
    { intros k Hin.
      apply in_map_iff in Hin as ([k' v] & <- & Hin). cbn [fst].
      apply (In_assoc _ _ _ Hnd) in Hin.
      change (get k' (registerAll name cs) = Some v) in Hin.
      unfold registerAll in Hin. rewrite get_fold_register in Hin.
      destruct (find _ (rev cs)) as [c|] eqn:F; [|discriminate].
      injection Hin as ->.
      apply find_some in F as [Hin E].
      apply String.eqb_eq in E. subst k'.
      apply in_map. now apply in_rev. }
    pose proof (NoDup_incl_length Hnd Hincl) as Hlen.
    now rewrite !length_map in Hlen.
  - intro c. unfold getAll, get. split.
    + intro Hin. apply in_map_iff in Hin as ([k v] & Hv & Hin).
      cbn [snd] in Hv. subst v.
      rewrite Forall_forall in Hk. specialize (Hk _ Hin). cbn in Hk. subst k.
      now apply In_assoc.
    + intro H. apply assoc_In in H. apply in_map_iff. now exists (name c, c).
Qed.

End Clients.

End RegistryFacts.

(** ** Routing in the shipping service *)

Module ShippingFacts.
Import Http Service ShippingService.

(** X4.  [getRates] for a name the registry does not have fails with a
    CONFIGURATION_ERROR that is not retryable, carries the name as its
    carrier and has the name in its message.  For a
    registered name it hands on what that carrier's [getRates] settled with:
    its quotes, or its failure unchanged. *)
Theorem getRates_routes_to_registered_carrier :
  forall (reg : registry) (n : string),
    (Registry.has n reg = false ->
       exists e, getRates reg n = inr (ExnCarrierError e)
                 /\ code e = CONFIGURATION_ERROR
                 /\ retryable (details e) = false
                 /\ carrier (details e) = Some n
                 /\ Client.contains n (message e))
    /\
    (forall c, Registry.get n reg = Some c ->
               getRates reg n
               = match c_getRates c with
                 | inl response => inl (Domain.quotes response)
                 | inr reason => inr reason
                 end).
Proof.
  intros reg n. unfold getRates, Registry.has, Registry.get. split.
  - destruct (Js.assoc reg n); [discriminate|]. intros _.
    exists (not_registered n). repeat split.
    exists ("Carrier " ++ dquote)%string, (dquote ++ " is not registered")%string.
    reflexivity.
  - intros c ->. reflexivity.
Qed.

Lemma getRates_routes_to_registered_carrier_witness :
  exists e, getRates (Registry.registerAll c_name Fixtures.registry_with_failing_carrier)
                     "DHL" = inr (ExnCarrierError e)
            /\ code e = CONFIGURATION_ERROR
            /\ carrier (details e) = Some "DHL".
Proof.
  destruct (proj1 (getRates_routes_to_registered_carrier
                     (Registry.registerAll c_name Fixtures.registry_with_failing_carrier)
                     "DHL") eq_refl) as (e & He & Hc & _ & Hn & _).
  exists e. repeat split; assumption.
Defined.

Lemma registerAll_nonempty (c : Carrier) (cs : list Carrier) :
  Registry.registerAll c_name (c :: cs) <> [].
Proof.
  intro H.
  assert (Registry.get (c_name (last (c :: cs) c))
            (Registry.registerAll c_name (c :: cs)) <> None) as Hget.
  { unfold Registry.registerAll. rewrite RegistryFacts.get_fold_register.
    destruct (find _ (rev (c :: cs))) eqn:F; [discriminate|].
    exfalso.
    assert (In (last (c :: cs) c) (rev (c :: cs))) as Hin.
    { apply in_rev. rewrite rev_involutive.
      destruct (exists_last (l := c :: cs)) as (l' & a & E); [discriminate|].
      rewrite E, last_last. apply in_or_app. right. now left. }
    apply (find_none _ _ F) in Hin. now rewrite String.eqb_refl in Hin. }
  rewrite H in Hget. now apply Hget.
Qed.

(** X5.  [shopRates] fails exactly when no carrier was ever registered, and
    then with a CONFIGURATION_ERROR that is not retryable; once a carrier is
    registered it returns a result, whatever the carriers do. *)
Theorem shopRates_fails_only_on_empty_registry :
  forall (cs : list Carrier),
    (cs = [] ->
       exists e, shopRates (Registry.registerAll c_name cs) = inl e
                 /\ code e = CONFIGURATION_ERROR
                 /\ retryable (details e) = false)
    /\ (cs <> [] ->
          exists res, shopRates (Registry.registerAll c_name cs) = inr res).
Proof.
  intro cs. split.
  - intros ->. eexists. repeat split.
  - intro Hne. destruct cs as [|c cs]; [congruence|].
    pose proof (registerAll_nonempty c cs) as Hreg.
    unfold shopRates, Registry.getAll.
    destruct (Registry.registerAll c_name (c :: cs)) as [|kv m];
      [congruence|].
    cbn [map]. rewrite ServiceFacts.shopRates_result. eauto.
Qed.

Lemma shopRates_fails_only_on_empty_registry_witness :
  (exists e, shopRates (Registry.registerAll c_name []) = inl e
             /\ code e = CONFIGURATION_ERROR)
  /\ exists res,
       shopRates (Registry.registerAll c_name Fixtures.registry_with_failing_carrier)
       = inr res.
Proof.
  split.
  - destruct (proj1 (shopRates_fails_only_on_empty_registry []) eq_refl)
      as (e & He & Hc & _).
    exists e. split; assumption.
  - apply (proj2 (shopRates_fails_only_on_empty_registry
                    Fixtures.registry_with_failing_carrier)).
    discriminate.
Defined.



End ShippingFacts.

(** ** Loading the configuration *)

Module ConfigFacts.
Import Config.

(** X7.  [loadConfig] succeeds exactly when UPS_CLIENT_ID and
    UPS_CLIENT_SECRET are both set to non-empty strings, and then takes
    them as they are.  Otherwise it fails with a CONFIGURATION_ERROR, not
    retryable, that names the first of the two that is missing or empty. *)
Theorem loadConfig_requires_credentials :
  forall (env : Env),
    (Js.truthy_ostring (env "UPS_CLIENT_ID") = false ->
       loadConfig env = inl (missing_variable "UPS_CLIENT_ID"))
    /\ (Js.truthy_ostring (env "UPS_CLIENT_ID") = true ->
        Js.truthy_ostring (env "UPS_CLIENT_SECRET") = false ->
        loadConfig env = inl (missing_variable "UPS_CLIENT_SECRET"))
    /\ (Js.truthy_ostring (env "UPS_CLIENT_ID") = true ->
        Js.truthy_ostring (env "UPS_CLIENT_SECRET") = true ->
        exists cfg, loadConfig env = inr cfg
                    /\ Some (clientId (ups cfg)) = env "UPS_CLIENT_ID"
                    /\ Some (clientSecret (ups cfg)) = env "UPS_CLIENT_SECRET"
                    /\ accountNumber (ups cfg) = env "UPS_ACCOUNT_NUMBER")
    /\ (forall e, loadConfig env = inl e ->
                  code e = CONFIGURATION_ERROR
                  /\ retryable (details e) = false).
Proof.
  intro env. unfold loadConfig, requireEnv.
  destruct (Js.truthy_ostring (env "UPS_CLIENT_ID")) eqn:Tid;
    destruct (Js.truthy_ostring (env "UPS_CLIENT_SECRET")) eqn:Tsec;
    (split; [|split; [|split]]);
    try (intros; discriminate); try (intros; reflexivity);
    try (intros e [= <-]; split; reflexivity).
  intros _ _. eexists. split; [reflexivity|].
  cbn [ups clientId clientSecret accountNumber].
  destruct (env "UPS_CLIENT_ID"); [|discriminate].
  destruct (env "UPS_CLIENT_SECRET"); [|discriminate].
  repeat split.
Qed.

Lemma loadConfig_requires_credentials_witness :
  loadConfig Fixtures2.env_without_secret
  = inl (missing_variable "UPS_CLIENT_SECRET")
  /\ exists cfg, loadConfig Fixtures2.env_minimal = inr cfg
                 /\ Some (clientId (ups cfg)) = Some "id-123".
Proof.
  split.
  - exact (proj1 (proj2 (loadConfig_requires_credentials
                           Fixtures2.env_without_secret)) eq_refl eq_refl).
  - destruct (proj1 (proj2 (proj2 (loadConfig_requires_credentials
                                     Fixtures2.env_minimal))) eq_refl eq_refl)
      as (cfg & Hc & Hid & _).
    exists cfg. split; assumption.
Defined.

(** X8.  In a configuration that loads, a variable that is not set and one
    set to the empty string are the same: the base URL, the OAuth URL and
    the log level take their defaults and the timeout is 10000.  A
    non-empty value is taken as it is; the timeout is [parseInt] of its
    text, so it is NaN, not the default, for a text that does not start
    with a number. *)
Theorem loadConfig_defaults :
  forall (env : Env) (cfg : AppConfig),
    loadConfig env = inr cfg ->
    baseUrl (ups cfg)
    = (if Js.truthy_ostring (env "UPS_BASE_URL")
       then match env "UPS_BASE_URL" with Some v => v | None => "" end
       else "https://onlinetools.ups.com/api")
    /\ oauthUrl (ups cfg)
       = (if Js.truthy_ostring (env "UPS_OAUTH_URL")
          then match env "UPS_OAUTH_URL" with Some v => v | None => "" end
          else "https://onlinetools.ups.com/security/v1/oauth/token")
    /\ logLevel cfg
       = (if Js.truthy_ostring (env "LOG_LEVEL")
          then match env "LOG_LEVEL" with Some v => v | None => "" end
          else "info")
    /\ (Js.truthy_ostring (env "REQUEST_TIMEOUT_MS") = false ->
        requestTimeoutMs cfg = Js.of_Z 10000)
    /\ (forall v, env "REQUEST_TIMEOUT_MS" = Some v -> v <> "" ->
                  requestTimeoutMs cfg = Js.parseInt v
                  /\ (Js.parseInt v = Js.NaN -> requestTimeoutMs cfg = Js.NaN)).
Proof.
  intros env cfg. unfold loadConfig.
  destruct (requireEnv env "UPS_CLIENT_ID"); [discriminate|].
  destruct (requireEnv env "UPS_CLIENT_SECRET"); [discriminate|].
  intros [= <-]. cbn [ups baseUrl oauthUrl logLevel requestTimeoutMs].
  assert (forall o d, Http.or_string o d
                      = if Js.truthy_ostring o
                        then match o with Some v => v | None => "" end
                        else d) as Hor.
  { intros [v|] d; cbn; [now destruct (Js.truthy_string v) | reflexivity]. }
  rewrite !Hor.
  split; [reflexivity|]. split; [reflexivity|]. split; [reflexivity|].
  split.
  - now intros ->.
  - intros v Hv Hne. rewrite Hv. cbn [Js.truthy_ostring].
    rewrite (proj2 (UpsFacts.truthy_string_iff v) Hne).
    split; [reflexivity | now intros ->].
Qed.

Lemma loadConfig_defaults_witness :
  exists cfg, loadConfig Fixtures2.env_with_bad_timeout = inr cfg
              /\ baseUrl (ups cfg) = "https://onlinetools.ups.com/api"
              /\ requestTimeoutMs cfg = Js.NaN.
Proof.
  eexists. split; [reflexivity|].
  destruct (loadConfig_defaults Fixtures2.env_with_bad_timeout _ eq_refl)
    as (Hb & _ & _ & _ & Ht).
  split; [exact Hb|].
  exact (proj2 (Ht "ten seconds" eq_refl ltac:(discriminate)) eq_refl).
Defined.

End ConfigFacts.

(** ** More on the HTTP failure translator *)

Module HttpFacts2.
Import Http.

Lemma or_string_default_nonempty (o : option string) (d : string) :
  d <> "" -> or_string o d <> "".
Proof.
  destruct o as [v|]; cbn; intro Hd; [|exact Hd].
  destruct v; cbn; [exact Hd | discriminate].
Qed.

Lemma extracted_message_nonempty body c m :
  extractUpstreamErrors body = Some (c, m) -> c <> "" /\ m <> "".
Proof.
  unfold extractUpstreamErrors.
  destruct body as [b|]; [|discriminate].
  destruct (response b) as [env|]; [|discriminate].
  destruct (errors env) as [[|e0 rest]|]; try discriminate.
  intros [= <- <-]. split; apply or_string_default_nonempty; discriminate.
Qed.

(** X9.  [extractUpstreamErrors] finds nothing exactly when the body, its
    [response], its [errors] or the first element of [errors] is missing.
    When it finds a record, neither the code nor the message it returns is
    empty: a missing or empty code becomes "UNKNOWN", a missing or empty
    message "Unknown carrier error", anything else is kept. *)
Theorem extractUpstreamErrors_never_empty :
  forall (body : option ErrorBody),
    (extractUpstreamErrors body = None <->
       ~ exists b env e0 rest,
           body = Some b /\ response b = Some env
           /\ errors env = Some (e0 :: rest))
    /\ (forall c m, extractUpstreamErrors body = Some (c, m) ->
                    c <> "" /\ m <> "")
    /\ (forall b env e0 rest,
           body = Some b -> response b = Some env ->
           errors env = Some (e0 :: rest) ->
           extractUpstreamErrors body
           = Some (if Js.truthy_ostring (ue_code e0)
                   then match ue_code e0 with Some c => c | None => "" end
                   else "UNKNOWN",
                   if Js.truthy_ostring (ue_message e0)
                   then match ue_message e0 with Some m => m | None => "" end
                   else "Unknown carrier error")).
Proof.
  intro body.
  assert (forall o d, or_string o d
                      = if Js.truthy_ostring o
                        then match o with Some v => v | None => "" end
                        else d) as Hor.
  { intros [v|] d; cbn; [now destruct (Js.truthy_string v) | reflexivity]. }
  unfold extractUpstreamErrors. split; [|split].
  - destruct body as [b|]; [destruct (response b) as [env|] eqn:Hr;
      [destruct (errors env) as [[|e0 rest]|] eqn:He|]|];
      split; try discriminate; try reflexivity;
      try (intros _ (b' & env' & e' & r' & H1 & H2 & H3); congruence).
    intro H. exfalso. apply H. exists b, env, e0, rest. auto.
  - intros c m. apply extracted_message_nonempty.
  - intros b env e0 rest -> -> ->. now rewrite !Hor.
Qed.

Lemma extractUpstreamErrors_never_empty_witness :
  extractUpstreamErrors
    (Some (mkBody (Some (mkEnvelope (Some [mkUpstreamError (Some "") None])))))
  = Some ("UNKNOWN", "Unknown carrier error").
Proof.
  exact (proj2 (proj2 (extractUpstreamErrors_never_empty _))
           (mkBody (Some (mkEnvelope (Some [mkUpstreamError (Some "") None]))))
           (mkEnvelope (Some [mkUpstreamError (Some "") None]))
           (mkUpstreamError (Some "") None) []
           eq_refl eq_refl eq_refl).
Defined.

(** X10.  For an axios error the translation is not retryable in one case
    only: there is a response, the error code is no timeout code, and the
    status is below 500 and neither 401 nor 429.  The HTTP status is
    recorded exactly when there is a response and the code is no timeout
    code; the carrier is never set; and the message is never empty. *)
Theorem axios_error_retryability :
  forall (ax : AxiosError),
    let e := translateError (ExnAxiosError ax) in
    (retryable (details e) = false <->
       is_timeout_code (ax_code ax) = false
       /\ exists resp, ax_response ax = Some resp
                       /\ (status resp < 500)%Z
                       /\ status resp <> 401%Z /\ status resp <> 429%Z)
    /\ (httpStatus (details e)
        = if is_timeout_code (ax_code ax) then None
          else option_map status (ax_response ax))
    /\ carrier (details e) = None
    /\ message e <> "".
Proof.
  intros ax e. unfold e. cbn [translateError].
  destruct (is_timeout_code (ax_code ax)).
  { split; [split; [discriminate | now intros [H _]]|].
    split; [reflexivity|]. split; [reflexivity | discriminate]. }
  destruct (ax_response ax) as [resp|].
  2:{ split; [split; [discriminate | now intros (_ & r & H & _)]|].
      split; [reflexivity|]. split; [reflexivity | discriminate]. }
  destruct (Z.eqb_spec (status resp) 401) as [E1|E1].
  { split; [split; [discriminate|]|].
    - intros (_ & r & [= <-] & _ & H & _). contradiction.
    - split; [reflexivity|]. split; [reflexivity | discriminate]. }
  destruct (Z.eqb_spec (status resp) 403) as [E3|E3].
  { split; [split|].
    - intros _. split; [reflexivity|]. exists resp. repeat split; lia.
    - reflexivity.
    - split; [reflexivity|]. split; [reflexivity | discriminate]. }
  destruct (Z.eqb_spec (status resp) 429) as [E9|E9].
  { split; [split; [discriminate|]|].
    - intros (_ & r & [= <-] & _ & _ & H). contradiction.
    - split; [reflexivity|]. split; [reflexivity | discriminate]. }
  cbn [newCarrierError details retryable httpStatus carrier message
       p_retryable p_httpStatus p_carrier option_map].
  split; [|split; [reflexivity | split; [reflexivity|]]].
  - rewrite Z.leb_gt. split.
    + intro H. split; [reflexivity|]. exists resp. auto.
    + now intros (_ & r & [= <-] & H & _).
  - destruct (extractUpstreamErrors (data resp)) as [[c m]|] eqn:X;
      cbn [option_map snd or_string].
    + destruct (extracted_message_nonempty _ c m X) as [_ Hm].
      destruct m; [congruence | discriminate].
    + discriminate.
Qed.

End HttpFacts2.

(** ** More on the token manager *)

Module AuthMachineFacts.
Import Http Auth AuthMachine.

Lemma set_nth_last {A} (l : list A) (x y : A) :
  set_nth (length l) y (l ++ [x]) = l ++ [y].
Proof. induction l as [|h t IH]; cbn; [reflexivity | now rewrite IH]. Qed.

Lemma nth_error_last {A} (l : list A) (x : A) :
  nth_error (l ++ [x]) (length l) = Some x.
Proof. rewrite nth_error_app2 by lia. now rewrite Nat.sub_diag. Qed.

Lemma step_keeps_invariant (e : Event) (s : State) :
  invariant s -> invariant (step e s).
Proof.
  intros [Hx Hp]. destruct e as [now|now o| |]; cbn [step].
  - unfold getAccessToken, refresh.
    assert (invariant
              (snd (match pendingRefresh s with
                    | Some p => (Joined p, s)
                    | None =>
                        (Started (length (promises s)),
                         mkState (cache s) (Some (length (promises s)))
                                 (promises s ++ [Pending]) (S (exchanges s)))
                    end))) as Hr.
    { destruct (pendingRefresh s) as [p|] eqn:E; cbn [snd].
      - split; [exact Hx|]. now rewrite E.
      - split; cbn [exchanges promises pendingRefresh].
        + rewrite length_app. cbn. lia.
        + exists (promises s), Pending. auto. }
    destruct (cache s) as [c|]; [|exact Hr].
    destruct (Js.lt now (expiresAt c)); [|exact Hr].
    cbn [snd]. now split.
  - unfold settle. destruct (pendingRefresh s) as [p|] eqn:E; [|now split; [|rewrite E]].
    destruct Hp as (l & x & Hl & -> & Hall).
    rewrite Hl, nth_error_last.
    destruct x as [|o']; [|split; [exact Hx | rewrite E; exists l, (Settled o'); auto]].
    destruct (fetchToken now o (cache s)) as [out c].
    split; cbn [exchanges promises pendingRefresh].
    + rewrite set_nth_last, length_app. rewrite Hx, Hl, length_app. reflexivity.
    + exists l, (Settled out). rewrite set_nth_last. auto.
  - unfold finally_when_settled.
    destruct (pendingRefresh s) as [p|] eqn:E; [|now split; [|rewrite E]].
    destruct Hp as (l & x & Hl & -> & Hall).
    rewrite Hl, nth_error_last.
    destruct x as [|o']; [split; [exact Hx | rewrite E; exists l, Pending; auto]|].
    split; cbn [finally exchanges promises pendingRefresh]; [exact Hx|].
    rewrite Hl. apply Forall_app. split; [exact Hall|].
    constructor; [discriminate | constructor].
  - split; [exact Hx | exact Hp].
Qed.

Lemma steps_keep_invariant (es : list Event) :
  forall s, invariant s -> invariant (steps es s).
Proof.
  induction es as [|e es IH]; intros s Hs; cbn [steps]; [exact Hs|].
  apply IH. now apply step_keeps_invariant.
Qed.

Lemma count_settled (l : list PromiseState) :
  Forall (fun p => p <> Pending) l ->
  filter (fun p => match p with Pending => true | Settled _ => false end) l = [].
Proof.
  induction 1 as [|p l Hp _ IH]; [reflexivity|].
  cbn [filter]. destruct p; [congruence | exact IH].
Qed.

(** X11.  Whatever calls, settlements, [finally] blocks and invalidations
    an authenticator goes through from its creation, in whatever order:
    there is never more than one credential exchange outstanding, there is
    none when no refresh is pending, and every exchange ever started has its
    own promise. *)
Theorem at_most_one_exchange_outstanding :
  forall (es : list Event),
    let s := steps es initial in
    outstanding s <= 1
    /\ (pendingRefresh s = None -> outstanding s = 0)
    /\ exchanges s = length (promises s).
Proof.
  intros es s.
  assert (invariant s) as [Hx Hp].
  { apply steps_keep_invariant. split; [reflexivity | constructor]. }
  unfold outstanding. split; [|split; [|exact Hx]].
  - destruct (pendingRefresh s) as [p|].
    + destruct Hp as (l & x & -> & _ & Hall).
      rewrite filter_app, (count_settled l Hall). cbn [app filter].
      destruct x; cbn; lia.
    + rewrite (count_settled _ Hp). cbn. lia.
  - intro E. rewrite E in Hp. now rewrite (count_settled _ Hp).
Qed.

(** X12.  A token obtained at time [t] with [expires_in = e] is served from
    the cache, with no exchange, at every time before
    [t + e * 1000 - 60000], and from that instant on it is not: the next
    call starts a new exchange. *)
Theorem token_reuse_window :
  forall (s : State) (p : nat) (t e t' : Z) (status : Z) (tok es : string),
    pendingRefresh s = Some p -> nth_error (promises s) p = Some Pending ->
    Js.truthy_string tok = true -> Js.parseInt es = Js.of_Z e ->
    let s' := finally (settle (Js.of_Z t)
                         (AxiosOk status (Some (mkOAuth (Some tok) (Some es)))) s) in
    ((t' < t + e * 1000 - 60000)%Z ->
       getAccessToken (Js.of_Z t') s' = (FromCache tok, s'))
    /\ ((t + e * 1000 - 60000 <= t')%Z ->
        exists s'', getAccessToken (Js.of_Z t') s'
                    = (Started (length (promises s')), s'')
                    /\ exchanges s'' = S (exchanges s')).
Proof.
  intros s p t e t' status tok es Hp Hn Ht He s'.
  assert (cache s' = Some (mkCache tok
            (Js.sub (Js.add (Js.of_Z t) (Js.mul (Js.of_Z e) (Js.of_Z 1000)))
                    TOKEN_EXPIRY_BUFFER_MS))) as Hc.
  { unfold s'. rewrite (AuthFacts.settle_in_flight _ _ _ _ Hp Hn).
    rewrite (AuthFacts.fetchToken_success _ _ _ _ _ Ht), He. reflexivity. }
  destruct (JsFacts.expiry_arith t e) as (q & Hq & Hv).
  unfold TOKEN_EXPIRY_BUFFER_MS in Hc. rewrite Hq in Hc.
  split.
  - intro Hlt.
    rewrite (AuthFacts.getAccessToken_valid (Js.of_Z t') s' _ Hc); [reflexivity|].
    cbn [expiresAt]. rewrite (JsFacts.lt_finite_of_Z q t' _ Hv).
    now apply Z.ltb_lt.
  - intro Hge.
    assert (cache_valid (cache s') (Js.of_Z t') = false) as Hinv.
    { rewrite Hc. cbn [cache_valid expiresAt].
      rewrite (JsFacts.lt_finite_of_Z q t' _ Hv). now apply Z.ltb_ge. }
    rewrite (AuthFacts.getAccessToken_invalid _ _ Hinv).
    rewrite AuthFacts.refresh_idle by reflexivity.
    eexists; split; reflexivity.
Qed.

Lemma token_reuse_window_witness :
  getAccessToken (Js.of_Z 14338999) Fixtures.cached_state
  = (FromCache "eyJhbGciOiJSUzM4NCIsInR5cCI6IkpXVCJ9.test-token",
     Fixtures.cached_state)
  /\ exists s'', getAccessToken (Js.of_Z 14339000) Fixtures.cached_state
                 = (Started 1, s'') /\ exchanges s'' = 2.
Proof.
  destruct (token_reuse_window (snd (getAccessToken (Js.of_Z 0) initial)) 0
              0%Z 14399%Z 14338999%Z 200%Z
              "eyJhbGciOiJSUzM4NCIsInR5cCI6IkpXVCJ9.test-token" "14399"
              eq_refl eq_refl eq_refl eq_refl) as (H1 & _).
  destruct (token_reuse_window (snd (getAccessToken (Js.of_Z 0) initial)) 0
              0%Z 14399%Z 14339000%Z 200%Z
              "eyJhbGciOiJSUzM4NCIsInR5cCI6IkpXVCJ9.test-token" "14399"
              eq_refl eq_refl eq_refl eq_refl) as (_ & H2).
  split; [exact (H1 ltac:(lia)) | exact (H2 ltac:(lia))].
Defined.

Lemma expiry_of_NaN (now : Js.number) :
  Js.sub (Js.add now (Js.mul Js.NaN (Js.of_Z 1000))) TOKEN_EXPIRY_BUFFER_MS = Js.NaN.
Proof. now destruct now. Qed.

(** X13.  When the token response has no [expires_in], or one that does not
    start with a number, the exchange still succeeds and every waiting
    caller gets the token, but the cached entry expires at NaN: no later
    call, at whatever time, is served from the cache. *)
Theorem token_without_expiry_is_never_reused :
  forall (s : State) (p : nat) (now : Js.number) (status : Z)
         (tok : string) (es : option string),
    pendingRefresh s = Some p -> nth_error (promises s) p = Some Pending ->
    Js.truthy_string tok = true -> Js.parseInt_opt es = Js.NaN ->
    let s' := settle now (AxiosOk status (Some (mkOAuth (Some tok) es))) s in
    received (Joined p) s' = Some (inl tok)
    /\ cache s' = Some (mkCache tok Js.NaN)
    /\ forall later, cache_valid (cache s') later = false
                     /\ cache_valid (cache (finally s')) later = false.
Proof.
  intros s p now status tok es Hp Hn Ht He s'.
  assert (fetchToken now (AxiosOk status (Some (mkOAuth (Some tok) es))) (cache s)
          = (inl tok, Some (mkCache tok Js.NaN))) as Hf.
  { unfold fetchToken. cbn [post_result r_data access_token expires_in
                            Js.truthy_ostring].
    rewrite Ht, He. cbn [negb]. now rewrite expiry_of_NaN. }
  assert (p < length (promises s)) as Hlt.
  { apply nth_error_Some. congruence. }
  unfold s'. rewrite (AuthFacts.settle_in_flight _ _ _ _ Hp Hn), Hf.
  cbn [fst snd received promises cache finally].
  rewrite (AuthFacts.nth_error_set_nth _ _ _ Hlt).
  repeat split; cbn [cache_valid expiresAt]; now destruct later.
Qed.

Lemma token_without_expiry_is_never_reused_witness :
  let s' := settle (Js.of_Z 0)
              (AxiosOk 200 (Some (mkOAuth (Some "tok") (Some "soon"))))
              (snd (getAccessToken (Js.of_Z 0) initial)) in
  received (Joined 0) s' = Some (inl "tok")
  /\ cache_valid (cache s') (Js.of_Z 1) = false.
Proof.
  intro s'.
  destruct (token_without_expiry_is_never_reused
              (snd (getAccessToken (Js.of_Z 0) initial)) 0 (Js.of_Z 0) 200%Z
              "tok" (Some "soon") eq_refl eq_refl eq_refl eq_refl)
    as (H1 & _ & H3).
  split; [exact H1 | exact (proj1 (H3 (Js.of_Z 1)))].
Defined.

(** X14.  A refresh that fails is not remembered: it leaves the cache as it
    was, and once the [finally] block has run the next call that finds no
    usable token starts a new exchange. *)
Theorem failed_refresh_is_retried :
  forall (s : State) (p : nat) (now later : Js.number)
         (o : AxiosResult TokenData) (e : CarrierError),
    pendingRefresh s = Some p -> nth_error (promises s) p = Some Pending ->
    fst (fetchToken now o (cache s)) = inr e ->
    cache_valid (cache s) later = false ->
    let s' := finally (settle now o s) in
    cache s' = cache s
    /\ received (Joined p) s' = Some (inr e)
    /\ exists s'', getAccessToken later s' = (Started (length (promises s')), s'')
                   /\ exchanges s'' = S (exchanges s).
Proof.
  intros s p now later o e Hp Hn He Hinv s'.
  assert (snd (fetchToken now o (cache s)) = cache s) as Hs.
  { revert He. unfold fetchToken.
    destruct (post_result o) as [resp|err]; [|reflexivity].
    destruct (r_data resp) as [d|]; [|reflexivity].
    destruct (negb (Js.truthy_ostring (access_token d))); [reflexivity|].
    discriminate. }
  assert (p < length (promises s)) as Hlt.
  { apply nth_error_Some. congruence. }
  assert (cache s' = cache s) as Hc.
  { unfold s'. rewrite (AuthFacts.settle_in_flight _ _ _ _ Hp Hn). exact Hs. }
  split; [exact Hc|]. split.
  - unfold s'. rewrite (AuthFacts.settle_in_flight _ _ _ _ Hp Hn).
    cbn [received finally promises].
    now rewrite (AuthFacts.nth_error_set_nth _ _ _ Hlt), He.
  - rewrite AuthFacts.getAccessToken_invalid by now rewrite Hc.
    rewrite AuthFacts.refresh_idle by reflexivity.
    eexists. split; [reflexivity|].
    unfold s'. rewrite (AuthFacts.settle_in_flight _ _ _ _ Hp Hn). reflexivity.
Qed.

Lemma failed_refresh_is_retried_witness :
  let s' := finally (settle (Js.of_Z 0) Fixtures.connection_refused
                       (snd (getAccessToken (Js.of_Z 0) initial))) in
  cache s' = None
  /\ exists s'', getAccessToken (Js.of_Z 1) s' = (Started 1, s'')
                 /\ exchanges s'' = 2.
Proof.
  intro s'.
  destruct (failed_refresh_is_retried
              (snd (getAccessToken (Js.of_Z 0) initial)) 0 (Js.of_Z 0) (Js.of_Z 1)
              Fixtures.connection_refused
              (wrap_auth_failure "Network error: Connection refused")
              eq_refl eq_refl eq_refl eq_refl) as (H1 & _ & H3).
  split; [exact H1 | exact H3].
Defined.

(** X15.  [invalidateToken] does not cancel a refresh in flight: callers
    waiting on it are served as if nothing had happened, and when the
    exchange succeeds its token is cached all the same.  Invalidating twice
    is invalidating once, and invalidating starts no exchange. *)
Theorem invalidation_does_not_cancel_refresh :
  forall (s : State) (p : nat) (now : Js.number) (status : Z)
         (tok : string) (es : option string),
    pendingRefresh s = Some p -> nth_error (promises s) p = Some Pending ->
    Js.truthy_string tok = true ->
    let o := AxiosOk status (Some (mkOAuth (Some tok) es)) in
    settle now o (invalidateToken s) = settle now o s
    /\ received (Joined p) (settle now o (invalidateToken s)) = Some (inl tok)
    /\ (exists c, cache (settle now o (invalidateToken s)) = Some c
                  /\ accessToken c = tok)
    /\ invalidateToken (invalidateToken s) = invalidateToken s
    /\ exchanges (invalidateToken s) = exchanges s
    /\ pendingRefresh (invalidateToken s) = Some p.
Proof.
  intros s p now status tok es Hp Hn Ht o.
  assert (forall old, fetchToken now o old
                      = (inl tok,
                         Some (mkCache tok
                                 (Js.sub (Js.add now
                                            (Js.mul (Js.parseInt_opt es) (Js.of_Z 1000)))
                                         TOKEN_EXPIRY_BUFFER_MS)))) as Hf.
  { intro old. unfold o, fetchToken.
    cbn [post_result r_data access_token expires_in Js.truthy_ostring].
    now rewrite Ht. }
  assert (p < length (promises s)) as Hlt.
  { apply nth_error_Some. congruence. }
  assert (settle now o (invalidateToken s) = settle now o s) as Heq.
  { unfold settle. cbn [invalidateToken pendingRefresh promises cache exchanges].
    rewrite Hp, Hn, !Hf. reflexivity. }
  rewrite Heq, (AuthFacts.settle_in_flight _ _ _ _ Hp Hn), Hf.
  cbn [fst snd received promises cache].
  rewrite (AuthFacts.nth_error_set_nth _ _ _ Hlt).
  repeat split; try assumption. eexists. split; reflexivity.
Qed.

Lemma invalidation_does_not_cancel_refresh_witness :
  let s := snd (getAccessToken (Js.of_Z 0) initial) in
  (exists c, cache (settle (Js.of_Z 5) Fixtures.valid_token_answer (invalidateToken s))
             = Some c
             /\ accessToken c = "eyJhbGciOiJSUzM4NCIsInR5cCI6IkpXVCJ9.test-token")
  /\ exchanges (invalidateToken s) = 1.
Proof.
  intro s.
  destruct (invalidation_does_not_cancel_refresh s 0 (Js.of_Z 5) 200%Z
              "eyJhbGciOiJSUzM4NCIsInR5cCI6IkpXVCJ9.test-token" (Some "14399")
              eq_refl eq_refl eq_refl) as (_ & _ & H3 & _ & H5 & _).
  split; [exact H3 | exact H5].
Defined.

(** X27.  While the cached token is unexpired, any number of calls, at
    whatever times before the expiry, are all answered with the cached token
    and leave the authenticator exactly as it was: no exchange is started
    and no promise is made. *)
Theorem cached_token_serves_every_call :
  forall (s : State) (c : TokenCache) (times : list Js.number),
    cache s = Some c ->
    Forall (fun t => Js.lt t (expiresAt c) = true) times ->
    calls times s = (map (fun _ => FromCache (accessToken c)) times, s)
    /\ steps (map Call times) s = s.
Proof.
  intros s c times Hc Hall. induction Hall as [|t ts Ht _ [IH1 IH2]].
  - split; reflexivity.
  - cbn [calls map steps step].
    rewrite (AuthFacts.getAccessToken_valid t s c Hc Ht), IH1.
    cbn [snd]. split; [reflexivity | exact IH2].
Qed.

Lemma cached_token_serves_every_call_witness :
  calls Fixtures.burst_times Fixtures.cached_state
  = (map (fun _ => FromCache "eyJhbGciOiJSUzM4NCIsInR5cCI6IkpXVCJ9.test-token")
         Fixtures.burst_times,
     Fixtures.cached_state).
Proof.
  refine (proj1 (cached_token_serves_every_call Fixtures.cached_state _
                   Fixtures.burst_times eq_refl _)).
  repeat constructor.
Defined.

End AuthMachineFacts.

(** ** More on the mapper *)

Module MapperFacts.
Import Ups.

Lemma packages_of_built request :
  Wire.packages_of (Package (Shipment (RateRequest (buildUpsRateRequest request))))
  = map mapPackageToUps (Domain.packages request).
Proof.
  cbn [buildUpsRateRequest RateRequest Shipment Package].
  destruct (map mapPackageToUps (Domain.packages request)) as [|p [|p' ps]];
    reflexivity.
Qed.

(** X16.  Whatever the number of packages (none, one, many), the packages
    of the wire request are the packages of the request, mapped one by one,
    in the same order and the same number.  Each wire package carries the
    weight's number as it is, has dimensions exactly when the package has,
    and its unit code is read back by the inbound table as the unit the
    package had. *)
Theorem wire_packages_are_the_request_packages :
  forall (request : Domain.RateRequest),
    let sent := Wire.packages_of
                  (Package (Shipment (RateRequest (buildUpsRateRequest request)))) in
    sent = map mapPackageToUps (Domain.packages request)
    /\ length sent = length (Domain.packages request)
    /\ forall i p,
         nth_error (Domain.packages request) i = Some p ->
         exists w,
           nth_error sent i = Some w
           /\ Js.lookup UPS_WEIGHT_UNIT_TO_DOMAIN
                (Code (pw_UnitOfMeasurement (PackageWeight w)))
              = Some (Js.Value (Domain.unit (Domain.weight p)))
           /\ pw_Weight (PackageWeight w) = Js.ToString (Domain.value (Domain.weight p))
           /\ (Dimensions w = None <-> Domain.dimensions p = None).
Proof.
  intros request sent. unfold sent. rewrite packages_of_built.
  split; [reflexivity|]. split; [apply length_map|].
  intros i p Hp. exists (mapPackageToUps p). split.
  - now apply map_nth_error.
  - cbn [mapPackageToUps PackageWeight mapWeightToUps pw_UnitOfMeasurement Code
         pw_Weight Dimensions].
    split; [now destruct (Domain.unit (Domain.weight p))|].
    split; [reflexivity|].
    destruct (Domain.dimensions p); cbn; split; congruence.
Qed.

Lemma service_names_nonempty (c n : string) :
  Js.assoc UPS_SERVICE_CODES c = Some n -> n <> "".
Proof.
  unfold UPS_SERVICE_CODES. cbn [Js.assoc].
  repeat match goal with
         | |- context [String.eqb ?a c] => destruct (String.eqb a c)
         end;
    intro H; inversion H; discriminate.
Qed.

Lemma quote_of_rated rated q :
  mapUpsRatedShipmentToQuote rated = inr q ->
  Domain.carrier q = "UPS"
  /\ Domain.q_serviceCode q = Code (r_Service rated)
  /\ Domain.serviceName q = serviceName_of rated
  /\ Domain.guaranteedDelivery q
     = Some (match GuaranteedDelivery rated with Some _ => true | None => false end)
  /\ Domain.estimatedDeliveryDays q = estimatedDeliveryDays_of rated
  /\ Domain.warnings q = option_map (map al_Description) (RatedShipmentAlert rated).
Proof.
  unfold mapUpsRatedShipmentToQuote.
  destruct (Js.lookup _ _); [|discriminate].
  intro H. inversion H. cbn. repeat split; reflexivity.
Qed.

(** X17.  The service name of a quote: the description UPS sent when it is
    not empty; else the name the table of service codes has for the code;
    else, for a code that neither the table nor [Object.prototype] has,
    "UPS Service " followed by the code.  It is never the empty string.  The
    quote's carrier is "UPS" and its service code is the record's. *)
Theorem quote_service_name_fallback :
  forall (rated : UpsRatedShipment) (q : Domain.RateQuote),
    mapUpsRatedShipmentToQuote rated = inr q ->
    let code := Code (r_Service rated) in
    Domain.carrier q = "UPS"
    /\ Domain.q_serviceCode q = code
    /\ (forall d, Description (r_Service rated) = Some d -> d <> "" ->
                  Domain.serviceName q = Js.Value d)
    /\ (Js.truthy_ostring (Description (r_Service rated)) = false ->
        (forall n, Js.assoc UPS_SERVICE_CODES code = Some n ->
                   Domain.serviceName q = Js.Value n)
        /\ (Js.lookup UPS_SERVICE_CODES code = None ->
            Domain.serviceName q = Js.Value ("UPS Service " ++ code)%string))
    /\ Domain.serviceName q <> Js.Value "".
Proof.
  intros rated q Hq code.
  destruct (quote_of_rated rated q Hq) as (Hc & Hs & Hn & _).
  split; [exact Hc|]. split; [exact Hs|]. rewrite Hn. unfold serviceName_of.
  fold code. split; [|split].
  - intros d Hd Hne. rewrite Hd. cbn [Js.truthy_ostring].
    destruct d; [congruence | reflexivity].
  - intro Hf. rewrite Hf. split.
    + intros n Hl. unfold Js.lookup. rewrite Hl.
      pose proof (service_names_nonempty _ _ Hl) as Hne.
      destruct n; [congruence | reflexivity].
    + intro Hl. now rewrite Hl.
  - destruct (Js.truthy_ostring (Description (r_Service rated))) eqn:Ht.
    + destruct (Description (r_Service rated)) as [[|a d]|]; cbn in Ht;
        discriminate.
    + unfold Js.lookup.
      destruct (Js.assoc UPS_SERVICE_CODES code) as [n|] eqn:Hl.
      * pose proof (service_names_nonempty _ _ Hl) as Hne.
        destruct n; [congruence|]. cbn. intro H; inversion H.
      * destruct (existsb _ _); cbn; intro H; inversion H.
Qed.

Lemma quote_service_name_fallback_witness :
  exists q, mapUpsRatedShipmentToQuote Fixtures2.rated_with_unlisted_service = inr q
            /\ Domain.serviceName q = Js.Value "UPS Service 99".
Proof.
  eexists. split; [reflexivity|].
  exact (proj2 (proj1 (proj2 (proj2 (proj2
           (quote_service_name_fallback Fixtures2.rated_with_unlisted_service _
              eq_refl)))) eq_refl) eq_refl).
Defined.

Lemma unit_lookup_none (c : string) :
  Js.lookup UPS_WEIGHT_UNIT_TO_DOMAIN c = None
  <-> c <> "LBS" /\ c <> "KGS" /\ c <> "OZS" /\ ~ In c Js.object_prototype_keys.
Proof.
  unfold Js.lookup, UPS_WEIGHT_UNIT_TO_DOMAIN. cbn [Js.assoc].
  destruct (String.eqb_spec "LBS" c) as [<-|H1];
    [split; [discriminate | intros (H & _); congruence]|].
  destruct (String.eqb_spec "KGS" c) as [<-|H2];
    [split; [discriminate | intros (_ & H & _); congruence]|].
  destruct (String.eqb_spec "OZS" c) as [<-|H3];
    [split; [discriminate | intros (_ & _ & H & _); congruence]|].
  destruct (existsb (String.eqb c) Js.object_prototype_keys) eqn:X.
  - split; [discriminate|]. intros (_ & _ & _ & Hn). exfalso. apply Hn.
    apply existsb_exists in X. destruct X as (k & Hin & Hk).
    apply String.eqb_eq in Hk. now subst.
  - split; [|reflexivity]. intros _. repeat split; try congruence.
    intro Hin. assert (existsb (String.eqb c) Js.object_prototype_keys = true).
    { apply existsb_exists. exists c. split; [exact Hin | apply String.eqb_refl]. }
    congruence.
Qed.

(** X18.  [mapUpsRatedShipmentToQuote] fails exactly when the billing-weight
    unit code is none of "LBS", "KGS", "OZS" and no name of a member of
    [Object.prototype].  The failure is a PARSE_ERROR of carrier "UPS", not
    retryable, with no HTTP status, and its message ends in the code. *)
Theorem mapper_fails_exactly_on_unknown_unit :
  forall (rated : UpsRatedShipment),
    let c := Code (bw_UnitOfMeasurement (BillingWeight rated)) in
    ((exists e, mapUpsRatedShipmentToQuote rated = inl e)
     <-> c <> "LBS" /\ c <> "KGS" /\ c <> "OZS"
         /\ ~ In c Js.object_prototype_keys)
    /\ forall e, mapUpsRatedShipmentToQuote rated = inl e ->
                 code e = PARSE_ERROR
                 /\ carrier (details e) = Some "UPS"
                 /\ retryable (details e) = false
                 /\ httpStatus (details e) = None
                 /\ message e = ("Unknown UPS weight unit: " ++ c)%string.
Proof.
  intros rated c. split.
  - rewrite <- unit_lookup_none. unfold mapUpsRatedShipmentToQuote. fold c.
    destruct (Js.lookup UPS_WEIGHT_UNIT_TO_DOMAIN c).
    + split; [intros (e & He); discriminate | discriminate].
    + split; [reflexivity | intros _; eexists; reflexivity].
  - unfold mapUpsRatedShipmentToQuote. fold c.
    destruct (Js.lookup UPS_WEIGHT_UNIT_TO_DOMAIN c); [discriminate|].
    intros e He. inversion He. repeat split; reflexivity.
Qed.

(** X19.  The delivery estimate of a quote.  [guaranteedDelivery] is true
    exactly when the record has a [GuaranteedDelivery].  The number of days
    is read from the guaranteed delivery when that has a non-empty
    [BusinessDaysInTransit], even when the text is no number (the estimate
    is then NaN, and the time-in-transit summary is not consulted); else
    from the summary, when that has a non-empty one; and it is absent
    exactly when both are missing or empty. *)
Theorem delivery_estimate_priority :
  forall (rated : UpsRatedShipment) (q : Domain.RateQuote),
    mapUpsRatedShipmentToQuote rated = inr q ->
    (Domain.guaranteedDelivery q = Some true <-> GuaranteedDelivery rated <> None)
    /\ (Domain.guaranteedDelivery q = Some false <-> GuaranteedDelivery rated = None)
    /\ (forall d, Wire.guaranteed_days rated = Some d -> d <> "" ->
                  Domain.estimatedDeliveryDays q = Some (Js.parseInt d))
    /\ (forall d, Js.truthy_ostring (Wire.guaranteed_days rated) = false ->
                  Wire.transit_days rated = Some d -> d <> "" ->
                  Domain.estimatedDeliveryDays q = Some (Js.parseInt d))
    /\ (Domain.estimatedDeliveryDays q = None
        <-> Js.truthy_ostring (Wire.guaranteed_days rated) = false
            /\ Js.truthy_ostring (Wire.transit_days rated) = false).
Proof.
  intros rated q Hq.
  destruct (quote_of_rated rated q Hq) as (_ & _ & _ & Hg & He & _).
  rewrite Hg, He. unfold estimatedDeliveryDays_of.
  fold (Wire.guaranteed_days rated). fold (Wire.transit_days rated).
  split; [|split; [|split; [|split]]].
  - destruct (GuaranteedDelivery rated); split; congruence.
  - destruct (GuaranteedDelivery rated); split; congruence.
  - intros d Hd Hne. rewrite Hd. cbn [Js.truthy_ostring].
    destruct d; [congruence | reflexivity].
  - intros d Hf Hd Hne. rewrite Hf, Hd. cbn [Js.truthy_ostring].
    destruct d; [congruence | reflexivity].
  - destruct (Js.truthy_ostring (Wire.guaranteed_days rated));
      [split; [discriminate | intros (H & _); discriminate]|].
    destruct (Js.truthy_ostring (Wire.transit_days rated));
      [split; [discriminate | intros (_ & H); discriminate]|].
    split; auto.
Qed.

Lemma delivery_estimate_priority_witness :
  exists q, mapUpsRatedShipmentToQuote Fixtures2.rated_guaranteed_without_number = inr q
            /\ Domain.guaranteedDelivery q = Some true
            /\ Domain.estimatedDeliveryDays q = Some Js.NaN.
Proof.
  eexists. split; [reflexivity|].
  destruct (delivery_estimate_priority Fixtures2.rated_guaranteed_without_number _
              eq_refl) as (H1 & _ & H3 & _).
  split; [apply H1; discriminate | exact (H3 "soon" eq_refl ltac:(discriminate))].
Defined.

End MapperFacts.

(** ** More on the rating operation *)

Module ExecuteFacts.
Import Http Auth Ups Rating.

Lemma map_quotes_inr rs : forall qs,
  map_quotes rs = inr qs ->
  Forall2 (fun rated q => mapUpsRatedShipmentToQuote rated = inr q) rs qs.
Proof.
  induction rs as [|r rs IH]; cbn [map_quotes]; intros qs H.
  - inversion H. constructor.
  - destruct (mapUpsRatedShipmentToQuote r) as [e|q] eqn:E; [discriminate|].
    destruct (map_quotes rs) as [e|qs']; [discriminate|].
    inversion H. constructor; [exact E | now apply IH].
Qed.

Lemma map_quotes_inl rs e :
  map_quotes rs = inl e ->
  exists rated, In rated rs /\ mapUpsRatedShipmentToQuote rated = inl e.
Proof.
  induction rs as [|r rs IH]; cbn [map_quotes]; [discriminate|].
  destruct (mapUpsRatedShipmentToQuote r) as [e'|q] eqn:E.
  - intro H. inversion H. subst. exists r. split; [now left | exact E].
  - destruct (map_quotes rs) as [e'|qs']; [|discriminate].
    intro H. inversion H. subst. destruct (IH eq_refl) as (x & Hin & Hx).
    exists x. split; [now right | exact Hx].
Qed.

Lemma map_quotes_fails rs rated e :
  In rated rs -> mapUpsRatedShipmentToQuote rated = inl e ->
  exists e', map_quotes rs = inl e'.
Proof.
  induction rs as [|r rs IH]; [contradiction|].
  intros [->|Hin] He; cbn [map_quotes].
  - rewrite He. eauto.
  - destruct (mapUpsRatedShipmentToQuote r); [eauto|].
    destruct (IH Hin He) as (e' & ->). eauto.
Qed.

Lemma parseResponse_error_shape data e :
  parseResponse data = inl e ->
  code e = PARSE_ERROR /\ carrier (details e) = Some "UPS"
  /\ retryable (details e) = false.
Proof.
  unfold parseResponse.
  destruct data as [w|]; [|intro H; inversion H; now cbn].
  destruct (RateResponse w) as [rr|]; [|intro H; inversion H; now cbn].
  destruct (RatedShipment rr) as [rs|]; [|intro H; inversion H; now cbn].
  destruct (map_quotes rs) as [e'|qs] eqn:E; [|discriminate].
  intro H. inversion H. subst e'.
  destruct (map_quotes_inl _ _ E) as (rated & _ & Hr).
  unfold mapUpsRatedShipmentToQuote in Hr.
  destruct (Js.lookup _ _); [discriminate|]. inversion Hr. now cbn.
Qed.

(** X20.  [parseResponse] is all or nothing.  It returns a response exactly
    for a body with a [RateResponse] envelope and a [RatedShipment] array
    whose records all map to quotes, and then the quotes are those of the
    records, one for one and in order (none for the empty array).  One
    record that the mapper refuses makes the whole response fail, whatever
    the other records are.  Every failure is a PARSE_ERROR of carrier
    "UPS" that is not retryable. *)
Theorem parseResponse_all_or_nothing :
  forall (data : RateData),
    (forall e, parseResponse data = inl e ->
               code e = PARSE_ERROR /\ carrier (details e) = Some "UPS"
               /\ retryable (details e) = false)
    /\ (forall r, parseResponse data = inr r ->
          exists w rr rs,
            data = Some w /\ RateResponse w = Some rr /\ RatedShipment rr = Some rs
            /\ Forall2 (fun rated q => mapUpsRatedShipmentToQuote rated = inr q)
                       rs (Domain.quotes r))
    /\ (forall w rr rs,
          data = Some w -> RateResponse w = Some rr -> RatedShipment rr = Some rs ->
          ((exists rated e, In rated rs /\ mapUpsRatedShipmentToQuote rated = inl e)
           <-> exists e, parseResponse data = inl e)
          /\ (rs = [] -> parseResponse data = inr (Domain.mkRateResponse []))).
Proof.
  intro data. split; [intro e; apply parseResponse_error_shape|]. split.
  - intros r. unfold parseResponse.
    destruct data as [w|]; [|discriminate].
    destruct (RateResponse w) as [rr|] eqn:E1; [|discriminate].
    destruct (RatedShipment rr) as [rs|] eqn:E2; [|discriminate].
    destruct (map_quotes rs) as [e'|qs] eqn:E; [discriminate|].
    intro H. inversion H. exists w, rr, rs. repeat split; try assumption.
    now apply map_quotes_inr.
  - intros w rr rs -> H1 H2. unfold parseResponse. rewrite H1, H2.
    split; [split|].
    + intros (rated & e & Hin & He).
      destruct (map_quotes_fails _ _ _ Hin He) as (e' & ->). eauto.
    + intros (e & He). destruct (map_quotes rs) as [e'|qs] eqn:E; [|discriminate].
      destruct (map_quotes_inl _ _ E) as (rated & Hin & Hr). eauto.
    + intros ->. reflexivity.
Qed.

Lemma parseResponse_all_or_nothing_witness :
  exists e,
    parseResponse
      (Some (mkResponseWrapper (Some (mkUpsRateResponse
         (Some [Fixtures.baseRatedShipment; Fixtures2.rated_with_unknown_unit])))))
    = inl e.
Proof.
  apply (proj1 (proj1 (proj2 (proj2 (parseResponse_all_or_nothing _))
                         (mkResponseWrapper (Some (mkUpsRateResponse
                            (Some [Fixtures.baseRatedShipment;
                                   Fixtures2.rated_with_unknown_unit]))))
                         (mkUpsRateResponse
                            (Some [Fixtures.baseRatedShipment;
                                   Fixtures2.rated_with_unknown_unit]))
                         [Fixtures.baseRatedShipment;
                          Fixtures2.rated_with_unknown_unit]
                         eq_refl eq_refl eq_refl))).
  exists Fixtures2.rated_with_unknown_unit. eexists.
  split; [right; left; reflexivity | reflexivity].
Defined.

(** What a run of [execute] is, once the token is there. *)
Lemma run_execute_with_token request t uuid net :
  run (inl t) uuid net (execute request)
  = match net (rating_call request t uuid) with
    | AxiosOk st d =>
        ([EvGetAccessToken; EvRandomUUID; EvPost (rating_call request t uuid)],
         match parseResponse d with
         | inl e => inr (ExnCarrierError e)
         | inr r => inl r
         end)
    | AxiosFail error =>
        ([EvGetAccessToken; EvRandomUUID; EvPost (rating_call request t uuid)]
           ++ (if CarrierErrorCode_eqb (code (translateError error))
                                       AUTHENTICATION_ERROR
               then [EvInvalidateToken] else []),
         inr (ExnCarrierError (set_carrier "UPS" (translateError error))))
    end.
Proof.
  unfold execute, await_getAccessToken, httpClient_post.
  cbn [try_catch bind run of_result].
  destruct (net (rating_call request t uuid)) as [st d|error].
  - cbn [post_result of_result try_catch bind r_data].
    destruct (parseResponse d); reflexivity.
  - cbn [post_result of_result try_catch bind on_send_failure].
    destruct (CarrierErrorCode_eqb _ _); reflexivity.
Qed.

Lemma run_execute_without_token request x uuid net :
  run (inr x) uuid net (execute request)
  = ([EvGetAccessToken],
     inr (match x with
          | ExnCarrierError _ => x
          | _ => ExnCarrierError
                   (newCarrierError AUTHENTICATION_ERROR
                      "Failed to obtain UPS access token"
                      (mkPartial (Some "UPS") None None None (Some true)))
          end)).
Proof.
  unfold execute, await_getAccessToken.
  cbn [try_catch bind run of_result]. destruct x; reflexivity.
Qed.

(** X21.  Whatever the authenticator, the random source and the network
    do, [execute] fails with a [CarrierError] or not at all.  When the token
    cannot be had, nothing is sent: a [CarrierError] of the authenticator is
    passed on as it is, anything else becomes a retryable
    AUTHENTICATION_ERROR of carrier "UPS".  Once the token is there exactly
    one request is posted, the only thing that can follow it is an
    invalidation of the token, and every failure carries the carrier
    "UPS". *)
Theorem execute_fails_only_with_carrier_errors :
  forall (request : Domain.RateRequest) (token : string + Exn) (uuid : string)
         (net : PostRequest -> AxiosResult RateData),
    let trace := fst (run token uuid net (execute request)) in
    let result := snd (run token uuid net (execute request)) in
    (forall x, result = inr x -> exists e, x = ExnCarrierError e)
    /\ (forall x, token = inr x ->
          trace = [EvGetAccessToken]
          /\ (forall e, x = ExnCarrierError e -> result = inr x)
          /\ ((forall e, x <> ExnCarrierError e) ->
              exists e, result = inr (ExnCarrierError e)
                        /\ code e = AUTHENTICATION_ERROR
                        /\ retryable (details e) = true
                        /\ carrier (details e) = Some "UPS"))
    /\ (forall t, token = inl t ->
          (trace = [EvGetAccessToken; EvRandomUUID;
                    EvPost (rating_call request t uuid)]
           \/ trace = [EvGetAccessToken; EvRandomUUID;
                       EvPost (rating_call request t uuid); EvInvalidateToken])
          /\ forall e, result = inr (ExnCarrierError e) ->
                       carrier (details e) = Some "UPS").
Proof.
  intros request token uuid net trace result. unfold trace, result.
  destruct token as [t|x].
  - rewrite run_execute_with_token.
    destruct (net (rating_call request t uuid)) as [st d|error]; cbn [fst snd].
    + split; [|split].
      * intros x. destruct (parseResponse d); [|discriminate].
        intro H. inversion H. eauto.
      * discriminate.
      * intros t' Ht. inversion Ht. subst t'. split; [now left|].
        intros e. destruct (parseResponse d) as [e'|r] eqn:E; [|discriminate].
        intro H. inversion H. subst. now apply (parseResponse_error_shape d).
    + split; [|split].
      * intros x H. inversion H. eauto.
      * discriminate.
      * intros t' Ht. inversion Ht. subst t'. split.
        -- destruct (CarrierErrorCode_eqb _ _); [now right | now left].
        -- intros e H. inversion H. reflexivity.
  - rewrite run_execute_without_token. cbn [fst snd].
    split; [|split].
    + intros y H. inversion H. destruct x; eauto.
    + intros x' Hx. inversion Hx. subst x'. split; [reflexivity|]. split.
      * intros e ->. reflexivity.
      * intros Hn. destruct x as [e| | |];
          [exfalso; now apply (Hn e) | | |]; eexists; now repeat split.
    + discriminate.
Qed.

(** A run of [execute] on an authenticator that holds an unexpired token. *)
Lemma run_cached request now oauth uuid net s c :
  cache s = Some c -> Js.lt now (expiresAt c) = true ->
  Client.run_on_authenticator now oauth uuid net (execute request) s
  = match net (rating_call request (accessToken c) uuid) with
    | AxiosOk st d =>
        Some (match parseResponse d with
              | inl e => inr (ExnCarrierError e)
              | inr r => inl r
              end, s)
    | AxiosFail error =>
        Some (inr (ExnCarrierError (set_carrier "UPS" (translateError error))),
              if CarrierErrorCode_eqb (code (translateError error))
                                      AUTHENTICATION_ERROR
              then invalidateToken s else s)
    end.
Proof.
  intros Hc Hlt. unfold execute, await_getAccessToken, httpClient_post.
  cbn [try_catch bind Client.run_on_authenticator].
  rewrite (AuthFacts.getAccessToken_valid now s c Hc Hlt).
  cbn [received of_result try_catch bind Client.run_on_authenticator].
  destruct (net (rating_call request (accessToken c) uuid)) as [st d|error].
  - cbn [post_result of_result try_catch bind r_data].
    destruct (parseResponse d); reflexivity.
  - cbn [post_result of_result try_catch bind on_send_failure].
    destruct (CarrierErrorCode_eqb _ _); reflexivity.
Qed.

(** X22.  On an authenticator that holds an unexpired token [execute]
    always comes to an end and starts no credential exchange.  When the
    rating call fails and the failure is an AUTHENTICATION_ERROR, the token
    is cleared: the authenticator is left as [invalidateToken] leaves it,
    without a cached token.  In every other case (a response, parsed or not,
    or a failure of another kind) the authenticator is left exactly as it
    was; in particular a response that cannot be parsed does not cost the
    token.  So the token is gone afterwards exactly when [execute] failed
    with an AUTHENTICATION_ERROR. *)
Theorem execute_with_cached_token :
  forall (request : Domain.RateRequest) (now : Js.number)
         (oauth : AxiosResult TokenData) (uuid : string)
         (net : PostRequest -> AxiosResult RateData)
         (s : State) (c : TokenCache),
    cache s = Some c -> Js.lt now (expiresAt c) = true ->
    exists result s',
      Client.run_on_authenticator now oauth uuid net (execute request) s
      = Some (result, s')
      /\ exchanges s' = exchanges s /\ promises s' = promises s
      /\ (s' = s \/ s' = invalidateToken s)
      /\ (forall st d, net (rating_call request (accessToken c) uuid)
                       = AxiosOk st d ->
                       s' = s
                       /\ result = match parseResponse d with
                                   | inl e => inr (ExnCarrierError e)
                                   | inr r => inl r
                                   end)
      /\ (forall error, net (rating_call request (accessToken c) uuid)
                        = AxiosFail error ->
                        result = inr (ExnCarrierError
                                        (set_carrier "UPS" (translateError error)))
                        /\ (code (translateError error) = AUTHENTICATION_ERROR ->
                            s' = invalidateToken s /\ cache s' = None)
                        /\ (code (translateError error) <> AUTHENTICATION_ERROR ->
                            s' = s))
      /\ (forall e, result = inr (ExnCarrierError e) ->
                    code e <> AUTHENTICATION_ERROR -> s' = s)
      /\ (cache s' = None
          <-> exists e, result = inr (ExnCarrierError e)
                        /\ code e = AUTHENTICATION_ERROR).
Proof.
  intros request now oauth uuid net s c Hc Hlt.
  rewrite (run_cached request now oauth uuid net s c Hc Hlt).
  destruct (net (rating_call request (accessToken c) uuid)) as [st d|error].
  - eexists; eexists. split; [reflexivity|].
    split; [reflexivity|]. split; [reflexivity|]. split; [now left|].
    split; [|split; [|split]].
    + intros st' d' Heq. inversion Heq. now subst.
    + discriminate.
    + reflexivity.
    + rewrite Hc. split; [discriminate|].
      intros (e & He & Hcode). destruct (parseResponse d) as [e'|r] eqn:E;
        [|discriminate].
      inversion He. subst e'.
      destruct (parseResponse_error_shape d e E) as (Hp & _). congruence.
  - destruct (CarrierErrorCode_eqb (code (translateError error))
                                   AUTHENTICATION_ERROR) eqn:E;
      (eexists; eexists; split; [reflexivity|]);
      (split; [reflexivity|]); (split; [reflexivity|]).
    + apply AuthFacts.CarrierErrorCode_eqb_eq in E.
      split; [now right|]. split; [discriminate|]. split; [|split].
      * intros error' Heq. inversion Heq. subst error'.
        split; [reflexivity|]. split; [now split | contradiction].
      * intros e Heq Hne. inversion Heq. subst e.
        cbn [set_carrier code] in Hne. contradiction.
      * split; [|reflexivity]. intros _. eexists. split; [reflexivity | exact E].
    + assert (code (translateError error) <> AUTHENTICATION_ERROR) as Hne.
      { intro H. apply AuthFacts.CarrierErrorCode_eqb_eq in H. congruence. }
      split; [now left|]. split; [discriminate|]. split; [|split].
      * intros error' Heq. inversion Heq. subst error'.
        split; [reflexivity|]. split; [contradiction | reflexivity].
      * reflexivity.
      * rewrite Hc. split; [discriminate|].
        intros (e & He & Hcode). inversion He. subst e.
        cbn [set_carrier code] in Hcode. contradiction.
Qed.

Lemma execute_with_cached_token_witness :
  (exists result s',
     Client.run_on_authenticator (Js.of_Z 1000) Fixtures.valid_token_answer "uuid"
       (fun _ => AxiosOk 200 None) (execute Fixtures.baseRequest)
       Fixtures.cached_state
     = Some (result, s')
     /\ exchanges s' = 1 /\ s' = Fixtures.cached_state)
  /\
  (exists result s',
     Client.run_on_authenticator (Js.of_Z 1000) Fixtures.valid_token_answer "uuid"
       (fun _ => AxiosFail (ExnAxiosError Fixtures.unauthorized_401))
       (execute Fixtures.baseRequest) Fixtures.cached_state
     = Some (result, s')
     /\ exchanges s' = 1
     /\ s' = invalidateToken Fixtures.cached_state /\ cache s' = None).
Proof.
  split.
  - destruct (execute_with_cached_token Fixtures.baseRequest (Js.of_Z 1000)
                Fixtures.valid_token_answer "uuid" (fun _ => AxiosOk 200 None)
                Fixtures.cached_state _ eq_refl eq_refl)
      as (result & s' & Hrun & Hx & _ & _ & Hok & _).
    exists result, s'. split; [exact Hrun|]. split; [exact Hx|].
    exact (proj1 (Hok _ _ eq_refl)).
  - destruct (execute_with_cached_token Fixtures.baseRequest (Js.of_Z 1000)
                Fixtures.valid_token_answer "uuid"
                (fun _ => AxiosFail (ExnAxiosError Fixtures.unauthorized_401))
                Fixtures.cached_state _ eq_refl eq_refl)
      as (result & s' & Hrun & Hx & _ & _ & _ & Hfail & _).
    exists result, s'. split; [exact Hrun|]. split; [exact Hx|].
    exact (proj1 (proj2 (Hfail _ eq_refl)) eq_refl).
Defined.

(** A run of [execute] on an idle authenticator without a usable token:
    one exchange, settled with [oauth]. *)
Lemma run_cold request now oauth uuid net s :
  cache_valid (cache s) now = false -> pendingRefresh s = None ->
  let s' := finally (settle now oauth (snd (refresh s))) in
  exchanges s' = S (exchanges s)
  /\ cache s' = snd (fetchToken now oauth (cache s))
  /\ pendingRefresh s' = None
  /\ Client.run_on_authenticator now oauth uuid net (execute request) s
     = match fst (fetchToken now oauth (cache s)) with
       | inr e => Some (inr (ExnCarrierError e), s')
       | inl t =>
           match net (rating_call request t uuid) with
           | AxiosOk st d =>
               Some (match parseResponse d with
                     | inl e => inr (ExnCarrierError e)
                     | inr r => inl r
                     end, s')
           | AxiosFail error =>
               Some (inr (ExnCarrierError
                            (set_carrier "UPS" (translateError error))),
                     if CarrierErrorCode_eqb (code (translateError error))
                                             AUTHENTICATION_ERROR
                     then invalidateToken s' else s')
           end
       end.
Proof.
  intros Hinv Hidle s'.
  assert (s' = mkState (snd (fetchToken now oauth (cache s))) None
                 (set_nth (length (promises s))
                    (Settled (fst (fetchToken now oauth (cache s))))
                    (promises s ++ [Pending]))
                 (S (exchanges s))) as Hs'.
  { unfold s'. rewrite (AuthFacts.refresh_idle s Hidle). cbn [snd].
    rewrite (AuthFacts.settle_started now oauth s). reflexivity. }
  split; [now rewrite Hs'|]. split; [now rewrite Hs'|]. split; [now rewrite Hs'|].
  unfold execute, await_getAccessToken, httpClient_post.
  cbn [try_catch bind Client.run_on_authenticator].
  rewrite (AuthFacts.getAccessToken_invalid now s Hinv).
  rewrite (AuthFacts.refresh_idle s Hidle).
  change (finally (settle now oauth
            (mkState (cache s) (Some (length (promises s)))
                     (promises s ++ [Pending]) (S (exchanges s)))))
    with (finally (settle now oauth (snd
            (Started (length (promises s)),
             mkState (cache s) (Some (length (promises s)))
                     (promises s ++ [Pending]) (S (exchanges s)))))).
  rewrite <- (AuthFacts.refresh_idle s Hidle). fold s'.
  assert (received (Started (length (promises s))) s'
          = Some (fst (fetchToken now oauth (cache s)))) as Hr.
  { rewrite Hs'. cbn [received promises].
    rewrite AuthFacts.nth_error_set_nth;
      [reflexivity | rewrite length_app; cbn; lia]. }
  rewrite Hr.
  destruct (fst (fetchToken now oauth (cache s))) as [t|e].
  - cbn [of_result try_catch bind Client.run_on_authenticator].
    destruct (net (rating_call request t uuid)) as [st d|error].
    + cbn [post_result of_result try_catch bind r_data].
      destruct (parseResponse d); reflexivity.
    + cbn [post_result of_result try_catch bind on_send_failure].
      destruct (CarrierErrorCode_eqb _ _); reflexivity.
  - reflexivity.
Qed.





(** X24.  A token obtained for one rating call serves the next: after a
    call that found no usable token and whose exchange succeeded, a second
    call made before the token's expiry (less the 60-second buffer) is
    authorised with the same token and starts no further exchange, as long
    as the first rating call did not fail with an AUTHENTICATION_ERROR. *)
Theorem token_is_reused_across_rating_calls :
  forall (request1 request2 : Domain.RateRequest) (now later e : Z)
         (status : Z) (tok es uuid1 uuid2 : string)
         (net1 net2 : PostRequest -> AxiosResult RateData)
         (oauth2 : AxiosResult TokenData) (s : State),
    cache_valid (cache s) (Js.of_Z now) = false -> pendingRefresh s = None ->
    Js.truthy_string tok = true -> Js.parseInt es = Js.of_Z e ->
    (later < now + e * 1000 - 60000)%Z ->
    (forall error, net1 (rating_call request1 tok uuid1) = AxiosFail error ->
                   code (translateError error) <> AUTHENTICATION_ERROR) ->
    exists r1 s1 r2 s2,
      Client.run_on_authenticator (Js.of_Z now)
        (AxiosOk status (Some (mkOAuth (Some tok) (Some es)))) uuid1 net1
        (execute request1) s = Some (r1, s1)
      /\ exchanges s1 = S (exchanges s)
      /\ Client.run_on_authenticator (Js.of_Z later) oauth2 uuid2 net2
           (execute request2) s1 = Some (r2, s2)
      /\ exchanges s2 = S (exchanges s)
      /\ r2 = snd (run (inl tok) uuid2 net2 (execute request2)).
Proof.
  intros request1 request2 now later e status tok es uuid1 uuid2 net1 net2
         oauth2 s Hinv Hidle Ht He Hlater Hnet.
  set (oauth := AxiosOk status (Some (mkOAuth (Some tok) (Some es)))).
  destruct (run_cold request1 (Js.of_Z now) oauth uuid1 net1 s Hinv Hidle)
    as (Hx & Hc & _ & Hrun).
  set (s1 := finally (settle (Js.of_Z now) oauth (snd (refresh s)))) in *.
  unfold oauth in Hc, Hrun.
  rewrite (AuthFacts.fetchToken_success _ _ _ _ _ Ht) in Hc, Hrun.
  cbn [fst snd] in Hc, Hrun. rewrite He in Hc.
  destruct (JsFacts.expiry_arith now e) as (q & Hq & Hv).
  unfold TOKEN_EXPIRY_BUFFER_MS in Hc. rewrite Hq in Hc.
  assert (Js.lt (Js.of_Z later) (expiresAt (mkCache tok (Js.Finite q))) = true)
    as Hlt.
  { cbn [expiresAt]. rewrite (JsFacts.lt_finite_of_Z q later _ Hv).
    now apply Z.ltb_lt. }
  assert (exists r1, Client.run_on_authenticator (Js.of_Z now) oauth uuid1 net1
                       (execute request1) s = Some (r1, s1)) as (r1 & Hr1).
  { unfold oauth. rewrite Hrun.
    destruct (net1 (rating_call request1 tok uuid1)) as [st d|error] eqn:En.
    - eauto.
    - destruct (CarrierErrorCode_eqb (code (translateError error))
                                     AUTHENTICATION_ERROR) eqn:E; [|eauto].
      apply AuthFacts.CarrierErrorCode_eqb_eq in E.
      exfalso. exact (Hnet error eq_refl E). }
  pose proof (run_cached request2 (Js.of_Z later) oauth2 uuid2 net2 s1 _ Hc Hlt)
    as Hrun2.
  cbn [accessToken] in Hrun2.
  exists r1, s1. rewrite Hrun2, run_execute_with_token.
  destruct (net2 (rating_call request2 tok uuid2)) as [st d|error].
  - eexists; eexists. repeat split; [exact Hr1 | exact Hx | exact Hx].
  - destruct (CarrierErrorCode_eqb _ _);
      eexists; eexists; repeat split; try exact Hr1; exact Hx.
Qed.

Lemma token_is_reused_across_rating_calls_witness :
  exists r1 s1 r2 s2,
    Client.run_on_authenticator (Js.of_Z 0) Fixtures.valid_token_answer "u1"
      (fun _ => AxiosOk 200 None) (execute Fixtures.baseRequest) initial
    = Some (r1, s1)
    /\ Client.run_on_authenticator (Js.of_Z 1000) Fixtures.connection_refused "u2"
         (fun _ => AxiosOk 200 None) (execute Fixtures.multi_package_request) s1
       = Some (r2, s2)
    /\ exchanges s2 = 1.
Proof.
  destruct (token_is_reused_across_rating_calls
              Fixtures.baseRequest Fixtures.multi_package_request
              0%Z 1000%Z 14399%Z 200%Z
              "eyJhbGciOiJSUzM4NCIsInR5cCI6IkpXVCJ9.test-token" "14399" "u1" "u2"
              (fun _ => AxiosOk 200 None) (fun _ => AxiosOk 200 None)
              Fixtures.connection_refused initial
              eq_refl eq_refl eq_refl eq_refl ltac:(lia)
              ltac:(intros error H; discriminate H))
    as (r1 & s1 & r2 & s2 & H1 & _ & H2 & H3 & _).
  exists r1, s1, r2, s2. split; [exact H1|]. split; [exact H2 | exact H3].
Defined.

End ExecuteFacts.

(** ** More on validation *)

Module ValidationFacts.
Import Validation Constraints.

Lemma app_nil {A} (l1 l2 : list A) : (l1 ++ l2)%list = [] <-> l1 = [] /\ l2 = [].
Proof. split; [apply app_eq_nil | intros [-> ->]; reflexivity]. Qed.

Lemma string_min_max_nil zmsg p lo hi s :
  string_min_max zmsg p lo hi s = [] <-> between lo hi (String.length s).
Proof.
  unfold string_min_max, between. rewrite app_nil.
  destruct (Nat.ltb_spec (String.length s) lo) as [H1|H1];
    destruct (Nat.ltb_spec hi (String.length s)) as [H2|H2];
    split; intros [Ha Hb]; try discriminate; try lia; split; try reflexivity; lia.
Qed.

Lemma string_length_nil p n msg s :
  string_length p n msg s = [] <-> String.length s = n.
Proof.
  unfold string_length.
  destruct (Nat.eqb_spec (String.length s) n); split; intro H;
    try discriminate; try reflexivity; congruence.
Qed.

Lemma number_positive_nil zmsg zinf p msg v :
  number_positive zmsg zinf p msg v = [] <-> positive_number zinf v.
Proof.
  unfold number_positive, positive_number.
  destruct (number_type_ok zinf v); cbn [negb].
  - destruct (Js.gt v (Js.of_Z 0)); split; intro H;
      try discriminate; try (now split); destruct H; discriminate.
  - split; [discriminate | intros [H _]; discriminate].
Qed.

Lemma optional_nil {A} (check : A -> list ZodIssue) (P : A -> Prop) v :
  (forall a, check a = [] <-> P a) -> optional check v = [] <-> opt P v.
Proof.
  intro H. destruct v as [a|]; cbn [optional opt]; [apply H | tauto].
Qed.

Lemma elements_nil {A} (check : nat -> A -> list ZodIssue) (P : A -> Prop) l :
  (forall i a, check i a = [] <-> P a) ->
  forall i, elements check i l = [] <-> Forall P l.
Proof.
  intros H. induction l as [|a l IH]; intro i; cbn [elements].
  - split; [constructor | reflexivity].
  - rewrite app_nil, H, IH. split.
    + intros [Ha Hl]. now constructor.
    + intro Hf. inversion Hf. now split.
Qed.

Lemma array_bounds_nil (lo_issue hi_issue : ZodIssue) (hi n : nat) :
  ((if (n <? 1)%nat then [lo_issue] else [])
   ++ (if (hi <? n)%nat then [hi_issue] else []))%list = []
  <-> between 1 hi n.
Proof.
  unfold between. rewrite app_nil.
  destruct (Nat.ltb_spec n 1) as [H1|H1];
    destruct (Nat.ltb_spec hi n) as [H2|H2];
    split; intros [Ha Hb]; try discriminate; try lia; split; try reflexivity; lia.
Qed.

Lemma AddressSchema_nil zmsg p a :
  AddressSchema zmsg p a = [] <-> valid_address a.
Proof.
  unfold AddressSchema, valid_address.
  rewrite !app_nil.
  rewrite (optional_nil _ (fun s => between 1 35 (String.length s)))
    by (intro; apply string_min_max_nil).
  rewrite (elements_nil _ (fun s => between 1 35 (String.length s)))
    by (intros; apply string_min_max_nil).
  rewrite (optional_nil _ (fun s => String.length s = 2))
    by (intro; apply string_length_nil).
  rewrite !string_min_max_nil, string_length_nil.
  pose proof (array_bounds_nil
                (mkIssue (p ++ [Key "addressLines"])
                         "At least one address line is required")
                (mkIssue (p ++ [Key "addressLines"]) (zmsg (TooBigArray 3)))
                3 (List.length (Domain.addressLines a))) as Hb.
  rewrite app_nil in Hb. tauto.
Qed.

Lemma DimensionsSchema_nil zmsg zinf p d :
  DimensionsSchema zmsg zinf p d = [] <-> valid_dimensions zinf d.
Proof.
  unfold DimensionsSchema, valid_dimensions.
  rewrite !app_nil, !number_positive_nil. tauto.
Qed.

Lemma PackageSchema_nil zmsg zinf p pkg :
  PackageSchema zmsg zinf p pkg = [] <-> valid_package zinf pkg.
Proof.
  unfold PackageSchema, PackageWeightSchema, valid_package.
  rewrite app_nil, number_positive_nil.
  rewrite (optional_nil _ (valid_dimensions zinf))
    by (intro; apply DimensionsSchema_nil).
  tauto.
Qed.

Lemma RateRequestSchema_nil zmsg zinf r :
  RateRequestSchema zmsg zinf r = [] <-> valid_request zinf r.
Proof.
  unfold RateRequestSchema, valid_request.
  rewrite !app_nil, !AddressSchema_nil.
  rewrite (elements_nil _ (valid_package zinf))
    by (intros; apply PackageSchema_nil).
  rewrite (optional_nil _ (fun s => String.length s = 6)).
  - pose proof (array_bounds_nil
                  (mkIssue [Key "packages"] "At least one package is required")
                  (mkIssue [Key "packages"] (zmsg (TooBigArray 200)))
                  200 (List.length (Domain.packages r))) as Hb.
    rewrite app_nil in Hb. tauto.
  - intro s. rewrite string_min_max_nil. unfold between. lia.
Qed.

(** X25.  The schema reports no issue exactly when the request meets every
    constraint: names of 1 to 35 characters, 1 to 3 address lines of 1 to 35
    characters, a city of 1 to 30, a postal code of 1 to 9, state and
    country codes of exactly 2, 1 to 200 packages with positive weight and
    dimensions, an account number of exactly 6.  [getRates] hands such a
    request to [execute]; any other request it refuses before any call,
    with a VALIDATION_ERROR whose message has every reported issue in it. *)
Theorem request_accepted_iff_constraints_hold :
  forall (zmsg : ZodDefault -> string) (zinf : bool) (request : Domain.RateRequest),
    (RateRequestSchema zmsg zinf request = [] <-> valid_request zinf request)
    /\ (valid_request zinf request ->
        Client.getRates zmsg zinf request = Rating.execute request)
    /\ (~ valid_request zinf request ->
        (exists issue, In issue (RateRequestSchema zmsg zinf request))
        /\ forall issue,
             In issue (RateRequestSchema zmsg zinf request) ->
             Client.rejects zmsg zinf request (Client.format_issue issue)).
Proof.
  intros zmsg zinf request.
  split; [apply RateRequestSchema_nil|]. split.
  - intro Hv. apply (RateRequestSchema_nil zmsg) in Hv.
    unfold Client.getRates. now rewrite Hv.
  - intro Hn. split.
    + destruct (RateRequestSchema zmsg zinf request) as [|i l] eqn:E.
      * exfalso. apply Hn. now apply (RateRequestSchema_nil zmsg).
      * exists i. now left.
    + intros issue Hin. now apply ClientFacts.rejects_of_issue.
Qed.

Lemma request_accepted_iff_constraints_hold_witness :
  Client.getRates (fun _ => "") true Fixtures.baseRequest
  = Rating.execute Fixtures.baseRequest.
Proof.
  apply (proj1 (proj2 (request_accepted_iff_constraints_hold
                         (fun _ => "") true Fixtures.baseRequest))).
  apply (proj1 (proj1 (request_accepted_iff_constraints_hold
                         (fun _ => "") true Fixtures.baseRequest))).
  reflexivity.
Defined.

End ValidationFacts.

(** ** The test configuration *)

Module ConfigFacts2.
Import Config.

Lemma or_string_falsy (v : option string) (d : string) :
  Js.truthy_ostring v = false -> Http.or_string v d = d.
Proof. destruct v as [[|a s]|]; cbn; congruence. Qed.

(** X26.  [createConfig()] without overrides is what [loadConfig()] gives
    in an environment that sets the test credentials, leaves
    UPS_ACCOUNT_NUMBER unset, and leaves the base URL, the OAuth URL, the
    timeout and the log level unset or empty: the two functions agree on
    every default. *)
Theorem createConfig_agrees_with_loadConfig :
  forall (env : Env),
    env "UPS_CLIENT_ID" = Some "test-client-id" ->
    env "UPS_CLIENT_SECRET" = Some "test-client-secret" ->
    env "UPS_ACCOUNT_NUMBER" = None ->
    Js.truthy_ostring (env "UPS_BASE_URL") = false ->
    Js.truthy_ostring (env "UPS_OAUTH_URL") = false ->
    Js.truthy_ostring (env "REQUEST_TIMEOUT_MS") = false ->
    Js.truthy_ostring (env "LOG_LEVEL") = false ->
    loadConfig env = inr (createConfig (mkOverrides None None None)).
Proof.
  intros env Hid Hsecret Hacct Hbase Hoauth Htimeout Hlevel.
  unfold loadConfig, requireEnv. rewrite Hid, Hsecret, Hacct.
  cbn [Js.truthy_ostring Js.truthy_string].
  rewrite !or_string_falsy by assumption.
  reflexivity.
Qed.

Lemma createConfig_agrees_with_loadConfig_witness :
  loadConfig Fixtures2.env_of_tests = inr (createConfig (mkOverrides None None None)).
Proof.
  apply createConfig_agrees_with_loadConfig; reflexivity.
Defined.

End ConfigFacts2.
